(** * deIdentifier: text extraction, entity normalisation and synthetic replacement

    A shallow embedding of [src/replacer.py], [src/extractor.py] and
    [src/pii_detector.py], with the per-file step of [src/app.py] that calls
    them, the properties of the specification that concern them, and further
    properties read off the code.

    Conventions of the embedding.
    - Python [str] values are [string]s; [lower], [upper] and the
      white-space class act on the ASCII range.
    - A Python [dict] whose iteration order matters is an association list in
      insertion order ([dict_set] overwrites in place or appends); the
      replacement cache, which is only ever looked up and inserted into, is a
      [gmap string string].
    - A method of [SimplePIIFaker] is a function from the instance to a
      result and the instance after the call; the result is a value or the
      exception raised, and the instance keeps what was stored before a raise.
    - The external libraries (Faker, [random], PIL, pytesseract, PyMuPDF,
      pdf2image, python-docx, pandas, zipfile, GLiNER) are records of
      functions; a library call that may raise returns a [lib_result].
    - The extractor returns, next to its text, the OCR calls it made and the
      archive members it handed to [extract_text]; its recursion through
      archives is bounded by a fuel argument, and two units are shown to be
      enough. *)

From Stdlib Require Import ZArith Ascii String List Lia Bool.
From stdpp Require Import base strings gmap list pretty.

(** ** Python string operations *)

Module Py.

Definition is_ascii_upper (c : ascii) : bool :=
  (65 <=? nat_of_ascii c)%nat && (nat_of_ascii c <=? 90)%nat.

Definition is_ascii_lower (c : ascii) : bool :=
  (97 <=? nat_of_ascii c)%nat && (nat_of_ascii c <=? 122)%nat.

Definition is_ascii_digit (c : ascii) : bool :=
  (48 <=? nat_of_ascii c)%nat && (nat_of_ascii c <=? 57)%nat.

(** [str.isspace] on the ASCII range: TAB, LF, VT, FF, CR, FS, GS, RS, US
    and the space. *)
Definition is_space (c : ascii) : bool :=
  let n := nat_of_ascii c in
  ((9 <=? n)%nat && (n <=? 13)%nat) || ((28 <=? n)%nat && (n <=? 32)%nat).

Definition lower_char (c : ascii) : ascii :=
  if is_ascii_upper c then ascii_of_nat (nat_of_ascii c + 32) else c.

Definition upper_char (c : ascii) : ascii :=
  if is_ascii_lower c then ascii_of_nat (nat_of_ascii c - 32) else c.

Fixpoint map_chars (f : ascii -> ascii) (s : string) : string :=
  match s with
  | EmptyString => EmptyString
  | String c s' => String (f c) (map_chars f s')
  end.

Fixpoint filter_chars (p : ascii -> bool) (s : string) : string :=
  match s with
  | EmptyString => EmptyString
  | String c s' => if p c then String c (filter_chars p s') else filter_chars p s'
  end.

(** [s.lower()] and [s.upper()] of a text of ASCII characters: the letters
    A-Z and a-z change case and every other character stays. On a text with
    other characters [str.upper] changes further letters and may change the
    length (the sharp s becomes "SS"); what is stated of an upper-cased label
    is stated of the labels that satisfy [isascii]. *)
Definition lower : string -> string := map_chars lower_char.
Definition upper : string -> string := map_chars upper_char.

(** [s.startswith(p)]. *)
Definition startswith (s p : string) : bool := String.prefix p s.

(** [needle in hay]. *)
Fixpoint contains (needle hay : string) : bool :=
  String.prefix needle hay ||
  match hay with
  | EmptyString => false
  | String _ hay' => contains needle hay'
  end.

(** [any(t in s for t in tokens)]. *)
Definition any_in (tokens : list string) (s : string) : bool :=
  existsb (fun t => contains t s) tokens.

(** [s.replace(old, new)] for a non-empty [old]: leftmost matches, not
    overlapping. [skip] counts the characters of a match still to be dropped. *)
Fixpoint replace_go (old new : string) (skip : nat) (s : string) : string :=
  match s with
  | EmptyString => EmptyString
  | String c s' =>
      match skip with
      | S k => replace_go old new k s'
      | O =>
          if String.prefix old s
          then new +:+ replace_go old new (String.length old - 1) s'
          else String c (replace_go old new 0 s')
      end
  end.

Definition replace (old new s : string) : string := replace_go old new 0 s.

(** [s.split()]: the maximal runs of non-white-space characters. *)
Fixpoint split_go (tok : string) (s : string) : list string :=
  match s with
  | EmptyString => match tok with EmptyString => [] | _ => [tok] end
  | String c s' =>
      if is_space c
      then match tok with
           | EmptyString => split_go EmptyString s'
           | _ => tok :: split_go EmptyString s'
           end
      else split_go (tok +:+ String c EmptyString) s'
  end.

Definition split (s : string) : list string := split_go EmptyString s.

(** [s.split(sep)] for a one-character separator: empty pieces are kept. *)
Fixpoint split_on_go (sep : ascii) (tok : string) (s : string) : list string :=
  match s with
  | EmptyString => [tok]
  | String c s' =>
      if Ascii.eqb c sep
      then tok :: split_on_go sep EmptyString s'
      else split_on_go sep (tok +:+ String c EmptyString) s'
  end.

Definition split_on (sep : ascii) (s : string) : list string :=
  split_on_go sep EmptyString s.

Fixpoint lstrip (s : string) : string :=
  match s with
  | EmptyString => EmptyString
  | String c s' => if is_space c then lstrip s' else s
  end.

(** [s.strip()]. *)
Definition strip (s : string) : string :=
  String.rev (lstrip (String.rev (lstrip s))).

(** [sep.join(parts)]. *)
Fixpoint join (sep : string) (parts : list string) : string :=
  match parts with
  | [] => EmptyString
  | [p] => p
  | p :: rest => p +:+ sep +:+ join sep rest
  end.

(** [s.endswith(suffix)]. *)
Definition endswith (s suffix : string) : bool :=
  String.prefix (String.rev suffix) (String.rev s).

(** Truth value of a string: [bool(s)]. *)
Definition nonempty (s : string) : bool :=
  match s with EmptyString => false | _ => true end.

(** [str(n)] for an integer. *)
Definition str_of_Z (n : Z) : string := pretty n.

(** [all(p(c) for c in s)]. *)
Fixpoint all_chars (p : ascii -> bool) (s : string) : bool :=
  match s with
  | EmptyString => true
  | String c s' => p c && all_chars p s'
  end.

(** [s.isascii()]: every character of [s] is below 128. *)
Definition isascii (s : string) : bool :=
  all_chars (fun c => (nat_of_ascii c <? 128)%nat) s.

End Py.

(** ** Entity mappings *)

Module Mapping.

(** The value of one label in an entity mapping: [Union[str, List[str]]]. *)
Inductive value : Type :=
  | Scalar (s : string)
  | Seq (l : list string).

(** [Dict[str, Union[str, List[str]]]], in insertion order. *)
Definition dict : Type := list (string * value).

Definition keys (d : dict) : list string := map fst d.

(** [label in d]. *)
Definition dict_mem (label : string) (d : dict) : bool :=
  existsb (String.eqb label) (keys d).

(** [d[label]]. *)
Fixpoint dict_get (label : string) (d : dict) : option value :=
  match d with
  | [] => None
  | (k, v) :: d' => if String.eqb label k then Some v else dict_get label d'
  end.

(** [d[label] = v]: an existing key keeps its position, a new one is appended. *)
Fixpoint dict_set (label : string) (v : value) (d : dict) : dict :=
  match d with
  | [] => [(label, v)]
  | (k, v0) :: d' =>
      if String.eqb label k then (k, v) :: d' else (k, v0) :: dict_set label v d'
  end.

End Mapping.

(** ** The replacement generator ([src/replacer.py]) *)

Module Replacer.
Import Py Mapping.

(** The only exception the class can raise on its own: [name_parts[0]] on an
    empty list. *)
Inductive exn : Type := IndexError.

Inductive res (A : Type) : Type :=
  | Ok (a : A)
  | Err (e : exn).
Arguments Ok {A} a.
Arguments Err {A} e.

(** A [datetime.date]. *)
Record date : Type := { year : nat; month : nat; day : nat }.

(** What the class takes from [random] and from [Faker('en_IN')]. [World] is
    the state of the two pseudo-random generators; [random_draw] and
    [faker_draw] are the raw draws behind [Random._randbelow]. *)
Record Providers (World : Type) : Type := {
  random_draw : World -> N * World;
  faker_draw : World -> N * World;
  faker_name_male : World -> string * World;
  faker_name_female : World -> string * World;
  faker_name : World -> string * World;
  faker_email : World -> string * World;
  faker_address : World -> string * World;
  faker_date_of_birth : nat -> nat -> World -> date * World
}.
Arguments random_draw {World} _ _.
Arguments faker_draw {World} _ _.
Arguments faker_name_male {World} _ _.
Arguments faker_name_female {World} _ _.
Arguments faker_name {World} _ _.
Arguments faker_email {World} _ _.
Arguments faker_address {World} _ _.
Arguments faker_date_of_birth {World} _ _ _ _.

(** Computations that only consume randomness. *)
Definition Gen (World A : Type) : Type := World -> A * World.

Definition gret {World A} (a : A) : Gen World A := fun w => (a, w).

Definition gbind {World A B} (m : Gen World A) (k : A -> Gen World B) : Gen World B :=
  fun w => let (a, w') := m w in k a w'.

Notation "x <~ m ;; k" := (gbind m (fun x => k))
  (at level 100, m at next level, right associativity).

(** The instance: [self.replacement_cache], [self.current_patient_name], and
    the generators behind [self.faker] and [random]. *)
Record St (World : Type) : Type := {
  replacement_cache : gmap string string;
  current_patient_name : option string;
  world : World
}.
Arguments replacement_cache {World} _.
Arguments current_patient_name {World} _.
Arguments world {World} _.
Arguments Build_St {World} _ _ _.

(** [SimplePIIFaker()]: [__init__] (lines 15-19). *)
Definition init {World} (w : World) : St World :=
  {| replacement_cache := ∅; current_patient_name := None; world := w |}.

(** A method: it may mutate the instance and may raise; the instance keeps
    whatever was mutated before a raise. *)
Definition M (World A : Type) : Type := St World -> res A * St World.

Definition mret {World A} (a : A) : M World A := fun s => (Ok a, s).

Definition mbind {World A B} (m : M World A) (k : A -> M World B) : M World B :=
  fun s => match m s with
           | (Ok a, s') => k a s'
           | (Err e, s') => (Err e, s')
           end.

Notation "x <- m ;; k" := (mbind m (fun x => k))
  (at level 100, m at next level, right associativity).

Definition raise {World A} (e : exn) : M World A := fun s => (Err e, s).

Definition lift {World A} (g : Gen World A) : M World A :=
  fun s => let (a, w') := g (world s) in
           (Ok a, {| replacement_cache := replacement_cache s;
                     current_patient_name := current_patient_name s;
                     world := w' |}).

Definition get_current_patient_name {World} : M World (option string) :=
  fun s => (Ok (current_patient_name s), s).

Definition set_current_patient_name {World} (a : option string) : M World unit :=
  fun s => (Ok tt, {| replacement_cache := replacement_cache s;
                      current_patient_name := a;
                      world := world s |}).

Definition cache_lookup {World} (k : string) : M World (option string) :=
  fun s => (Ok (replacement_cache s !! k), s).

Definition cache_store {World} (k v : string) : M World unit :=
  fun s => (Ok tt, {| replacement_cache := <[k := v]> (replacement_cache s);
                      current_patient_name := current_patient_name s;
                      world := world s |}).

(** The fixed vocabularies of [generate_fake_value]. *)
Definition male_titles : list string := ["mr."; "mr"; "shri"; "sri"].
Definition female_titles : list string := ["mrs."; "ms."; "miss"; "smt"; "dr."].
Definition specialties : list string :=
  ["Cardiologist"; "Neurologist"; "Orthopedist"; "Dermatologist"; "Pediatrician"].
Definition domain_options : list string :=
  ["example.com"; "example.org"; "test.com"; "sample.org"; "demo.net"].
Definition short_domain_options : list string :=
  ["example.com"; "example.org"; "test.com"].
Definition medical_state_codes : list string :=
  ["MH"; "DL"; "KA"; "TN"; "UP"; "GJ"; "RJ"; "WB"; "AP"; "MP"].
Definition driver_state_codes : list string :=
  ["DL"; "MH"; "KA"; "TN"; "UP"; "GJ"; "RJ"].
Definition insurance_words : list string :=
  ["insurance"; "assurance"; "life"; "general"; "health"; "medical"].
Definition insurance_names : list string :=
  ["Apollo Munich Health Insurance"; "HDFC Life Insurance"; "Max Life Insurance";
   "SBI Life Insurance"; "ICICI Prudential Life Insurance";
   "Bajaj Allianz Life Insurance"; "LIC of India"; "Star Health Insurance";
   "New India Assurance"].
Definition month_names : list string :=
  ["January"; "February"; "March"; "April"; "May"; "June"; "July"; "August";
   "September"; "October"; "November"; "December"].
Definition ascii_letters : list ascii :=
  list_ascii_of_string "abcdefghijklmnopqrstuvwxyzABCDEFGHIJKLMNOPQRSTUVWXYZ".

(** [d.strftime('%d %B %Y')]. *)
Definition strftime_d_B_Y (d : date) : string :=
  (if (day d <? 10)%nat then "0" +:+ pretty (day d) else pretty (day d))
  +:+ " " +:+ nth (month d - 1) month_names "" +:+ " " +:+ pretty (year d).

(** [_clean_for_email] (lines 25-27): [re.sub(r'[^a-z]', '', name_part.lower())]. *)
Definition _clean_for_email (name_part : string) : string :=
  filter_chars is_ascii_lower (lower name_part).

(** [re.sub(r'[^A-Z0-9_]', '_', label.upper().replace(' ', '_'))] (line 157),
    for a label of ASCII characters: the label is upper-cased and every
    character outside A-Z, 0-9 and [_] becomes one underscore. *)
Definition safe_label (label : string) : string :=
  map_chars
    (fun c => if is_ascii_upper c || is_ascii_digit c || Ascii.eqb c "_"
              then c else "_"%char)
    (replace " " "_" (upper label)).

(** The first-pass test of [replace_pii_json] and the anchor test of
    [generate_fake_value]:
    ['patient name' in label_lower or label_lower == 'name']. *)
Definition is_patient_label (label : string) : bool :=
  contains "patient name" (lower label) || String.eqb (lower label) "name".

(** The cache key of a pair (line 33): [f"{label}:{original_value}"]. *)
Definition cache_key (label original_value : string) : string :=
  label +:+ ":" +:+ original_value.

(** The list of name tokens the email branch works on (line 66). *)
Definition email_name_parts (anchor : string) : list string :=
  split (replace "dr. " "" (lower anchor)).

Section Generator.
Context {World : Type}.
Variable P : Providers World.

(** [Random._randbelow(n)] over a raw draw. *)
Definition randbelow (src : World -> N * World) (n : Z) : Gen World Z :=
  fun w => let (r, w') := src w in ((Z.of_N r mod n)%Z, w').

(** [random.randint(a, b)]. *)
Definition randint (a b : Z) : Gen World Z :=
  k <~ randbelow (random_draw P) (b - a + 1)%Z ;; gret (a + k)%Z.

(** [random.choice(seq)] for a non-empty [seq]. *)
Definition choice {A : Type} (d : A) (seq : list A) : Gen World A :=
  k <~ randbelow (random_draw P) (Z.of_nat (length seq)) ;;
  gret (nth (Z.to_nat k) seq d).

(** [self.faker.random_int(min, max)]. *)
Definition random_int (min max : Z) : Gen World Z :=
  k <~ randbelow (faker_draw P) (max - min + 1)%Z ;; gret (min + k)%Z.

(** [self.faker.random_letter()]. *)
Definition random_letter : Gen World ascii :=
  k <~ randbelow (faker_draw P) (Z.of_nat (length ascii_letters)) ;;
  gret (nth (Z.to_nat k) ascii_letters "a"%char).

(** [self.faker.random_letters(length)]. *)
Fixpoint random_letters (length : nat) : Gen World (list ascii) :=
  match length with
  | O => gret []
  | S n => c <~ random_letter ;; cs <~ random_letters n ;; gret (c :: cs)
  end.

(** [''.join(str(random.randint(0, 9)) for _ in range(n))]. *)
Fixpoint random_digits (n : nat) : Gen World string :=
  match n with
  | O => gret ""
  | S n' => d <~ randint 0 9 ;; ds <~ random_digits n' ;; gret (str_of_Z d +:+ ds)
  end.

(** [_generate_aadhaar] (lines 21-23). *)
Definition _generate_aadhaar : Gen World string := random_digits 12.

(** Lines 42-50: the synthetic name, by the honorifics of the original. *)
Definition name_value (original_value : string) : Gen World string :=
  if any_in male_titles (lower original_value) then faker_name_male P
  else if any_in female_titles (lower original_value) then
    if contains "dr." (lower original_value)
    then n <~ faker_name P ;; gret ("Dr. " +:+ n)
    else faker_name_female P
  else faker_name P.

(** Lines 41-54. *)
Definition name_branch (label_lower original_value : string) : M World string :=
  fake_value <- lift (name_value original_value) ;;
  _ <- (if contains "patient name" label_lower || String.eqb label_lower "name"
        then set_current_patient_name (Some fake_value)
        else mret tt) ;;
  mret fake_value.

(** Lines 58-61. *)
Definition doctor_value : Gen World string :=
  name <~ faker_name P ;;
  specialty <~ choice "" specialties ;;
  gret ("Dr. " +:+ name +:+ ", " +:+ specialty).

(** Lines 65-78. *)
Definition email_branch : M World string :=
  anchor <- get_current_patient_name ;;
  match anchor with
  | Some current =>
      if nonempty current then
        let name_parts := email_name_parts current in
        if (2 <=? length name_parts)%nat then
          let first_name := _clean_for_email (nth 0 name_parts "") in
          let last_name := _clean_for_email (List.last name_parts "") in
          domain <- lift (choice "" domain_options) ;;
          mret (first_name +:+ "." +:+ last_name +:+ "@" +:+ domain)
        else
          match name_parts with
          | [] => raise IndexError
          | part :: _ =>
              let clean_name := _clean_for_email part in
              domain <- lift (choice "" short_domain_options) ;;
              mret (clean_name +:+ "@" +:+ domain)
          end
      else lift (faker_email P)
  | None => lift (faker_email P)
  end.

(** Lines 81-158: the branches that neither read nor write the instance. *)
Definition other_value (label label_lower original_value : string) : Gen World string :=
  if contains "phone number" label_lower || contains "mobile number" label_lower then
    n <~ randint 6000000000 9999999999 ;; gret ("+91-" +:+ str_of_Z n)
  else if contains "address" label_lower || contains "location" label_lower then
    a <~ faker_address P ;; gret (replace (String "010" "") ", " a)
  else if contains "hospital id" label_lower then
    n <~ randint 1000000 9999999 ;; gret ("HOSP-" +:+ str_of_Z n)
  else if contains "patient id" label_lower then
    n <~ randint 100000 999999 ;; gret ("PAT-" +:+ str_of_Z n)
  else if contains "medical record number" label_lower || contains "mrn" label_lower then
    n <~ randint 100000 9999999 ;; gret ("MRN" +:+ str_of_Z n)
  else if contains "insurance id" label_lower || contains "policy number" label_lower then
    n <~ randint 10000000 99999999 ;; gret ("POL-" +:+ str_of_Z n)
  else if contains "member id" label_lower || contains "subscriber id" label_lower then
    n <~ randint 1000000 9999999 ;; gret ("MEM-" +:+ str_of_Z n)
  else if contains "provider id" label_lower then
    n <~ random_int 1000 9999 ;; gret ("PROV-" +:+ str_of_Z n)
  else if contains "npi number" label_lower then
    n <~ random_int 1000000000 9999999999 ;; gret (str_of_Z n)
  else if contains "medical license" label_lower || contains "license number" label_lower then
    state_code <~ choice "" medical_state_codes ;;
    n <~ random_int 10000 99999 ;;
    gret (state_code +:+ "MED" +:+ str_of_Z n)
  else if contains "dea number" label_lower then
    letters <~ random_letters 2 ;;
    n <~ random_int 1000000 9999999 ;;
    gret (upper (string_of_list_ascii letters) +:+ str_of_Z n)
  else if contains "date of birth" label_lower || contains "dob" label_lower
          || contains "birth" label_lower then
    fake_date <~ faker_date_of_birth P 18 75 ;; gret (strftime_d_B_Y fake_date)
  else if contains "credit card" label_lower then
    n <~ random_int 1000 9999 ;; gret ("****-****-****-" +:+ str_of_Z n)
  else if contains "ssn" label_lower || contains "social security" label_lower
          || contains "aadhaar" label_lower then
    _generate_aadhaar
  else if contains "passport" label_lower then
    c <~ random_letter ;;
    n <~ random_int 1000000 9999999 ;;
    gret (String (upper_char c) "" +:+ str_of_Z n)
  else if contains "driver license" label_lower || contains "driving licence" label_lower then
    state <~ choice "" driver_state_codes ;;
    n <~ random_int 10000000000 99999999999 ;;
    gret (state +:+ str_of_Z n)
  else if any_in insurance_words (lower original_value) then
    choice "" insurance_names
  else
    gret ("[FAKE_" +:+ safe_label label +:+ "]").

(** Lines 37-158: the value generated on a cache miss. *)
Definition fresh_value (label original_value : string) : M World string :=
  let label_lower := lower label in
  if contains "patient name" label_lower || contains "name" label_lower then
    name_branch label_lower original_value
  else if contains "doctor" label_lower || contains "primary doctor" label_lower
          || contains "physician" label_lower then
    lift doctor_value
  else if contains "email" label_lower then
    email_branch
  else
    lift (other_value label label_lower original_value).

(** [generate_fake_value] (lines 29-162). *)
Definition generate_fake_value (label original_value : string) : M World string :=
  cached <- cache_lookup (cache_key label original_value) ;;
  match cached with
  | Some fake_value => mret fake_value
  | None =>
      fake_value <- fresh_value label original_value ;;
      _ <- cache_store (cache_key label original_value) fake_value ;;
      mret fake_value
  end.

(** [[self.generate_fake_value(label, v) for v in value]]. *)
Fixpoint generate_each (label : string) (vs : list string) : M World (list string) :=
  match vs with
  | [] => mret []
  | v :: vs' =>
      f <- generate_fake_value label v ;;
      fs <- generate_each label vs' ;;
      mret (f :: fs)
  end.

(** Lines 176-179 and 196-199: the replacement of one entry. *)
Definition replace_entry (label : string) (v : value) : M World value :=
  match v with
  | Seq vs => fs <- generate_each label vs ;; mret (Seq fs)
  | Scalar x => f <- generate_fake_value label x ;; mret (Scalar f)
  end.

(** Lines 173-186: the first pass, which stops at the first patient label. *)
Fixpoint first_pass (items : dict) (fake_json : dict) : M World dict :=
  match items with
  | [] => mret fake_json
  | (label, v) :: rest =>
      if is_patient_label label then
        fv <- replace_entry label v ;;
        let fake_json := dict_set label fv fake_json in
        _ <- match dict_get label fake_json with
             | Some (Scalar x) => set_current_patient_name (Some x)
             | Some (Seq (x :: _)) => set_current_patient_name (Some x)
             | _ => mret tt
             end ;;
        mret fake_json
      else first_pass rest fake_json
  end.

(** Lines 189-199: the second pass. *)
Fixpoint second_pass (items : dict) (fake_json : dict) : M World dict :=
  match items with
  | [] => mret fake_json
  | (label, v) :: rest =>
      if is_patient_label label && dict_mem label fake_json then
        second_pass rest fake_json
      else
        fv <- replace_entry label v ;;
        second_pass rest (dict_set label fv fake_json)
  end.

(** [replace_pii_json] (lines 164-201). *)
Definition replace_pii_json (pii_json : dict) : M World dict :=
  _ <- set_current_patient_name None ;;
  fake_json <- first_pass pii_json [] ;;
  second_pass pii_json fake_json.

End Generator.

(** *** Vocabulary of the properties *)

(** The keys one entry of a mapping looks up, one per original value. *)
Definition entry_keys (label : string) (v : value) : list string :=
  match v with
  | Scalar x => [cache_key label x]
  | Seq xs => map (cache_key label) xs
  end.

(** A label that is dispatched to the email branch of [fresh_value]. *)
Definition is_email_label (label : string) : bool :=
  negb (contains "patient name" (lower label) || contains "name" (lower label))
  && negb (contains "doctor" (lower label) || contains "primary doctor" (lower label)
           || contains "physician" (lower label))
  && contains "email" (lower label).

(** A label that is dispatched to the name branch. *)
Definition is_name_label (label : string) : bool :=
  contains "patient name" (lower label) || contains "name" (lower label).

(** An anchor on which the email branch does not raise: a falsy (empty) one,
    or one that leaves a token. *)
Definition usable (a : string) : Prop :=
  nonempty a = false \/ email_name_parts a <> [].

(** The anchor the first pass takes from a replaced entry (lines 182-185). *)
Definition anchor_of (fv : value) : option string :=
  match fv with
  | Scalar x => Some x
  | Seq (x :: _) => Some x
  | Seq [] => None
  end.

(** Same shape: scalar for scalar, sequence of equal length for sequence. *)
Definition same_shape (v fv : value) : Prop :=
  match v, fv with
  | Scalar _, Scalar _ => True
  | Seq xs, Seq fs => length fs = length xs
  | _, _ => False
  end.

(** The first entry whose label passes [is_patient_label], with the entries
    before and after it. *)
Fixpoint split_first_patient (m : dict) : option (dict * (string * value) * dict) :=
  match m with
  | [] => None
  | (label, v) :: rest =>
      if is_patient_label label then Some ([], (label, v), rest)
      else match split_first_patient rest with
           | Some (pre, e, post) => Some ((label, v) :: pre, e, post)
           | None => None
           end
  end.

(** A call made on the instance by its user. [save_fake_json] and
    [get_comparison_dict] do not touch the instance. *)
Inductive call : Type :=
  | CallGenerate (label original_value : string)
  | CallReplaceJson (pii_json : dict).

Section Contract.
Context {World : Type}.
Variable P : Providers World.

(** The instance after one call, whether the call returned or raised. *)
Definition run_call (c : call) (s : St World) : St World :=
  match c with
  | CallGenerate label original_value =>
      snd (generate_fake_value P label original_value s)
  | CallReplaceJson pii_json => snd (replace_pii_json P pii_json s)
  end.

Definition run_calls (cs : list call) (s : St World) : St World :=
  fold_left (fun s c => run_call c s) cs s.

(** The entries replaced one after the other, in the order given. *)
Fixpoint replace_in_order (items : dict) : M World dict :=
  match items with
  | [] => mret []
  | (label, v) :: rest =>
      fv <- replace_entry P label v ;;
      out <- replace_in_order rest ;;
      mret ((label, fv) :: out)
  end.

(** The batch contract as the specification words it: reset the anchor,
    replace the first patient label and anchor its replacement, then
    replace every remaining label in the order of the mapping. *)
Definition replace_all_spec (m : dict) : M World dict :=
  _ <- set_current_patient_name None ;;
  match split_first_patient m with
  | Some (pre, (label, v), post) =>
      fv <- replace_entry P label v ;;
      _ <- match anchor_of fv with
           | Some a => set_current_patient_name (Some a)
           | None => mret tt
           end ;;
      out <- replace_in_order (pre ++ post) ;;
      mret ((label, fv) :: out)
  | None => replace_in_order m
  end.

(** Contract of the Faker name providers: a name keeps a token once
    lower-cased and cleared of ["dr. "]. *)
Definition names_nonblank : Prop :=
  forall w,
    email_name_parts (fst (faker_name_male P w)) <> [] /\
    email_name_parts (fst (faker_name_female P w)) <> [] /\
    email_name_parts (fst (faker_name P w)) <> [].

End Contract.

(** Every cached value can serve as an anchor. *)
Definition cache_usable {World} (s : St World) : Prop :=
  forall k v, replacement_cache s !! k = Some v -> usable v.

(** *** The other methods of the class *)

(** The value of [get_comparison_dict] for one label:
    [{"original": orig, "fake": f}], [f] being [fake.get(label)]. *)
Definition comparison : Type := list (string * (value * option value)).

(** [comparison[label] = c]. *)
Fixpoint comparison_set (label : string) (c : value * option value) (d : comparison)
  : comparison :=
  match d with
  | [] => [(label, c)]
  | (k, c0) :: d' =>
      if String.eqb label k then (k, c) :: d' else (k, c0) :: comparison_set label c d'
  end.

(** [comparison[label]]. *)
Fixpoint comparison_get (label : string) (d : comparison) : option (value * option value) :=
  match d with
  | [] => None
  | (k, c) :: d' => if String.eqb label k then Some c else comparison_get label d'
  end.

(** [get_comparison_dict] (lines 209-216); [for label in original] with
    [original[label]] is the iteration over the items of [original]. *)
Definition get_comparison_dict (original fake : dict) : comparison :=
  fold_left
    (fun comparison '(label, orig) =>
       comparison_set label (orig, dict_get label fake) comparison)
    original [].

(** A label that reaches the branches of lines 81-158: neither name-like,
    nor a doctor label, nor an email label. *)
Definition is_plain_label (label : string) : bool :=
  negb (contains "patient name" (lower label) || contains "name" (lower label))
  && negb (contains "doctor" (lower label) || contains "primary doctor" (lower label)
           || contains "physician" (lower label))
  && negb (contains "email" (lower label)).

(** A label that none of the label tests of [generate_fake_value] (lines
    41-135) accepts: it is a plain label and its lower-cased text contains
    none of the texts of lines 81-135. Such a label reaches the test on the
    original value (line 141) and, after it, the fallback (lines 156-158);
    "error" is one. *)
Definition is_unrecognized_label (label : string) : bool :=
  is_plain_label label
  && negb (any_in ["phone number"; "mobile number"; "address"; "location";
                   "hospital id"; "patient id"; "medical record number"; "mrn";
                   "insurance id"; "policy number"; "member id"; "subscriber id";
                   "provider id"; "npi number"; "medical license"; "license number";
                   "dea number"; "date of birth"; "dob"; "birth"; "credit card";
                   "ssn"; "social security"; "aadhaar"; "passport";
                   "driver license"; "driving licence"]
             (lower label)).

(** What lines 141-158 make of an original value under such a label: one of
    the insurer names when the lower-cased value contains one of
    [insurance_words], the placeholder otherwise. *)
Definition fallback_value (label original_value fake_value : string) : Prop :=
  if any_in insurance_words (lower original_value)
  then fake_value ∈ insurance_names
  else fake_value = "[FAKE_" +:+ safe_label label +:+ "]".

(** An entry replaced value by value in that way, a scalar by a scalar and a
    sequence element by element. *)
Definition fallback_entry (label : string) (v fv : value) : Prop :=
  match v, fv with
  | Scalar x, Scalar f => fallback_value label x f
  | Seq xs, Seq fs => Forall2 (fallback_value label) xs fs
  | _, _ => False
  end.

(** The replacement an entry has in a cache: the cached value of each of its
    original values, if all are cached. *)
Definition cached_entry (c : gmap string string) (label : string) (v : value)
  : option value :=
  match v with
  | Scalar x => option_map Scalar (c !! cache_key label x)
  | Seq xs =>
      option_map Seq
        (fold_right (fun x acc =>
                       match c !! cache_key label x, acc with
                       | Some f, Some fs => Some (f :: fs)
                       | _, _ => None
                       end) (Some []) xs)
  end.

(** A relation between the instance before and after a method, kept by it
    on every run. *)
Definition keeps {World A : Type} (R : St World -> St World -> Prop)
    (m : M World A) : Prop :=
  forall s, R s (snd (m s)).

(** The cache only grows. *)
Definition cache_le {World : Type} (s s' : St World) : Prop :=
  replacement_cache s ⊆ replacement_cache s'.

(** The anchor is one on which the email branch does not raise. *)
Definition safe {World : Type} (s : St World) : Prop :=
  forall a, current_patient_name s = Some a -> usable a.

(** From an instance satisfying [Inv] the method returns a result satisfying
    [Q] and leaves an instance satisfying [Inv]. *)
Definition returns {World : Type} (Inv : St World -> Prop) {A : Type}
    (Q : A -> Prop) (m : M World A) : Prop :=
  forall s, Inv s -> exists a s', m s = (Ok a, s') /\ Q a /\ Inv s'.

End Replacer.

(** ** The text extractor ([src/extractor.py]) *)

Module Extractor.
Import Py.

(** The outcome of a library call: a value, or an exception with [str(e)]. *)
Inductive lib_result (A : Type) : Type :=
  | Done (a : A)
  | Raised (msg : string).
Arguments Done {A} a.
Arguments Raised {A} msg.

(** [self.supported_formats] (lines 19-25). *)
Definition images : list string := [".png"; ".jpg"; ".jpeg"; ".bmp"; ".tiff"; ".gif"].
Definition pdfs : list string := [".pdf"].
Definition word : list string := [".docx"; ".doc"].
Definition excel : list string := [".xlsx"; ".xls"; ".csv"].
Definition archives : list string := [".zip"].

Definition supported_formats : list (string * list string) :=
  [("images", images); ("pdfs", pdfs); ("word", word); ("excel", excel);
   ("archives", archives)].

(** Lines 264-266: every list of [supported_formats.values()], extended in turn. *)
Definition all_supported : list string := concat (map snd supported_formats).

(** [x in l] for a list of strings. *)
Definition mem (x : string) (l : list string) : bool := existsb (String.eqb x) l.

(** The part of [s] after the last [c], if [c] occurs. *)
Fixpoint after_last (c : ascii) (s : string) : option string :=
  match s with
  | EmptyString => None
  | String d s' =>
      match after_last c s' with
      | Some t => Some t
      | None => if Ascii.eqb d c then Some s' else None
      end
  end.

(** [os.path.basename(p)]. *)
Definition basename (p : string) : string :=
  match after_last "/" p with Some t => t | None => p end.

(** The extension within a file name: from its last dot on, provided a
    character other than a dot stands before that dot. *)
Fixpoint ext_go (seen_name : bool) (s : string) : option string :=
  match s with
  | EmptyString => None
  | String d s' =>
      match ext_go (seen_name || negb (Ascii.eqb d ".")) s' with
      | Some e => Some e
      | None => if Ascii.eqb d "." && seen_name then Some s else None
      end
  end.

(** [os.path.splitext(p)[1]]. *)
Definition splitext_ext (p : string) : string :=
  match ext_go false (basename p) with Some e => e | None => EmptyString end.

(** [os.path.join(a, b)]. *)
Definition path_join (a b : string) : string :=
  if startswith b "/" then b
  else if negb (nonempty a) || endswith a "/" then a +:+ b
  else a +:+ "/" +:+ b.

(** A python-docx document, as far as it is read. *)
Record word_section : Type := {
  header : option (list string);
  footer : option (list string)
}.

Record word_document : Type := {
  paragraphs : list string;
  tables : list (list (list string));
  sections : list word_section
}.

(** A pandas data frame, as far as it is read: [str(col)] of every column,
    and per row the cells, [None] for a missing one ([pd.notna] false) and
    [str(cell)] otherwise. *)
Record dataframe : Type := {
  columns : list string;
  rows : list (list (option string))
}.

(** The file system and the libraries. *)
Record Env (Image : Type) : Type := {
  (** [os.path.exists] *)
  path_exists : string -> bool;
  (** [os.path.relpath] *)
  relpath : string -> string -> string;
  (** [PIL.Image.open] *)
  Image_open : string -> lib_result Image;
  (** [pytesseract.image_to_string(image, lang='eng', config=config)]; the
      calls sit under a bare [except], so [Raised] stands for any fault *)
  image_to_string : Image -> string -> lib_result string;
  (** lines 99-110: [fitz.open] and [page.get_text()] of each page, in page
      order; a fault of either is the [Raised] case *)
  fitz_open : string -> lib_result (list string);
  (** the pages of a PDF as pdf2image rasterises them at 200 dpi *)
  rasterize : string -> lib_result (list Image);
  (** [docx.Document] *)
  Document : string -> lib_result word_document;
  (** [pd.read_csv] *)
  read_csv : string -> lib_result dataframe;
  (** [pd.read_excel(path, sheet_name=None)] *)
  read_excel : string -> lib_result (list (string * dataframe));
  (** [tempfile.TemporaryDirectory], [ZipFile.extractall] into it and
      [os.walk] over it: the directory, and [(root, files)] of each step *)
  unzip_walk : string -> lib_result (string * list (string * list string))
}.
Arguments path_exists {Image} _ _.
Arguments relpath {Image} _ _ _.
Arguments Image_open {Image} _ _.
Arguments image_to_string {Image} _ _ _.
Arguments fitz_open {Image} _ _.
Arguments rasterize {Image} _ _.
Arguments Document {Image} _ _.
Arguments read_csv {Image} _ _.
Arguments read_excel {Image} _ _.
Arguments unzip_walk {Image} _ _.

(** What an extraction did besides returning text: the OCR calls, and the
    archive members handed to [extract_text]. *)
Inductive event (Image : Type) : Type :=
  | EvOCR (image : Image) (config : string)
  | EvMember (file_path : string).
Arguments EvOCR {Image} image config.
Arguments EvMember {Image} file_path.

(** [pdf2image.convert_from_path(path, dpi=200, first_page=f, last_page=l)]:
    the pages [f] to [l], counted from 1. *)
Definition convert_from_path {Image} (E : Env Image) (pdf_path : string)
    (first_page last_page : nat) : lib_result (list Image) :=
  match rasterize E pdf_path with
  | Done pages => Done (firstn (last_page - first_page + 1) (skipn (first_page - 1) pages))
  | Raised msg => Raised msg
  end.

(** ['\n'.join(line.strip() for line in text.split('\n') if line.strip())]. *)
Definition clean_lines (text : string) : string :=
  join (String "010" "")
    (List.filter nonempty (map strip (split_on "010" text))).

Section Strategies.
Context {Image : Type}.
Variable E : Env Image.

(** The OCR loop of lines 74-81 and 128-136: every configuration is tried,
    a fault is skipped, the longest trimmed text is kept. *)
Fixpoint ocr_loop (image : Image) (configs : list string) (best_text : string)
  : string * list (event Image) :=
  match configs with
  | [] => (best_text, [])
  | config :: rest =>
      let best :=
        match image_to_string E image config with
        | Done text =>
            if (String.length (strip best_text) <? String.length (strip text))%nat
            then text else best_text
        | Raised _ => best_text
        end in
      let (final, tr) := ocr_loop image rest best in
      (final, EvOCR image config :: tr)
  end.

(** [_extract_from_image] (lines 61-90). *)
Definition _extract_from_image (image_path : string) : string * list (event Image) :=
  match Image_open E image_path with
  | Raised msg => ("OCR Error: " +:+ msg, [])
  | Done image =>
      let (best_text, tr) :=
        ocr_loop image ["--oem 3 --psm 6"; "--oem 3 --psm 3"; "--oem 3 --psm 1"] "" in
      let cleaned_text := clean_lines best_text in
      (if nonempty cleaned_text then cleaned_text else "No text found in image", tr)
  end.

(** Lines 103-108: the direct pass over the text layers. *)
Fixpoint direct_loop (pages : list string) (full_text : list string) (text_found : bool)
  : list string * bool :=
  match pages with
  | [] => (full_text, text_found)
  | page :: rest =>
      let text := strip page in
      if nonempty text then direct_loop rest (full_text ++ [text]) true
      else direct_loop rest full_text text_found
  end.

(** Lines 123-140: OCR of the rasterised pages. *)
Fixpoint ocr_pages (pages : list Image) (ocr_texts : list string)
  : list string * list (event Image) :=
  match pages with
  | [] => (ocr_texts, [])
  | page :: rest =>
      let (best_page_text, tr) :=
        ocr_loop page ["--oem 3 --psm 6"; "--oem 3 --psm 3"] "" in
      let cleaned_text := clean_lines best_page_text in
      let (texts, tr') :=
        ocr_pages rest (if nonempty cleaned_text then ocr_texts ++ [cleaned_text]
                        else ocr_texts) in
      (texts, tr ++ tr')
  end.

(** [_extract_from_pdf] (lines 92-153). *)
Definition _extract_from_pdf (pdf_path : string) : string * list (event Image) :=
  match fitz_open E pdf_path with
  | Raised msg => ("Error processing PDF: " +:+ msg, [])
  | Done doc =>
      let (full_text, text_found) := direct_loop doc [] false in
      if text_found then (join (String "010" (String "010" "")) full_text, [])
      else
        match convert_from_path E pdf_path 1 5 with
        | Raised msg => ("PDF OCR failed: " +:+ msg, [])
        | Done pages =>
            let (ocr_texts, tr) := ocr_pages pages [] in
            match ocr_texts with
            | [] => ("No text could be extracted from this PDF", tr)
            | _ => (join (String "010" (String "010" "")) ocr_texts, tr)
            end
        end
  end.

(** Lines 169-176: one line per table row that has a non-blank cell. *)
Definition table_rows (table : list (list string)) : list string :=
  flat_map
    (fun row =>
       match List.filter nonempty (map strip row) with
       | [] => []
       | row_data => [join " | " row_data]
       end)
    table.

(** Lines 180-191. *)
Definition section_lines (sec : word_section) : list string :=
  match header sec with
  | Some ps => map (fun t => "[HEADER] " +:+ t)
                 (List.filter (fun t => nonempty (strip t)) ps)
  | None => []
  end ++
  match footer sec with
  | Some ps => map (fun t => "[FOOTER] " +:+ t)
                 (List.filter (fun t => nonempty (strip t)) ps)
  | None => []
  end.

(** [_extract_from_word] (lines 155-201). *)
Definition _extract_from_word (word_path : string) : string * list (event Image) :=
  match Document E word_path with
  | Raised msg => ("Error processing Word document: " +:+ msg, [])
  | Done document =>
      let paragraphs := List.filter (fun t => nonempty (strip t)) (paragraphs document) in
      let table_data := flat_map table_rows (tables document) in
      let header_footer_text := flat_map section_lines (sections document) in
      let full_text :=
        join (String "010" "") (paragraphs ++ table_data ++ header_footer_text) in
      (if nonempty full_text then full_text else "No text found in Word document", [])
  end.

(** Lines 219-237: the lines of one sheet. *)
Definition sheet_lines (sheet_name : string) (df : dataframe) : list string :=
  ["=== SHEET: " +:+ sheet_name +:+ " ===";
   "[HEADERS] "
     +:+ join " | " (List.filter (fun c => negb (String.eqb c "nan")) (columns df))]
  ++ flat_map
       (fun row =>
          match flat_map (fun cell =>
                            match cell with
                            | Some c => if nonempty (strip c) then [c] else []
                            | None => []
                            end) row with
          | [] => []
          | row_values => [join " | " row_values]
          end)
       (rows df)
  ++ [""].

(** [_extract_from_excel] (lines 203-244). *)
Definition _extract_from_excel (excel_path : string) : string * list (event Image) :=
  let excel_data :=
    if endswith (lower excel_path) ".csv" then
      match read_csv E excel_path with
      | Done df => Done [("Sheet1", df)]
      | Raised msg => Raised msg
      end
    else read_excel E excel_path in
  match excel_data with
  | Raised msg => ("Error processing Excel file: " +:+ msg, [])
  | Done sheets =>
      let full_text :=
        join (String "010" "") (flat_map (fun '(name, df) => sheet_lines name df) sheets) in
      (if nonempty full_text then full_text else "No text found in Excel file", [])
  end.

(** Lines 257-269: the files of the archive that are kept. *)
Definition extracted_files (walk : list (string * list string)) : list string :=
  flat_map
    (fun '(root, files) =>
       flat_map
         (fun file =>
            let file_path := path_join root file in
            let file_ext := splitext_ext (lower file) in
            if mem file_ext all_supported && negb (String.eqb file_ext ".zip")
            then [file_path] else [])
         files)
    walk.

(** Lines 277-295: the loop over the members, [self_extract_text] being the
    recursive call. [None] is the recursion running out of fuel. *)
Fixpoint member_loop (self_extract_text : string -> option (string * list (event Image)))
    (temp_dir : string) (members : list string) (all_extracted_text : list string)
  : option (list string * list (event Image)) :=
  match members with
  | [] => Some (all_extracted_text, [])
  | file_path :: rest =>
      let relative_path := relpath E file_path temp_dir in
      let file_ext := splitext_ext (lower file_path) in
      if negb (String.eqb file_ext ".zip") then
        match self_extract_text file_path with
        | None => None
        | Some (text, tr) =>
            let collected :=
              if negb (startswith text "Error:") && nonempty (strip text)
              then all_extracted_text
                     ++ ["=== FILE: " +:+ relative_path +:+ " ==="; text; ""]
              else all_extracted_text in
            match member_loop self_extract_text temp_dir rest collected with
            | None => None
            | Some (texts, tr') => Some (texts, EvMember file_path :: tr ++ tr')
            end
        end
      else member_loop self_extract_text temp_dir rest all_extracted_text
  end.

(** [_extract_from_zip] (lines 246-305). *)
Definition _extract_from_zip
    (self_extract_text : string -> option (string * list (event Image)))
    (zip_path : string) : option (string * list (event Image)) :=
  match unzip_walk E zip_path with
  | Raised msg => Some ("Error processing ZIP file: " +:+ msg, [])
  | Done (temp_dir, walk) =>
      match member_loop self_extract_text temp_dir
              (firstn 10 (extracted_files walk)) [] with
      | None => None
      | Some ([], tr) => Some ("No text could be extracted from files in ZIP archive", tr)
      | Some (all_extracted_text, tr) => Some (join (String "010" "") all_extracted_text, tr)
      end
  end.

(** [extract_text] (lines 29-59). The strategies capture their own faults,
    so the handler of lines 56-59 has nothing left to catch. [fuel] bounds
    the depth of the recursion through archives. *)
Fixpoint extract_text (fuel : nat) (file_path : string)
  : option (string * list (event Image)) :=
  match fuel with
  | O => None
  | S fuel' =>
      if negb (path_exists E file_path)
      then Some ("Error: File '" +:+ file_path +:+ "' not found", [])
      else
        let file_ext := splitext_ext (lower file_path) in
        if mem file_ext images then Some (_extract_from_image file_path)
        else if mem file_ext pdfs then Some (_extract_from_pdf file_path)
        else if mem file_ext word then Some (_extract_from_word file_path)
        else if mem file_ext excel then Some (_extract_from_excel file_path)
        else if mem file_ext archives
        then _extract_from_zip (extract_text fuel') file_path
        else Some ("Error: Unsupported file format '" +:+ file_ext +:+ "'", [])
  end.

End Strategies.

(** The archive members an extraction handed to [extract_text]. *)
Fixpoint members {Image} (tr : list (event Image)) : list string :=
  match tr with
  | [] => []
  | EvMember p :: tr' => p :: members tr'
  | EvOCR _ _ :: tr' => members tr'
  end.

(** The OCR calls of an extraction. *)
Fixpoint ocr_calls {Image} (tr : list (event Image)) : list (Image * string) :=
  match tr with
  | [] => []
  | EvOCR image config :: tr' => (image, config) :: ocr_calls tr'
  | EvMember _ :: tr' => ocr_calls tr'
  end.

(** *** The other methods of the class *)

(** [sorted(l)] for a list of strings: insertion into a sorted list. *)
Fixpoint insert_sorted (x : string) (l : list string) : list string :=
  match l with
  | [] => [x]
  | y :: l' => if String.leb x y then x :: l else y :: insert_sorted x l'
  end.

Definition sorted (l : list string) : list string :=
  fold_right insert_sorted [] l.

(** [get_supported_extensions] (lines 307-312). *)
Definition get_supported_extensions : list string := sorted all_supported.

(** [is_supported] (lines 314-317). *)
Definition is_supported (file_path : string) : bool :=
  mem (splitext_ext (lower file_path)) get_supported_extensions.

(** [extract_text_from_file] (lines 320-326): a new extractor, then
    [extract_text]. *)
Definition extract_text_from_file {Image} (E : Env Image) (fuel : nat) (file_path : string)
  : option (string * list (event Image)) :=
  extract_text E fuel file_path.

End Extractor.

(** ** The detection adapter ([src/pii_detector.py]) *)

Module Detector.
Import Py Mapping Extractor.

(** An entity of the oracle: [entity['label']] and [entity['text']]. *)
Record entity : Type := { label : string; text : string }.

(** [self.pii_labels] and [self.phi_labels] (lines 27-47). *)
Definition pii_labels : list string :=
  ["Patient Name"; "Address"; "email"; "Emergency Name";
   "Primary Doctor"; "Doctor"; "Physician";
   "phone number"; "mobile number"; "date of birth"; "credit card";
   "social security number"; "ssn"; "passport number";
   "driver license"; "ip address"; "password";
   "Hospital ID"; "Medical Record Number"; "Patient ID";
   "Insurance ID"; "Policy Number"; "Member ID"; "Subscriber ID";
   "Provider ID"; "NPI Number"; "Medical License"; "DEA Number";
   "nurse"; "medical facility"; "medical insurance"; "health insurance"].

Definition phi_labels : list string :=
  ["medical condition"; "disease"; "diagnosis"; "symptom"; "disorder";
   "medication"; "drug"; "prescription"; "treatment"; "therapy";
   "procedure"; "surgery"; "operation"; "medical test"; "lab test";
   "blood pressure"; "heart rate"; "temperature"; "weight"; "height";
   "allergy"; "dosage"; "medical history"; "vital signs"; "blood group";
   "Age"; "gender"].

(** The loop of lines 66-77 (and 97-108, 149-163): the first value of a label
    is stored as it is, the second turns the entry into a list, later ones
    are appended. *)
Fixpoint collapse (entities : list entity) (simple : dict) : dict :=
  match entities with
  | [] => simple
  | e :: rest =>
      collapse rest
        (if dict_mem (label e) simple then
           match dict_get (label e) simple with
           | Some (Seq l) => dict_set (label e) (Seq (l ++ [text e])) simple
           | Some (Scalar x) => dict_set (label e) (Seq [x; text e]) simple
           | None => simple
           end
         else dict_set (label e) (Scalar (text e)) simple)
  end.

Section Detection.
Context {Image Threshold : Type}.
(** [self.model]: [None] when the model failed to load, else
    [predict_entities(text, labels, threshold=...)]. *)
Variable model : option (string -> list string -> Threshold -> lib_result (list entity)).
Variable E : Env Image.

(** [extract_pii_from_text] (lines 53-82). *)
Definition extract_pii_from_text (text : string) (confidence_threshold : Threshold) : dict :=
  match model with
  | None =>
      [("Patient Name", Scalar "John Doe");
       ("phone number", Scalar "+91-9876543210");
       ("email", Scalar "john.doe@example.com")]
  | Some predict_entities =>
      match predict_entities text pii_labels confidence_threshold with
      | Done entities => collapse entities []
      | Raised msg => [("error", Scalar ("PII Detection failed: " +:+ msg))]
      end
  end.

(** [extract_phi_from_text] (lines 84-113). *)
Definition extract_phi_from_text (text : string) (confidence_threshold : Threshold) : dict :=
  match model with
  | None =>
      [("medical condition", Scalar "Hypertension");
       ("medication", Scalar "Lisinopril 10mg");
       ("Age", Scalar "45")]
  | Some predict_entities =>
      match predict_entities text phi_labels confidence_threshold with
      | Done entities => collapse entities []
      | Raised msg => [("error", Scalar ("PHI Detection failed: " +:+ msg))]
      end
  end.

(** [extract_pii_from_file] (lines 115-125). *)
Definition extract_pii_from_file (fuel : nat) (file_path : string)
    (confidence_threshold : Threshold) : option dict :=
  match extract_text E fuel file_path with
  | None => None
  | Some (text, _) =>
      if startswith text "Error:" then Some [("error", Scalar text)]
      else Some (extract_pii_from_text text confidence_threshold)
  end.

(** [extract_phi_from_file] (lines 127-169). *)
Definition extract_phi_from_file (fuel : nat) (file_path : string)
    (confidence_threshold : Threshold) : option dict :=
  match extract_text E fuel file_path with
  | None => None
  | Some (text, _) =>
      if startswith text "Error:" then Some [("error", Scalar text)]
      else
        match model with
        | None =>
            Some [("medical condition", Scalar "Hypertension");
                  ("medication", Scalar "Lisinopril 10mg");
                  ("blood pressure", Scalar "140/90 mmHg")]
        | Some predict_entities =>
            match predict_entities text phi_labels confidence_threshold with
            | Done entities => Some (collapse entities [])
            | Raised msg => Some [("error", Scalar ("PHI Detection failed: " +:+ msg))]
            end
        end
  end.

End Detection.

(** *** Vocabulary of the properties *)

(** The values of the entities of one label, in the order of the list. *)
Definition texts_of (L : string) (entities : list entity) : list string :=
  map text (List.filter (fun e => String.eqb (label e) L) entities).

(** The values a mapping holds for a label. *)
Definition contents (L : string) (d : dict) : list string :=
  match dict_get L d with
  | None => []
  | Some (Scalar x) => [x]
  | Some (Seq l) => l
  end.

(** The labels in the order in which each appears first. *)
Fixpoint first_appearances (seen : list string) (labels : list string) : list string :=
  match labels with
  | [] => []
  | L :: rest =>
      if existsb (String.eqb L) seen then first_appearances seen rest
      else L :: first_appearances (L :: seen) rest
  end.

(** A sequence entry holds two values at least. *)
Definition seqs_promoted (d : dict) : Prop :=
  forall L l, dict_get L d = Some (Seq l) -> 2 <= length l.

End Detector.

(** ** The pipeline ([process] of [src/replacer.py], and the per-file step of
    [process_files] in [src/app.py]) *)

Module Pipeline.
Import Py Mapping Replacer Extractor Detector.

(** What [process] returns: [{"error": ...}], or
    [{"success": True, "fake_pii": ..., "input_file": ...}]. *)
Inductive process_result : Type :=
  | ProcessError (error : value)
  | ProcessSuccess (fake_pii : dict) (input_file : string).

(** Truth value of [d.get("error")]: a non-empty string or list. *)
Definition has_error (d : dict) : bool :=
  match dict_get "error" d with
  | Some (Scalar x) => nonempty x
  | Some (Seq (_ :: _)) => true
  | _ => false
  end.

(** [d.get(key, default)]. *)
Definition get_or (key : string) (default : value) (d : dict) : value :=
  match dict_get key d with Some v => v | None => default end.

Section Process.
Context {Image Threshold World : Type}.
Variable model : option (string -> list string -> Threshold -> lib_result (list entity)).
Variable E : Env Image.
Variable P : Providers World.
(** The default of [confidence_threshold], 0.5. *)
Variable default_threshold : Threshold.

(** [process] (replacer.py, lines 218-244): a new detector, a new
  [SimplePIIFaker], one batch. [w] is the state of the random generators
  when the function is entered. *)
Definition process (fuel : nat) (input_file : string) (w : World)
: option (res process_result * St World) :=
match extract_pii_from_file model E fuel input_file default_threshold with
| None => None
| Some detected_pii =>
    if dict_mem "error" detected_pii then
      match dict_get "error" detected_pii with
      | Some error => Some (Ok (ProcessError error), init w)
      | None => None
      end
    else
      Some (match replace_pii_json P detected_pii (init w) with
            | (Ok fake_pii, s) => (Ok (ProcessSuccess fake_pii input_file), s)
            | (Err e, s) => (Err e, s)
            end)
end.

(** What the per-file step of [process_files] hands on. *)
Record file_step : Type := {
fake_pii : dict;
real_phi : dict;
pii_count : nat;
phi_count : nat;
file_data : list (string * value)
}.

(** Lines 386-403 of app.py: the row of one file. The two random defaults
  are computed whether they are used or not. *)
Definition make_file_data (filename : string) (fake_pii real_phi : dict)
: Gen World (list (string * value)) :=
hosp <~ randint P 1000000 9999999 ;;
pol <~ randint P 10000000 99999999 ;;
gret [("filename", Scalar filename);
      ("Hospital_ID", get_or "Hospital ID" (Scalar ("HOSP-" +:+ str_of_Z hosp)) fake_pii);
      ("Patient_Name", get_or "Patient Name" (Scalar "John Doe") fake_pii);
      ("Policy_Number", get_or "Policy Number" (Scalar ("POL-" +:+ str_of_Z pol)) fake_pii);
      ("date_of_birth", get_or "date of birth" (Scalar "15 March 1990") fake_pii);
      ("email", get_or "email" (Scalar "patient@example.com") fake_pii);
      ("health_insurance",
       get_or "health insurance" (Scalar "Health Insurance Corp") fake_pii);
      ("phone_number", get_or "phone number" (Scalar "+91-9876543210") fake_pii);
      ("Age", get_or "Age" (Scalar "35") real_phi);
      ("allergy", get_or "allergy" (Scalar "No known allergies") real_phi);
      ("blood_group", get_or "blood group" (Scalar "O+") real_phi);
      ("drug", get_or "medication" (Scalar "No medications") real_phi);
      ("gender", get_or "gender" (Scalar "Male") real_phi);
      ("medical_condition", get_or "medical condition" (Scalar "No conditions") real_phi);
      ("surgery", get_or "surgery" (Scalar "No surgeries") real_phi);
      ("symptom", get_or "symptom" (Scalar "No symptoms") real_phi)].

(** Lines 341-356 and 380-403 of app.py, with [PII_DETECTION_AVAILABLE]:
  detection of both kinds on the saved file, replacement of the PII on the
  shared instance [faker], the counts and the row. An exception leaves the
  step for the handler of line 429. *)
Definition file_step_of (fuel : nat) (filename temp_path : string)
: St World -> option (res file_step * St World) :=
fun s =>
match extract_pii_from_file model E fuel temp_path default_threshold,
      extract_phi_from_file model E fuel temp_path default_threshold with
| Some pii_results, Some phi_results =>
    let replaced :=
      if negb (has_error pii_results) then replace_pii_json P pii_results s
      else (Ok [], s) in
    match replaced with
    | (Err e, s1) => Some (Err e, s1)
    | (Ok fake, s1) =>
        let phi := if negb (has_error phi_results) then phi_results else [] in
        let (row, w') := make_file_data filename fake phi (world s1) in
        Some (Ok {| fake_pii := fake; real_phi := phi;
                    pii_count := length fake; phi_count := length phi;
                    file_data := row |},
              {| replacement_cache := replacement_cache s1;
                 current_patient_name := current_patient_name s1;
                 world := w' |})
    end
| _, _ => None
end.

End Process.

End Pipeline.

(** ** Concrete libraries, for running the code *)

Module Demo.
Import Py Mapping Replacer Extractor Detector.

(** A deterministic stand-in for Faker and [random]: the world is a counter,
    every draw advances it. *)
Definition providers : Providers nat := {|
  random_draw := fun w => (N.of_nat w, S w);
  faker_draw := fun w => (N.of_nat (7 * w), S w);
  faker_name_male := fun w => (nth (w mod 2) ["Ravi Kumar"; "Arjun Mehta"] "", S w);
  faker_name_female := fun w => (nth (w mod 2) ["Sita Devi"; "Asha Patel"] "", S w);
  faker_name := fun w => (nth (w mod 2) ["Kiran Rao"; "Anita Shah"] "", S w);
  faker_email := fun w => ("user" +:+ pretty w +:+ "@example.net", S w);
  faker_address :=
    fun w => ("12 MG Road" +:+ String "010" "" +:+ "Pune 411001", S w);
  faker_date_of_birth :=
    fun _ _ w => ({| year := 1980 + w; month := 1 + w mod 12; day := 1 + w mod 28 |}, S w)
|}.

(** A file system with a text PDF, a scanned PDF of seven pages, an image
    that cannot be opened, and an archive of fourteen files. Images are
    numbered. *)
Definition env : Env nat := {|
  path_exists := fun p => negb (String.eqb p "missing.pdf");
  relpath := fun p _ => basename p;
  Image_open :=
    fun p => if String.eqb p "broken.png"
             then Raised "cannot identify image file" else Done 0;
  image_to_string :=
    fun image config =>
      if String.eqb config "--oem 3 --psm 3" then Raised "tesseract timeout"
      else Done ("  scanned page " +:+ pretty image +:+ String "010" "" +:+ "   ");
  fitz_open :=
    fun p => if String.eqb (basename p) "report.pdf"
             then Done ["Discharge summary  "; "   "; "Follow-up in two weeks"]
             else if String.eqb (basename p) "scan.pdf"
             then Done [""; " "; ""; ""; ""; ""; ""]
             else Raised "cannot open broken document";
  rasterize := fun _ => Done [1; 2; 3; 4; 5; 6; 7];
  Document := fun _ => Raised "Package not found";
  read_csv := fun _ => Raised "No columns to parse from file";
  read_excel := fun _ => Raised "Excel file format cannot be determined";
  unzip_walk :=
    fun _ => Done ("/tmp/tmpa1", [("/tmp/tmpa1",
                     ["f01.pdf"; "inner.zip"; "f02.pdf"; "notes.txt"; "f03.pdf";
                      "f04.pdf"; "f05.pdf"; "f06.pdf"; "f07.pdf"; "f08.pdf";
                      "f09.pdf"; "f10.pdf"; "f11.pdf"; "f12.pdf"])])
|}.

(** A detection oracle that finds three entities in every text. *)
Definition model : option (string -> list string -> unit -> lib_result (list entity)) :=
  Some (fun _ _ _ =>
          Done [{| label := "Patient Name"; text := "Mr. Ravi Kumar" |};
                {| label := "email"; text := "ravi@mail.in" |};
                {| label := "Patient Name"; text := "Ravi" |}]).

End Demo.

(** * Properties *)

Import Py Mapping Replacer.

(** ** The string operations on examples *)

Example lower_upper_run :
  lower "Mrs. Sita-DEVI 42" = "mrs. sita-devi 42" /\ upper "blood group" = "BLOOD GROUP".
Proof. split; reflexivity. Qed.

Example contains_run :
  contains "mr" "mrs. sita" = true /\ contains "dr." "doctor" = false
  /\ contains EmptyString "x" = true.
Proof. repeat split; reflexivity. Qed.

Example replace_run :
  replace "dr. " EmptyString "dr. dr. adr. x" = "ax" /\ replace " " "_" "A B  C" = "A_B__C".
Proof. split; reflexivity. Qed.

Example split_strip_run :
  split "  ravi   kumar " = ["ravi"; "kumar"] /\ split "   " = []
  /\ strip "  a b " = "a b"
  /\ split_on "," "a,,b," = ["a"; EmptyString; "b"; EmptyString].
Proof. repeat split; reflexivity. Qed.

Example email_name_parts_run :
  email_name_parts "Dr. Kiran Rao" = ["kiran"; "rao"] /\ email_name_parts "Dr. " = []
  /\ _clean_for_email "O'Neil-3" = "oneil" /\ safe_label "Some Label-x" = "SOME_LABEL_X".
Proof. repeat split; reflexivity. Qed.

(** ** The replacement generator *)

Section ReplacerFacts.
Context {World : Type}.
Variable P : Providers World.
Implicit Types s : St World.

Lemma lift_spec {A} (g : Gen World A) s :
  lift g s = (Ok (fst (g (world s))),
              {| replacement_cache := replacement_cache s;
                 current_patient_name := current_patient_name s;
                 world := snd (g (world s)) |}).
Proof. unfold lift. destruct (g (world s)); reflexivity. Qed.

Lemma name_branch_spec label_lower V s :
  name_branch P label_lower V s =
    (Ok (fst (name_value P V (world s))),
     {| replacement_cache := replacement_cache s;
        current_patient_name :=
          if contains "patient name" label_lower || String.eqb label_lower "name"
          then Some (fst (name_value P V (world s)))
          else current_patient_name s;
        world := snd (name_value P V (world s)) |}).
Proof.
  unfold name_branch, mbind. rewrite lift_spec.
  destruct (contains "patient name" label_lower || String.eqb label_lower "name");
    reflexivity.
Qed.

(** The email branch never touches the cache or the anchor. *)
Lemma email_branch_frame s :
  replacement_cache (snd (email_branch P s)) = replacement_cache s /\
  current_patient_name (snd (email_branch P s)) = current_patient_name s.
Proof.
  unfold email_branch, mbind, get_current_patient_name, raise, mret.
  destruct (current_patient_name s) as [a|] eqn:Ha; [|rewrite lift_spec; auto].
  destruct (nonempty a); [|rewrite lift_spec; auto].
  destruct (2 <=? length (email_name_parts a))%nat.
  - rewrite lift_spec; auto.
  - destruct (email_name_parts a); [auto|]. rewrite lift_spec; auto.
Qed.

Lemma fresh_value_cache L V s :
  replacement_cache (snd (fresh_value P L V s)) = replacement_cache s.
Proof.
  unfold fresh_value.
  destruct (_ || _).
  { rewrite name_branch_spec. reflexivity. }
  destruct (_ || _).
  { rewrite lift_spec. reflexivity. }
  destruct (contains "email" _).
  { apply email_branch_frame. }
  rewrite lift_spec. reflexivity.
Qed.

Lemma fresh_value_anchor L V s :
  is_patient_label L = false ->
  current_patient_name (snd (fresh_value P L V s)) = current_patient_name s.
Proof.
  intros HL. unfold fresh_value.
  destruct (_ || _).
  { rewrite name_branch_spec. unfold is_patient_label in HL. rewrite HL. reflexivity. }
  destruct (_ || _).
  { rewrite lift_spec. reflexivity. }
  destruct (contains "email" _).
  { apply email_branch_frame. }
  rewrite lift_spec. reflexivity.
Qed.

Lemma generate_hit L V s v :
  replacement_cache s !! cache_key L V = Some v ->
  generate_fake_value P L V s = (Ok v, s).
Proof.
  intros H. unfold generate_fake_value, mbind, cache_lookup. rewrite H. reflexivity.
Qed.

Lemma generate_miss L V s :
  replacement_cache s !! cache_key L V = None ->
  generate_fake_value P L V s =
    match fresh_value P L V s with
    | (Ok f, s1) =>
        (Ok f, {| replacement_cache := <[cache_key L V := f]> (replacement_cache s1);
                  current_patient_name := current_patient_name s1;
                  world := world s1 |})
    | (Err e, s1) => (Err e, s1)
    end.
Proof.
  intros H. unfold generate_fake_value, mbind, cache_lookup. rewrite H.
  destruct (fresh_value P L V s) as [[f|e] s1]; reflexivity.
Qed.

(** A call only ever adds its own key to the cache. *)
Lemma generate_cache L V s :
  replacement_cache (snd (generate_fake_value P L V s)) = replacement_cache s \/
  (replacement_cache s !! cache_key L V = None /\
   exists f, fst (generate_fake_value P L V s) = Ok f /\
     replacement_cache (snd (generate_fake_value P L V s))
     = <[cache_key L V := f]> (replacement_cache s)).
Proof.
  destruct (replacement_cache s !! cache_key L V) as [v|] eqn:Hc.
  - left. rewrite (generate_hit _ _ _ _ Hc). reflexivity.
  - rewrite (generate_miss _ _ _ Hc).
    pose proof (fresh_value_cache L V s) as Hf.
    destruct (fresh_value P L V s) as [[f|e] s1]; simpl in *.
    + right. split; [reflexivity|]. exists f. rewrite Hf. auto.
    + left. exact Hf.
Qed.

Lemma generate_cache_mono L V s :
  replacement_cache s ⊆ replacement_cache (snd (generate_fake_value P L V s)).
Proof.
  destruct (generate_cache L V s) as [->|(Hn & f & _ & ->)]; [reflexivity|].
  by apply insert_subseteq.
Qed.

(** What a returning call leaves under its key. *)
Lemma generate_cached L V s v s' :
  generate_fake_value P L V s = (Ok v, s') ->
  replacement_cache s' !! cache_key L V = Some v.
Proof.
  intros H.
  destruct (replacement_cache s !! cache_key L V) as [v0|] eqn:Hc.
  - rewrite (generate_hit _ _ _ _ Hc) in H. by simplify_eq.
  - rewrite (generate_miss _ _ _ Hc) in H.
    destruct (fresh_value P L V s) as [[f|e] s1]; simplify_eq. simpl.
    apply lookup_insert_eq.
Qed.

(** *** Frame reasoning: relations between the instance before and after *)

Section Frame.
Variable R : St World -> St World -> Prop.
Hypothesis R_refl : forall s, R s s.
Hypothesis R_trans : forall s1 s2 s3, R s1 s2 -> R s2 s3 -> R s1 s3.

Lemma keeps_ret {A} (a : A) : keeps R (mret a).
Proof. intros s. apply R_refl. Qed.

Lemma keeps_bind {A B} (m : M World A) (k : A -> M World B) :
  keeps R m -> (forall a, keeps R (k a)) -> keeps R (mbind m k).
Proof.
  intros Hm Hk s. unfold mbind. specialize (Hm s).
  destruct (m s) as [[a|e] s1]; simpl in *; [|assumption].
  eapply R_trans; [eassumption|apply Hk].
Qed.

Lemma keeps_generate_each L vs :
  (forall V, cache_key L V ∈ map (cache_key L) vs ->
             keeps R (generate_fake_value P L V)) ->
  keeps R (generate_each P L vs).
Proof.
  induction vs as [|v vs IH]; intros Hg; simpl.
  - apply keeps_ret.
  - apply keeps_bind; [apply Hg, list_elem_of_here|]. intros f.
    apply keeps_bind; [|intros fs; apply keeps_ret].
    apply IH. intros V HV. by apply Hg, list_elem_of_further.
Qed.

Lemma keeps_replace_entry L v :
  (forall V, cache_key L V ∈ entry_keys L v ->
             keeps R (generate_fake_value P L V)) ->
  keeps R (replace_entry P L v).
Proof.
  intros Hg. destruct v as [x|xs]; simpl.
  - apply keeps_bind; [apply Hg, list_elem_of_here|]. intros f. apply keeps_ret.
  - apply keeps_bind; [apply keeps_generate_each, Hg|]. intros f. apply keeps_ret.
Qed.

Lemma keeps_second_pass items :
  (forall L v, (L, v) ∈ items -> keeps R (replace_entry P L v)) ->
  forall fake_json, keeps R (second_pass P items fake_json).
Proof.
  induction items as [|[L v] items IH]; intros He fake_json; simpl.
  - apply keeps_ret.
  - destruct (_ && _).
    + apply IH. intros L' v' Hin. apply He. by apply list_elem_of_further.
    + apply keeps_bind; [apply He; apply list_elem_of_here|]. intros fv.
      apply IH. intros L' v' Hin. apply He. by apply list_elem_of_further.
Qed.

Lemma keeps_first_pass items :
  (forall L v, (L, v) ∈ items -> keeps R (replace_entry P L v)) ->
  (forall a, keeps R (set_current_patient_name a)) ->
  forall fake_json, keeps R (first_pass P items fake_json).
Proof.
  intros He Hs. induction items as [|[L v] items IH]; intros fake_json; simpl.
  - apply keeps_ret.
  - destruct (is_patient_label L).
    + apply keeps_bind; [apply He; apply list_elem_of_here|]. intros fv.
      apply keeps_bind; [|intros; apply keeps_ret].
      destruct (dict_get L _) as [[x|[|x xs]]|]; try apply Hs; apply keeps_ret.
    + apply IH. intros L' v' Hin. apply He. by apply list_elem_of_further.
Qed.

Lemma keeps_replace_pii_json m :
  (forall L v, (L, v) ∈ m -> keeps R (replace_entry P L v)) ->
  (forall a, keeps R (set_current_patient_name a)) ->
  keeps R (replace_pii_json P m).
Proof.
  intros He Hs. unfold replace_pii_json.
  apply keeps_bind; [apply Hs|]. intros _.
  apply keeps_bind; [by apply keeps_first_pass|]. intros fj.
  by apply keeps_second_pass.
Qed.
End Frame.

Lemma cache_le_refl s : cache_le s s.
Proof. unfold cache_le. reflexivity. Qed.

Lemma cache_le_trans s1 s2 s3 : cache_le s1 s2 -> cache_le s2 s3 -> cache_le s1 s3.
Proof. unfold cache_le. intros. by etrans. Qed.

Lemma replace_pii_json_cache_le m : keeps cache_le (replace_pii_json P m).
Proof.
  apply (keeps_replace_pii_json cache_le cache_le_refl cache_le_trans).
  - intros L v _.
    apply (keeps_replace_entry cache_le cache_le_refl cache_le_trans).
    intros V _ s. apply generate_cache_mono.
  - intros a s. unfold cache_le. reflexivity.
Qed.

Lemma run_call_cache_le c s : cache_le s (run_call P c s).
Proof.
  destruct c as [L V|m]; simpl.
  - apply generate_cache_mono.
  - apply replace_pii_json_cache_le.
Qed.

Lemma run_calls_cache_le cs s : cache_le s (run_calls P cs s).
Proof.
  revert s. induction cs as [|c cs IH]; intros s; simpl.
  - apply cache_le_refl.
  - eapply cache_le_trans; [apply run_call_cache_le|apply IH].
Qed.

(** A value stored under a key is what every later call with that key
    returns, whatever was called in between. *)
Lemma generate_after_calls L1 V1 L2 V2 s v s1 cs :
  cache_key L1 V1 = cache_key L2 V2 ->
  generate_fake_value P L1 V1 s = (Ok v, s1) ->
  generate_fake_value P L2 V2 (run_calls P cs s1) = (Ok v, run_calls P cs s1).
Proof.
  intros Hk H1. apply generate_hit. rewrite <- Hk.
  eapply lookup_weaken; [|apply run_calls_cache_le].
  by eapply generate_cached.
Qed.
End ReplacerFacts.

(** ** Properties of the replacement cache *)

Lemma prefix_lower p s : String.prefix p s = true -> String.prefix (lower p) (lower s) = true.
Proof.
  revert s. induction p as [|c p IH]; intros [|d s]; simpl; try done.
  destruct (ascii_dec c d) as [->|]; [|done].
  intros H. destruct (ascii_dec (lower_char d) (lower_char d)); [|done]. by apply IH.
Qed.

Lemma contains_lower p s : contains p s = true -> contains (lower p) (lower s) = true.
Proof.
  induction s as [|d s IH].
  - change (String.prefix p "" || false = true ->
            String.prefix (lower p) (lower "") || false = true).
    rewrite !orb_false_r. apply prefix_lower.
  - change (String.prefix p (String d s) || contains p s = true ->
            String.prefix (lower p) (lower (String d s)) || contains (lower p) (lower s) = true).
    intros [H|H]%orb_true_iff; apply orb_true_iff.
    + left. by apply prefix_lower.
    + right. by apply IH.
Qed.

(** C1. Two calls of [generate_fake_value] with the same label and original
    value on one instance return the same synthetic value, whatever the
    instance was asked in between; a different original value under the same
    label, or a fresh instance, may give a different value. *)
Theorem C1_same_pair_same_value :
  (forall (World : Type) (P : Providers World) (s s1 : St World)
          (L V v : string) (cs : list call),
      generate_fake_value P L V s = (Ok v, s1) ->
      generate_fake_value P L V (run_calls P cs s1) = (Ok v, run_calls P cs s1))
  /\ (exists (World : Type) (P : Providers World) (s : St World) (L V V' : string),
        fst (generate_fake_value P L V' (snd (generate_fake_value P L V s)))
        <> fst (generate_fake_value P L V s))
  /\ (exists (World : Type) (P : Providers World) (s : St World) (L V : string),
        fst (generate_fake_value P L V
               (init (world (snd (generate_fake_value P L V s)))))
        <> fst (generate_fake_value P L V s)).
Proof.
  split; [|split].
  - intros World P s s1 L V v cs H. by eapply generate_after_calls.
  - exists nat, Demo.providers, (init 0), "Patient Name", "Mr. Ravi Kumar", "Mr. Amit Shah".
    vm_compute. congruence.
  - exists nat, Demo.providers, (init 0), "Patient Name", "Mr. Ravi Kumar".
    vm_compute. congruence.
Qed.

Lemma C1_same_pair_same_value_witness :
  let s1 := snd (generate_fake_value Demo.providers "Patient Name" "Mr. Ravi Kumar" (init 0)) in
  let cs := [CallGenerate "Patient Name" "Mr. Amit Shah";
             CallReplaceJson [("email", Scalar "ravi@mail.in");
                              ("Patient Name", Seq ["Mr. Ravi Kumar"; "Ms. Asha"])]] in
  generate_fake_value Demo.providers "Patient Name" "Mr. Ravi Kumar"
    (run_calls Demo.providers cs s1)
  = (Ok "Ravi Kumar", run_calls Demo.providers cs s1).
Proof.
  intros s1 cs.
  apply (proj1 C1_same_pair_same_value nat Demo.providers (init 0)).
  vm_compute. reflexivity.
Defined.

(** C9. The cache key is the concatenation [label ++ ":" ++ value], so two
    distinct pairs with the same concatenation share the entry: the pair
    replaced second receives the value generated for the first. *)
Theorem C9_colliding_pairs_share_entry :
  forall (World : Type) (P : Providers World) (s s1 : St World)
         (L1 V1 L2 V2 v : string) (cs : list call),
    (L1, V1) <> (L2, V2) ->
    L1 +:+ ":" +:+ V1 = L2 +:+ ":" +:+ V2 ->
    generate_fake_value P L1 V1 s = (Ok v, s1) ->
    generate_fake_value P L2 V2 (run_calls P cs s1) = (Ok v, run_calls P cs s1).
Proof.
  intros World P s s1 L1 V1 L2 V2 v cs _ Hk H. by eapply generate_after_calls.
Qed.

Lemma C9_colliding_pairs_share_entry_witness :
  let s1 := snd (generate_fake_value Demo.providers "a:b" "c" (init 0)) in
  generate_fake_value Demo.providers "a" "b:c" (run_calls Demo.providers [] s1)
  = (Ok "[FAKE_A_B]", run_calls Demo.providers [] s1)
  /\ fst (generate_fake_value Demo.providers "a" "b:c" (init 0)) = Ok "[FAKE_A]".
Proof.
  intros s1. split.
  - apply (C9_colliding_pairs_share_entry nat Demo.providers (init 0) s1 "a:b" "c").
    + discriminate.
    + reflexivity.
    + vm_compute. reflexivity.
  - vm_compute. reflexivity.
Defined.

(** ** The name branch *)

Lemma fresh_value_name {World} (P : Providers World) L V (s : St World) :
  is_name_label L = true ->
  fst (fresh_value P L V s) = Ok (fst (name_value P V (world s))).
Proof.
  intros HL. unfold fresh_value. unfold is_name_label in HL. rewrite HL.
  rewrite name_branch_spec. reflexivity.
Qed.

Lemma generate_miss_value {World} (P : Providers World) L V (s : St World) :
  replacement_cache s !! cache_key L V = None ->
  fst (generate_fake_value P L V s) = fst (fresh_value P L V s).
Proof.
  intros H. rewrite (generate_miss P L V s H).
  destruct (fresh_value P L V s) as [[f|e] s1]; reflexivity.
Qed.

(** C3 (amended). On a cache miss, a name-like label takes its synthetic name
    from the first rule that the lower-cased original value matches: one of
    the male tokens gives a male name; otherwise "dr." gives "Dr. " followed
    by a name; otherwise "ms.", "miss" or "smt" gives a female name; otherwise
    a name of either kind. Values containing "mrs." are left aside. In
    particular a value containing "Mr." takes the male branch, in every cache
    lifetime. *)
Theorem C3_name_by_honorific :
  forall (World : Type) (P : Providers World) (s : St World) (L V : string),
    is_name_label L = true ->
    replacement_cache s !! cache_key L V = None ->
    contains "mrs." (lower V) = false ->
    fst (generate_fake_value P L V s)
    = Ok (if any_in ["mr."; "mr"; "shri"; "sri"] (lower V)
          then fst (faker_name_male P (world s))
          else if contains "dr." (lower V)
          then "Dr. " +:+ fst (faker_name P (world s))
          else if any_in ["ms."; "miss"; "smt"] (lower V)
          then fst (faker_name_female P (world s))
          else fst (faker_name P (world s)))
    /\ (contains "Mr." V = true ->
        fst (generate_fake_value P L V s) = Ok (fst (faker_name_male P (world s)))).
Proof.
  intros World P s L V HL Hmiss Hmrs.
  rewrite (generate_miss_value P L V s Hmiss), (fresh_value_name P L V s HL).
  assert (Hnv : fst (name_value P V (world s))
    = (if any_in ["mr."; "mr"; "shri"; "sri"] (lower V)
       then fst (faker_name_male P (world s))
       else if contains "dr." (lower V)
       then "Dr. " +:+ fst (faker_name P (world s))
       else if any_in ["ms."; "miss"; "smt"] (lower V)
       then fst (faker_name_female P (world s))
       else fst (faker_name P (world s)))).
  { unfold name_value, male_titles, female_titles.
    destruct (any_in ["mr."; "mr"; "shri"; "sri"] (lower V)); [reflexivity|].
    unfold any_in, existsb. rewrite Hmrs. simpl.
    destruct (contains "dr." (lower V)) eqn:Hdr.
    - rewrite !orb_true_r. unfold gbind, gret.
      destruct (faker_name P (world s)); reflexivity.
    - rewrite !orb_false_r.
      destruct (contains "ms." (lower V) || (contains "miss" (lower V) || contains "smt" (lower V)));
        reflexivity. }
  rewrite Hnv. split; [reflexivity|].
  intros HMr. apply contains_lower in HMr.
  change (lower "Mr.") with "mr." in HMr.
  unfold any_in, existsb. rewrite HMr. reflexivity.
Qed.

Lemma C3_name_by_honorific_witness :
  fst (generate_fake_value Demo.providers "Patient Name" "Mr. Ravi Kumar" (init 1))
  = Ok "Arjun Mehta".
Proof.
  apply (proj2 (C3_name_by_honorific nat Demo.providers (init 1)
                  "Patient Name" "Mr. Ravi Kumar" eq_refl eq_refl eq_refl)).
  reflexivity.
Defined.

(** C3 as stated fails where a value carries "Dr." next to a male token: the
    male branch wins and the result has no "Dr. " in front. *)
Lemma C3_counterexample :
  is_name_label "Patient Name" = true /\
  contains "Dr." "Dr. Shri Ram Sharma" = true /\
  fst (generate_fake_value Demo.providers "Patient Name" "Dr. Shri Ram Sharma" (init 0))
  = Ok (fst (faker_name_male Demo.providers 0)) /\
  startswith (fst (faker_name_male Demo.providers 0)) "Dr. " = false.
Proof. vm_compute. auto. Qed.

(** ** Dictionaries in insertion order *)

Lemma dict_mem_spec label (d : dict) : dict_mem label d = true <-> label ∈ keys d.
Proof.
  unfold dict_mem. rewrite existsb_exists. split.
  - intros (k & Hk & ->%String.eqb_eq). by apply list_elem_of_In.
  - intros H. exists label. split; [by apply list_elem_of_In|apply String.eqb_refl].
Qed.

Lemma dict_mem_false label (d : dict) : dict_mem label d = false <-> label ∉ keys d.
Proof.
  rewrite <- dict_mem_spec. destruct (dict_mem label d); naive_solver.
Qed.

Lemma dict_set_fresh label v (d : dict) :
  label ∉ keys d -> dict_set label v d = d ++ [(label, v)].
Proof.
  induction d as [|[k v0] d IH]; simpl; intros H; [done|].
  apply not_elem_of_cons in H as [Hne Hd].
  destruct (String.eqb_spec label k); [done|]. by rewrite IH.
Qed.

Lemma keys_dict_set label v (d : dict) :
  keys (dict_set label v d) = if dict_mem label d then keys d else keys d ++ [label].
Proof.
  induction d as [|[k v0] d IH]; simpl; [done|].
  unfold dict_mem in *. simpl.
  destruct (String.eqb_spec label k); simpl; [done|].
  rewrite IH. by destruct (existsb _ _).
Qed.

Lemma dict_mem_set label v (d : dict) l :
  dict_mem l (dict_set label v d) = dict_mem l d || String.eqb l label.
Proof.
  apply eq_true_iff_eq. rewrite orb_true_iff, !dict_mem_spec, keys_dict_set, String.eqb_eq.
  destruct (dict_mem label d) eqn:Hm.
  - apply dict_mem_spec in Hm. split; [auto|]. by intros [?| ->].
  - rewrite elem_of_app, list_elem_of_singleton. tauto.
Qed.

Lemma dict_get_set_eq label v (d : dict) : dict_get label (dict_set label v d) = Some v.
Proof.
  induction d as [|[k v0] d IH]; simpl.
  - by rewrite String.eqb_refl.
  - destruct (String.eqb_spec label k) as [->|Hne]; simpl.
    + by rewrite String.eqb_refl.
    + by destruct (String.eqb_spec label k).
Qed.

Lemma dict_get_set_ne label v (d : dict) l :
  l <> label -> dict_get l (dict_set label v d) = dict_get l d.
Proof.
  intros Hne. induction d as [|[k v0] d IH]; simpl.
  - by destruct (String.eqb_spec l label).
  - destruct (String.eqb_spec label k) as [->|Hk]; simpl.
    + by destruct (String.eqb_spec l k).
    + by rewrite IH.
Qed.

Lemma NoDup_keys_dict_set label v (d : dict) :
  NoDup (keys d) -> NoDup (keys (dict_set label v d)).
Proof.
  intros H. rewrite keys_dict_set. destruct (dict_mem label d) eqn:Hm; [done|].
  apply dict_mem_false in Hm. apply NoDup_app. split; [done|]. split.
  - intros x Hx ->%list_elem_of_singleton. done.
  - apply NoDup_singleton.
Qed.

Lemma dict_get_In label (d : dict) v : dict_get label d = Some v -> (label, v) ∈ d.
Proof.
  induction d as [|[k v0] d IH]; simpl; [done|].
  destruct (String.eqb_spec label k) as [->|].
  - intros [= ->]. apply list_elem_of_here.
  - intros H. by apply list_elem_of_further, IH.
Qed.

Lemma dict_get_NoDup label (d : dict) v :
  NoDup (keys d) -> (label, v) ∈ d -> dict_get label d = Some v.
Proof.
  induction d as [|[k v0] d IH]; simpl; intros Hnd Hin.
  - by apply elem_of_nil in Hin.
  - apply NoDup_cons in Hnd as [Hk Hnd].
    apply elem_of_cons in Hin as [[= -> ->]|Hin].
    + by rewrite String.eqb_refl.
    + destruct (String.eqb_spec label k) as [->|]; [|by apply IH].
      destruct Hk. apply (list_elem_of_fmap_2 fst) in Hin. done.
Qed.

Section Batch.
Context {World : Type}.
Variable P : Providers World.
Implicit Types s : St World.

(** *** The key set of the result *)

Lemma second_pass_keys items : forall acc s out s',
  second_pass P items acc s = (Ok out, s') ->
  (forall k, k ∈ keys out <-> k ∈ keys acc \/ k ∈ keys items) /\
  (NoDup (keys acc) -> NoDup (keys out)).
Proof.
  induction items as [|[L v] items IH]; simpl; intros acc s out s' H.
  - unfold mret in H. simplify_eq. split; [|done].
    intros k. rewrite elem_of_nil. tauto.
  - destruct (is_patient_label L && dict_mem L acc) eqn:Hskip.
    + apply IH in H as [Hk Hnd]. split; [|done].
      intros k. rewrite Hk, elem_of_cons.
      apply andb_true_iff in Hskip as [_ Hm%dict_mem_spec].
      split; [tauto|]. intros [?|[->|?]]; auto.
    + unfold mbind in H. destruct (replace_entry P L v s) as [[fv|e] s1]; [|done].
      apply IH in H as [Hk Hnd]. split.
      * intros k. rewrite Hk, elem_of_cons, <- !dict_mem_spec, dict_mem_set.
        rewrite orb_true_iff, String.eqb_eq. tauto.
      * intros Ha. by apply Hnd, NoDup_keys_dict_set.
Qed.

Lemma first_pass_keys items : forall s fj s',
  first_pass P items [] s = (Ok fj, s') ->
  (forall k, k ∈ keys fj -> k ∈ keys items) /\ NoDup (keys fj).
Proof.
  induction items as [|[L v] items IH]; simpl; intros s fj s' H.
  - unfold mret in H. simplify_eq. split; [done|apply NoDup_nil_2].
  - destruct (is_patient_label L).
    + unfold mbind in H. destruct (replace_entry P L v s) as [[fv|e] s1]; [|done].
      simpl in H. rewrite String.eqb_refl in H.
      assert (fj = [(L, fv)]) as ->.
      { destruct fv as [x|[|x xs]]; simpl in H; unfold mret in H; by simplify_eq. }
      split; [|apply NoDup_singleton].
      intros k ->%list_elem_of_singleton. apply list_elem_of_here.
    + apply IH in H as [Hk Hnd]. split; [|done].
      intros k Hin. by apply list_elem_of_further, Hk.
Qed.

Lemma replace_pii_json_keys m s out s' :
  replace_pii_json P m s = (Ok out, s') ->
  (forall k, k ∈ keys out <-> k ∈ keys m) /\ NoDup (keys out).
Proof.
  unfold replace_pii_json, mbind. simpl.
  destruct (first_pass P m [] _) as [[fj|e] s1] eqn:H1; [|done].
  intros H2. apply first_pass_keys in H1 as [Hk1 Hnd1].
  apply second_pass_keys in H2 as [Hk2 Hnd2]. split; [|auto].
  intros k. rewrite Hk2. split; [|auto]. intros [?|?]; auto.
Qed.
End Batch.

Section Refinement.
Context {World : Type}.
Variable P : Providers World.
Implicit Types s : St World.

Lemma mbind_ret_r {A} (m : M World A) s : mbind m mret s = m s.
Proof. unfold mbind, mret. by destruct (m s) as [[a|e] s1]. Qed.

Lemma split_first_patient_Some m pre L v post :
  split_first_patient m = Some (pre, (L, v), post) ->
  m = pre ++ (L, v) :: post /\ is_patient_label L = true /\
  Forall (fun e => is_patient_label e.1 = false) pre.
Proof.
  revert pre. induction m as [|[k x] m IH]; simpl; intros pre H; [done|].
  destruct (is_patient_label k) eqn:Hk.
  - simplify_eq. auto.
  - destruct (split_first_patient m) as [[[pre' e] post']|]; [|done].
    simplify_eq. destruct (IH pre' eq_refl) as (-> & ? & ?). auto.
Qed.

Lemma split_first_patient_None m :
  split_first_patient m = None ->
  Forall (fun e => is_patient_label e.1 = false) m.
Proof.
  induction m as [|[k x] m IH]; simpl; intros H; [constructor|].
  destruct (is_patient_label k) eqn:Hk; [done|].
  destruct (split_first_patient m) as [[[pre' e] post']|]; [done|].
  constructor; auto.
Qed.

(** The first pass replaces the first patient label and anchors it. *)
Lemma first_pass_spec m s :
  first_pass P m [] s =
    match split_first_patient m with
    | Some (_, (L, v), _) =>
        (fv <- replace_entry P L v ;;
         _ <- match anchor_of fv with
              | Some a => set_current_patient_name (Some a)
              | None => mret tt
              end ;;
         mret [(L, fv)]) s
    | None => (Ok [], s)
    end.
Proof.
  induction m as [|[L v] m IH]; simpl; [done|].
  destruct (is_patient_label L).
  - unfold mbind. destruct (replace_entry P L v s) as [[fv|e] s1]; [|done].
    simpl. rewrite String.eqb_refl. by destruct fv as [x|[|x xs]].
  - rewrite IH. by destruct (split_first_patient m) as [[[pre [L' v']] post]|].
Qed.

(** The second pass replaces, in order, the entries not yet in the result. *)
Lemma second_pass_spec items : forall acc s,
  NoDup (keys items) ->
  (forall l, l ∈ keys items -> l ∈ keys acc -> is_patient_label l = true) ->
  second_pass P items acc s =
    (out <- replace_in_order P (List.filter (fun e => negb (dict_mem e.1 acc)) items) ;;
     mret (acc ++ out)) s.
Proof.
  induction items as [|[L v] items IH]; intros acc s Hnd Hacc.
  - simpl. unfold mbind, mret. simpl. by rewrite app_nil_r.
  - change (keys ((L, v) :: items)) with (L :: keys items) in Hnd.
    apply NoDup_cons in Hnd as [HL Hnd]. simpl.
    destruct (dict_mem L acc) eqn:Hm.
    + rewrite (Hacc L); [|apply list_elem_of_here|by apply dict_mem_spec]. simpl.
      apply IH; [done|]. intros l Hl. apply Hacc. by apply list_elem_of_further.
    + rewrite andb_false_r. simpl. unfold mbind at 1 2 3.
      destruct (replace_entry P L v s) as [[fv|e] s1]; [|done].
      apply dict_mem_false in Hm. rewrite IH; [|done|].
      * rewrite (dict_set_fresh _ _ _ Hm).
        rewrite (List.filter_ext_in
                   (fun e => negb (dict_mem e.1 (acc ++ [(L, fv)])))
                   (fun e => negb (dict_mem e.1 acc))).
        { unfold mbind. destruct (replace_in_order P _ s1) as [[out|e] s2]; [|done].
          unfold mret. by rewrite <- app_assoc. }
        intros [l x] Hin%list_elem_of_In. simpl. f_equal.
        rewrite <- (dict_set_fresh _ _ _ Hm), dict_mem_set.
        destruct (String.eqb_spec l L) as [->|]; [|apply orb_false_r].
        destruct HL. by apply (list_elem_of_fmap_2 fst) in Hin.
      * intros l Hl Hl'. rewrite keys_dict_set in Hl'.
        destruct (dict_mem L acc); [by apply Hacc; [apply list_elem_of_further|]|].
        apply elem_of_app in Hl' as [?|Hx].
        { apply Hacc; [by apply list_elem_of_further|done]. }
        apply list_elem_of_singleton in Hx as ->. done.
Qed.

Lemma filter_other_keys (m pre post : dict) L v fv :
  m = pre ++ (L, v) :: post -> NoDup (keys m) ->
  List.filter (fun e => negb (dict_mem e.1 [(L, fv)])) m = pre ++ post.
Proof.
  intros -> Hnd. unfold keys in Hnd. rewrite fmap_app in Hnd. simpl in Hnd.
  apply NoDup_app in Hnd as (_ & Hpre & [Hpost _]%NoDup_cons).
  assert (Hkeep : forall l : dict, L ∉ l.*1 ->
            List.filter (fun e => negb (dict_mem e.1 [(L, fv)])) l = l).
  { induction l as [|[k x] l IH]; simpl; intros Hl; [done|].
    apply not_elem_of_cons in Hl as [Hk Hl]. unfold dict_mem at 1. simpl.
    destruct (String.eqb_spec k L); [done|]. simpl. by rewrite IH. }
  rewrite List.filter_app. simpl. unfold dict_mem at 2. simpl.
  rewrite String.eqb_refl. simpl.
  rewrite !Hkeep; [done|done|]. intros Hin. apply (Hpre L Hin), list_elem_of_here.
Qed.

Lemma filter_nothing (m : dict) :
  List.filter (fun e => negb (dict_mem e.1 [])) m = m.
Proof.
  induction m as [|e m IH]; [done|].
  change (e :: List.filter (fun e => negb (dict_mem e.1 [])) m = e :: m).
  by rewrite IH.
Qed.

(** [replace_pii_json] is the batch contract. *)
Lemma replace_pii_json_refines m s :
  NoDup (keys m) -> replace_pii_json P m s = replace_all_spec P m s.
Proof.
  intros Hnd. unfold replace_pii_json, replace_all_spec, mbind. simpl.
  set (s0 := Build_St _ _ _).
  rewrite first_pass_spec.
  destruct (split_first_patient m) as [[[pre [L v]] post]|] eqn:Hsp.
  - apply split_first_patient_Some in Hsp as (Hm & HL & Hpre).
    unfold mbind. destruct (replace_entry P L v s0) as [[fv|e] s1]; [|done].
    assert (Hsecond : forall s2,
              second_pass P m [(L, fv)] s2 =
              (out <- replace_in_order P (pre ++ post) ;; mret ((L, fv) :: out)) s2).
    { intros s2. rewrite second_pass_spec; [|done|].
      - by rewrite (filter_other_keys m pre post L v fv Hm Hnd).
      - intros l _ Hl. apply list_elem_of_singleton in Hl as ->. done. }
    destruct (anchor_of fv) as [a|]; simpl; apply Hsecond.
  - rewrite second_pass_spec; [|done|by intros l _ ?%elem_of_nil].
    rewrite filter_nothing. simpl. apply mbind_ret_r.
Qed.

(** *** Shapes *)

Lemma generate_each_length L vs : forall s fs s',
  generate_each P L vs s = (Ok fs, s') -> length fs = length vs.
Proof.
  induction vs as [|v vs IH]; simpl; intros s fs s' H.
  - unfold mret in H. by simplify_eq.
  - unfold mbind in H. destruct (generate_fake_value P L v s) as [[f|e] s1]; [|done].
    destruct (generate_each P L vs s1) as [[fs'|e] s2] eqn:H2; [|done].
    unfold mret in H. simplify_eq. simpl. f_equal. by eapply IH.
Qed.

Lemma replace_entry_shape L v s fv s' :
  replace_entry P L v s = (Ok fv, s') -> same_shape v fv.
Proof.
  destruct v as [x|xs]; simpl; unfold mbind, mret; intros H.
  - destruct (generate_fake_value P L x s) as [[f|e] s1]; by simplify_eq.
  - destruct (generate_each P L xs s) as [[fs|e] s1] eqn:H1; [|done].
    simplify_eq. simpl. by eapply generate_each_length.
Qed.

Lemma second_pass_get items : forall acc s out s' L,
  second_pass P items acc s = (Ok out, s') ->
  (forall v, (L, v) ∈ items -> is_patient_label L && dict_mem L acc = true) ->
  dict_get L out = dict_get L acc.
Proof.
  induction items as [|[L' v'] items IH]; simpl; intros acc s out s' L H HL.
  - unfold mret in H. by simplify_eq.
  - destruct (is_patient_label L' && dict_mem L' acc) eqn:Hskip.
    + eapply IH; [done|]. intros v Hv. by eapply HL, list_elem_of_further.
    + unfold mbind in H. destruct (replace_entry P L' v' s) as [[fv|e] s1]; [|done].
      assert (L <> L') as Hne.
      { intros ->. rewrite (HL v') in Hskip; [done|apply list_elem_of_here]. }
      erewrite IH; [by apply dict_get_set_ne|done|].
      intros v Hv. rewrite dict_mem_set.
      destruct (proj1 (andb_true_iff _ _) (HL v (list_elem_of_further _ _ _ Hv)))
        as [-> ->].
      done.
Qed.

Lemma second_pass_shape items : forall acc s out s' L v,
  second_pass P items acc s = (Ok out, s') ->
  NoDup (keys items) -> (L, v) ∈ items ->
  (exists fv, dict_get L out = Some fv /\ same_shape v fv) \/
  (is_patient_label L && dict_mem L acc = true /\ dict_get L out = dict_get L acc).
Proof.
  induction items as [|[L' v'] items IH]; simpl; intros acc s out s' L v H Hnd Hin.
  - by apply elem_of_nil in Hin.
  - change (keys ((L', v') :: items)) with (L' :: keys items) in Hnd.
    apply NoDup_cons in Hnd as [HL' Hnd].
    assert (Hnot : forall x, (L', x) ∉ items).
    { intros x Hx. apply HL'. by apply (list_elem_of_fmap_2 fst) in Hx. }
    apply elem_of_cons in Hin as [[= -> ->]|Hin].
    + destruct (is_patient_label L' && dict_mem L' acc) eqn:Hskip.
      * right. split; [done|]. eapply second_pass_get; [done|].
        intros x Hx. by destruct (Hnot x).
      * left. unfold mbind in H.
        destruct (replace_entry P L' v' s) as [[fv|e] s1] eqn:He; [|done].
        exists fv. split; [|by eapply replace_entry_shape].
        erewrite second_pass_get; [apply dict_get_set_eq|done|].
        intros x Hx. by destruct (Hnot x).
    + assert (L <> L') as Hne by (intros ->; by destruct (Hnot v)).
      destruct (is_patient_label L' && dict_mem L' acc) eqn:Hskip.
      * by eapply IH.
      * unfold mbind in H.
        destruct (replace_entry P L' v' s) as [[fv|e] s1] eqn:He; [|done].
        destruct (IH _ _ _ _ L v H Hnd Hin) as [?|[Hs Hg]]; [by left|right].
        rewrite dict_mem_set in Hs. rewrite dict_get_set_ne in Hg by done.
        destruct (String.eqb_spec L L'); [done|]. by rewrite orb_false_r in Hs.
Qed.

Lemma replace_pii_json_shape m s out s' L v :
  NoDup (keys m) ->
  replace_pii_json P m s = (Ok out, s') -> (L, v) ∈ m ->
  exists fv, dict_get L out = Some fv /\ same_shape v fv.
Proof.
  intros Hnd. unfold replace_pii_json, mbind. simpl.
  set (s0 := Build_St _ _ _). rewrite first_pass_spec.
  destruct (split_first_patient m) as [[[pre [Lp vp]] post]|] eqn:Hsp.
  - apply split_first_patient_Some in Hsp as (Hm & HLp & Hpre).
    unfold mbind. destruct (replace_entry P Lp vp s0) as [[fv|e] s1] eqn:He; [|done].
    assert (Hgoal : forall s2, second_pass P m [(Lp, fv)] s2 = (Ok out, s') ->
              (L, v) ∈ m -> exists fv, dict_get L out = Some fv /\ same_shape v fv).
    { intros s2 H Hin.
      destruct (second_pass_shape _ _ _ _ _ L v H Hnd Hin) as [?|[Hs Hg]]; [done|].
      apply andb_true_iff in Hs as [_ Hmem]. unfold dict_mem in Hmem. simpl in Hmem.
      rewrite orb_false_r in Hmem. apply String.eqb_eq in Hmem as ->.
      simpl in Hg. rewrite String.eqb_refl in Hg. exists fv. split; [done|].
      assert (v = vp) as ->; [|by eapply replace_entry_shape].
      apply (dict_get_NoDup _ _ _ Hnd) in Hin.
      assert ((Lp, vp) ∈ m) as Hin'.
      { rewrite Hm. apply elem_of_app. right. apply list_elem_of_here. }
      apply (dict_get_NoDup _ _ _ Hnd) in Hin'. congruence. }
    destruct (anchor_of fv) as [a|]; simpl; apply Hgoal.
  - intros H Hin.
    destruct (second_pass_shape _ _ _ _ _ L v H Hnd Hin) as [?|[Hs Hg]]; [done|].
    apply andb_true_iff in Hs as [_ Hmem]. done.
Qed.
End Refinement.

Lemma email_name_parts_Dr n : email_name_parts ("Dr. " +:+ n) = email_name_parts n.
Proof. unfold email_name_parts. by destruct n. Qed.

Lemma patient_label_is_name_label L :
  is_patient_label L = true -> is_name_label L = true.
Proof.
  unfold is_patient_label, is_name_label.
  intros [H|H]%orb_true_iff; [by rewrite H|].
  apply String.eqb_eq in H. rewrite H. apply orb_true_r.
Qed.

Section Returns.
Context {World : Type}.
Variable P : Providers World.
Implicit Types s : St World.

Lemma returns_ret (Inv : St World -> Prop) {A} (Q : A -> Prop) a : Q a -> returns Inv Q (mret a).
Proof. intros Ha s Hs. by exists a, s. Qed.

Lemma returns_bind (Inv : St World -> Prop) {A B} (Q : A -> Prop) (Q' : B -> Prop) m (k : A -> M World B) :
  returns Inv Q m -> (forall a, Q a -> returns Inv Q' (k a)) ->
  returns Inv Q' (mbind m k).
Proof.
  intros Hm Hk s Hs. destruct (Hm s Hs) as (a & s1 & E & Ha & Hs1).
  unfold mbind. rewrite E. by apply Hk.
Qed.

Lemma name_value_nonblank V w :
  names_nonblank P -> email_name_parts (fst (name_value P V w)) <> [].
Proof.
  intros Hn. destruct (Hn w) as (Hm & Hf & Hx). unfold name_value.
  destruct (any_in male_titles _); [done|].
  destruct (any_in female_titles _); [|done].
  destruct (contains "dr." _); [|done].
  unfold gbind, gret. destruct (faker_name P w) as [n w'] eqn:E. simpl in *.
  by rewrite email_name_parts_Dr.
Qed.

Lemma email_branch_returns s :
  safe s -> exists f, fst (email_branch P s) = Ok f.
Proof.
  intros Hs. unfold email_branch, mbind, get_current_patient_name.
  destruct (current_patient_name s) as [a|] eqn:Ha; [|rewrite lift_spec; eauto].
  destruct (Hs a Ha) as [Hempty|Hparts].
  { rewrite Hempty, lift_spec. eauto. }
  destruct (nonempty a); [|rewrite lift_spec; eauto].
  destruct (2 <=? length (email_name_parts a))%nat.
  - unfold mbind. rewrite lift_spec. unfold mret. eauto.
  - destruct (email_name_parts a) as [|p ps]; [done|].
    unfold mbind. rewrite lift_spec. unfold mret. eauto.
Qed.

Lemma fresh_value_returns L V s :
  safe s -> exists f, fst (fresh_value P L V s) = Ok f.
Proof.
  intros Hs. unfold fresh_value.
  destruct (_ || _); [rewrite name_branch_spec; eauto|].
  destruct (_ || _); [rewrite lift_spec; eauto|].
  destruct (contains "email" _); [by apply email_branch_returns|].
  rewrite lift_spec. eauto.
Qed.

(** The anchor after a miss: unchanged, or the fresh name of a patient label. *)
Lemma fresh_value_anchor_cases L V s :
  current_patient_name (snd (fresh_value P L V s)) = current_patient_name s \/
  (is_patient_label L = true /\
   current_patient_name (snd (fresh_value P L V s))
   = Some (fst (name_value P V (world s)))).
Proof.
  destruct (is_patient_label L) eqn:HL; [|left; by apply fresh_value_anchor].
  right. split; [done|]. unfold fresh_value.
  pose proof (patient_label_is_name_label L HL) as HN.
  unfold is_name_label in HN. rewrite HN, name_branch_spec. simpl.
  unfold is_patient_label in HL. by rewrite HL.
Qed.

Lemma generate_returns L V :
  (is_patient_label L = false \/ names_nonblank P) ->
  returns safe (fun _ => True) (generate_fake_value P L V).
Proof.
  intros Hc s Hs.
  destruct (replacement_cache s !! cache_key L V) as [v|] eqn:Hk.
  { rewrite (generate_hit P L V s v Hk). eauto. }
  rewrite (generate_miss P L V s Hk).
  destruct (fresh_value_returns L V s Hs) as [f Hf].
  pose proof (fresh_value_anchor_cases L V s) as Ha.
  destruct (fresh_value P L V s) as [r s1]. simpl in *. subst r.
  eexists _, _. split; [done|]. split; [done|].
  intros a. simpl. destruct Ha as [->|[HL ->]]; [apply Hs|].
  intros [= <-]. right. apply name_value_nonblank.
  by destruct Hc as [Hc|Hc]; [congruence|].
Qed.

Lemma generate_each_returns (Inv : St World -> Prop) (Q : string -> Prop) L vs :
  (forall V, returns Inv Q (generate_fake_value P L V)) ->
  returns Inv (Forall Q) (generate_each P L vs).
Proof.
  intros Hg. induction vs as [|v vs IH]; simpl.
  - by apply returns_ret.
  - eapply returns_bind; [apply Hg|]. intros f Hf.
    eapply returns_bind; [apply IH|]. intros fs Hfs.
    apply returns_ret. by constructor.
Qed.

Lemma replace_entry_returns (Inv : St World -> Prop) (Q : string -> Prop) L v :
  (forall V, returns Inv Q (generate_fake_value P L V)) ->
  returns Inv (fun fv => forall a, anchor_of fv = Some a -> Q a) (replace_entry P L v).
Proof.
  intros Hg. destruct v as [x|xs]; simpl.
  - eapply returns_bind; [apply Hg|]. intros f Hf.
    apply returns_ret. simpl. by intros a [= <-].
  - eapply returns_bind; [by apply generate_each_returns|]. intros fs Hfs.
    apply returns_ret. destruct Hfs; simpl; [done|]. by intros a [= <-].
Qed.

Lemma returns_weaken (Inv : St World -> Prop) {A} (Q Q' : A -> Prop) m :
  (forall a, Q a -> Q' a) -> returns Inv Q m -> returns Inv Q' m.
Proof.
  intros HQ Hm s Hs. destruct (Hm s Hs) as (a & s' & ? & ? & ?). eauto 6.
Qed.

Lemma second_pass_returns items :
  (Forall (fun e => is_patient_label e.1 = false) items \/ names_nonblank P) ->
  forall acc, returns safe (fun _ => True) (second_pass P items acc).
Proof.
  intros Hc. induction items as [|[L v] items IH]; intros acc; simpl.
  - by apply returns_ret.
  - assert (Hc' : Forall (fun e => is_patient_label e.1 = false) items \/ names_nonblank P).
    { destruct Hc as [Hc|Hc]; [left; by inversion Hc|by right]. }
    destruct (_ && _); [by apply IH|].
    eapply returns_bind; [|intros fv _; by apply IH].
    eapply returns_weaken; [|apply replace_entry_returns with (Q := fun _ => True)]; [done|].
    intros V. apply generate_returns.
    destruct Hc as [Hc|Hc]; [left; by inversion Hc|by right].
Qed.

(** In the first pass every value comes from the name branch or from the
    cache. *)
Lemma generate_name_returns L V :
  is_name_label L = true -> names_nonblank P ->
  returns cache_usable usable (generate_fake_value P L V).
Proof.
  intros HL Hn s Hs.
  destruct (replacement_cache s !! cache_key L V) as [v|] eqn:Hk.
  { rewrite (generate_hit P L V s v Hk). eauto 6. }
  rewrite (generate_miss P L V s Hk).
  pose proof (fresh_value_name P L V s HL) as Hf.
  pose proof (fresh_value_cache P L V s) as Hc.
  destruct (fresh_value P L V s) as [r s1]. simpl in *. subst r.
  assert (usable (fst (name_value P V (world s)))) as Hu.
  { right. by apply name_value_nonblank. }
  eexists _, _. split; [done|]. split; [done|].
  intros k v. simpl. rewrite Hc, lookup_insert. case_decide.
  - by intros [= <-].
  - apply Hs.
Qed.

Lemma first_pass_returns items :
  (Forall (fun e => is_patient_label e.1 = false) items \/
   names_nonblank P) ->
  forall s, cache_usable s -> current_patient_name s = None ->
  exists fj s', first_pass P items [] s = (Ok fj, s') /\ safe s'.
Proof.
  intros Hc s Hs Ha. rewrite first_pass_spec.
  destruct (split_first_patient items) as [[[pre [L v]] post]|] eqn:Hsp.
  - apply split_first_patient_Some in Hsp as (-> & HL & _).
    destruct Hc as [Hc|Hn].
    { apply Forall_app in Hc as [_ Hc]. inversion Hc; simplify_eq. simpl in *. congruence. }
    pose proof (patient_label_is_name_label L HL) as HN.
    destruct (replace_entry_returns cache_usable usable L v
                (fun V => generate_name_returns L V HN Hn) s Hs)
      as (fv & s1 & E & Hfv & Hs1).
    unfold mbind. rewrite E.
    destruct (anchor_of fv) as [a|] eqn:Hanc; simpl.
    + eexists _, _. split; [done|]. intros a'. simpl. intros [= <-]. by apply Hfv.
    + eexists _, _. split; [done|]. intros a.
      pose proof (replace_entry_shape P L v s fv s1 E) as Hshape.
      destruct fv as [x|[|x xs]]; simpl in Hanc; try done.
      destruct v as [y|[|y ys]]; simpl in Hshape; try done.
      simpl in E. unfold mbind, mret in E. simplify_eq. congruence.
  - exists [], s. split; [done|]. intros a. congruence.
Qed.

(** The batch returns: when no label of the mapping is a patient label, or
    when the names of the provider are never blank and the cache holds
    usable values only. *)
Lemma replace_pii_json_returns m s :
  (Forall (fun e => is_patient_label e.1 = false) m \/
   (names_nonblank P /\ cache_usable s)) ->
  exists out s', replace_pii_json P m s = (Ok out, s').
Proof.
  intros Hc. unfold replace_pii_json, mbind. simpl.
  set (s0 := Build_St _ _ _).
  assert (exists fj s1, first_pass P m [] s0 = (Ok fj, s1) /\ safe s1)
    as (fj & s1 & E & Hs1).
  { destruct Hc as [Hc|[Hn Hs]].
    - rewrite first_pass_spec.
      destruct (split_first_patient m) as [[[pre [L v]] post]|] eqn:Hsp.
      + apply split_first_patient_Some in Hsp as (-> & HL & _).
        apply Forall_app in Hc as [_ Hc]. inversion Hc; simplify_eq.
        simpl in *. congruence.
      + exists [], s0. split; [done|]. intros a. done.
    - apply first_pass_returns; [by right|exact Hs|done]. }
  rewrite E.
  destruct (second_pass_returns m (match Hc with
                                   | or_introl H => or_introl H
                                   | or_intror H => or_intror (proj1 H)
                                   end) fj s1 Hs1)
    as (out & s' & E' & _). eauto.
Qed.
End Returns.

Lemma email_label_not_patient L : is_email_label L = true -> is_patient_label L = false.
Proof.
  intros HE. destruct (is_patient_label L) eqn:HL; [|done].
  apply patient_label_is_name_label in HL. unfold is_email_label, is_name_label in *.
  by rewrite HL in HE.
Qed.

Section Email.
Context {World : Type}.
Variable P : Providers World.
Implicit Types s : St World.

Lemma choice_elem (d : string) (l : list string) w :
  l <> [] -> fst (choice P d l w) ∈ l.
Proof.
  intros Hl. unfold choice, gbind, randbelow, gret.
  destruct (random_draw P w) as [r w']. simpl.
  apply list_elem_of_In, nth_In.
  assert (0 < Z.of_nat (length l))%Z as Hlen by (destruct l; [done|simpl; lia]).
  pose proof (Z.mod_pos_bound (Z.of_N r) _ Hlen). lia.
Qed.

Lemma fresh_value_email L V s :
  is_email_label L = true -> fresh_value P L V s = email_branch P s.
Proof.
  unfold is_email_label, fresh_value.
  intros [[H1 H2]%andb_true_iff H3]%andb_true_iff.
  apply negb_true_iff in H1, H2. by rewrite H1, H2, H3.
Qed.

(** What the email branch returns, by the anchor. *)
Lemma email_branch_value s :
  fst (email_branch P s) =
    match current_patient_name s with
    | Some a =>
        if nonempty a then
          match email_name_parts a with
          | [] => Err IndexError
          | [part] =>
              Ok (_clean_for_email part +:+ "@"
                  +:+ fst (choice P "" short_domain_options (world s)))
          | first :: _ =>
              Ok (_clean_for_email first +:+ "."
                  +:+ _clean_for_email (List.last (email_name_parts a) "") +:+ "@"
                  +:+ fst (choice P "" domain_options (world s)))
          end
        else Ok (fst (faker_email P (world s)))
    | None => Ok (fst (faker_email P (world s)))
    end.
Proof.
  unfold email_branch, mbind, get_current_patient_name.
  destruct (current_patient_name s) as [a|]; [|by rewrite lift_spec].
  destruct (nonempty a); [|by rewrite lift_spec].
  destruct (email_name_parts a) as [|p [|q ps]]; simpl; [done|..];
    rewrite lift_spec; reflexivity.
Qed.

(** A call for a label that is not a patient label leaves the anchor. *)
Lemma generate_anchor L V s :
  is_patient_label L = false ->
  current_patient_name (snd (generate_fake_value P L V s)) = current_patient_name s.
Proof.
  intros HL. destruct (replacement_cache s !! cache_key L V) as [v|] eqn:Hk.
  { by rewrite (generate_hit P L V s v Hk). }
  rewrite (generate_miss P L V s Hk).
  pose proof (fresh_value_anchor P L V s HL) as Ha.
  by destruct (fresh_value P L V s) as [[f|e] s1].
Qed.

(** A call leaves the entries of the other keys. *)
Lemma generate_cache_other L V s k :
  k <> cache_key L V ->
  replacement_cache (snd (generate_fake_value P L V s)) !! k = replacement_cache s !! k.
Proof.
  intros Hk. destruct (generate_cache P L V s) as [->|(_ & f & _ & ->)]; [done|].
  by rewrite lookup_insert_ne.
Qed.

Lemma replace_entry_frame L v s k :
  is_patient_label L = false -> k ∉ entry_keys L v ->
  current_patient_name (snd (replace_entry P L v s)) = current_patient_name s /\
  replacement_cache (snd (replace_entry P L v s)) !! k = replacement_cache s !! k.
Proof.
  intros HL Hk.
  apply (keeps_replace_entry P
           (fun s s' => current_patient_name s' = current_patient_name s /\
                        replacement_cache s' !! k = replacement_cache s !! k)).
  - done.
  - intros s1 s2 s3 [-> ->] [-> ->]. done.
  - intros V HV s'. split; [by apply generate_anchor|].
    apply generate_cache_other. intros ->. done.
Qed.

Lemma replace_entry_cache_frame L v s k :
  k ∉ entry_keys L v ->
  replacement_cache (snd (replace_entry P L v s)) !! k = replacement_cache s !! k.
Proof.
  intros Hk.
  apply (keeps_replace_entry P
           (fun s s' => replacement_cache s' !! k = replacement_cache s !! k)).
  - done.
  - intros s1 s2 s3 -> ->. done.
  - intros V HV s'. apply generate_cache_other. intros ->. done.
Qed.

(** The second pass, followed up to an email entry whose key is met
    nowhere else: the entry is replaced by the email branch, run under the
    anchor the pass started with. *)
Lemma second_pass_email Le Ve items : forall acc s out s',
  second_pass P items acc s = (Ok out, s') ->
  NoDup (keys items) ->
  (forall L v, (L, v) ∈ items -> is_patient_label L = true -> dict_mem L acc = true) ->
  (Le, Scalar Ve) ∈ items -> is_email_label Le = true ->
  replacement_cache s !! cache_key Le Ve = None ->
  (forall L v, (L, v) ∈ items -> L <> Le -> cache_key Le Ve ∉ entry_keys L v) ->
  exists s_e e,
    current_patient_name s_e = current_patient_name s /\
    fst (email_branch P s_e) = Ok e /\
    dict_get Le out = Some (Scalar e).
Proof.
  induction items as [|[L v] items IH]; intros acc s out s' H Hnd Hpat Hin HLe Hmiss Hkeys.
  { by apply elem_of_nil in Hin. }
  change (keys ((L, v) :: items)) with (L :: keys items) in Hnd.
  apply NoDup_cons in Hnd as [HL Hnd]. simpl in H.
  assert (Hnot : forall x, (L, x) ∉ items).
  { intros x Hx. apply HL. by apply (list_elem_of_fmap_2 fst) in Hx. }
  apply elem_of_cons in Hin as [[= <- <-]|Hin].
  - rewrite (email_label_not_patient Le HLe) in H. simpl in H.
    unfold mbind in H. simpl in H. unfold mbind in H.
    pose proof (generate_miss_value P Le Ve s Hmiss) as Hv.
    rewrite (fresh_value_email Le Ve s HLe) in Hv.
    destruct (generate_fake_value P Le Ve s) as [[e|err] s1]; [|done].
    unfold mret in H. exists s, e. split; [done|]. split; [done|].
    erewrite second_pass_get; [apply dict_get_set_eq|done|].
    intros x Hx. by destruct (Hnot x).
  - assert (L <> Le) as Hne by (intros ->; by destruct (Hnot (Scalar Ve))).
    destruct (is_patient_label L && dict_mem L acc) eqn:Hskip.
    + eapply IH; try done.
      * intros L' v' Hin'. apply (Hpat L' v'). by apply list_elem_of_further.
      * intros L' v' Hin'. apply (Hkeys L' v'). by apply list_elem_of_further.
    + assert (is_patient_label L = false) as HLp.
      { destruct (is_patient_label L) eqn:E; [|done].
        rewrite (Hpat L v (list_elem_of_here _ _) E) in Hskip. done. }
      unfold mbind in H.
      destruct (replace_entry_frame L v s (cache_key Le Ve) HLp
                  (Hkeys L v (list_elem_of_here _ _) Hne)) as [Ha Hc].
      destruct (replace_entry P L v s) as [[fv|err] s1]; [|done]. simpl in *.
      destruct (IH _ _ _ _ H Hnd) as (s_e & e & Hanc & He & Hget); try done.
      * intros L' v' Hin' HL'. rewrite dict_mem_set.
        rewrite (Hpat L' v'); [done|by apply list_elem_of_further|done].
      * by rewrite Hc.
      * intros L' v' Hin'. apply (Hkeys L' v'). by apply list_elem_of_further.
      * exists s_e, e. by rewrite Hanc, Ha.
Qed.

(** The first pass: what it leaves when the mapping has a patient label. *)
Lemma first_pass_anchor m s fj s1 pre Lp vp post :
  split_first_patient m = Some (pre, (Lp, vp), post) ->
  first_pass P m [] s = (Ok fj, s1) ->
  exists fv,
    fj = [(Lp, fv)] /\
    (forall a, anchor_of fv = Some a -> current_patient_name s1 = Some a) /\
    (forall k, k ∉ entry_keys Lp vp ->
               replacement_cache s1 !! k = replacement_cache s !! k).
Proof.
  intros Hsp. rewrite first_pass_spec, Hsp. unfold mbind.
  pose proof (fun k => replace_entry_cache_frame Lp vp s k) as Hc.
  destruct (replace_entry P Lp vp s) as [[fv|e] s0]; [|done]. simpl in Hc.
  destruct (anchor_of fv) as [a|] eqn:Ha; simpl; unfold mret; intros [= <- <-];
    exists fv; (split; [done|]); (split; [|intros k Hk; simpl; by apply Hc]).
  - by intros a' [= <-].
  - intros a'. by rewrite Ha.
Qed.

Lemma first_pass_nothing m s :
  Forall (fun e => is_patient_label e.1 = false) m ->
  first_pass P m [] s = (Ok [], s).
Proof.
  induction 1 as [|[L v] m HL Hm IH]; simpl; [done|]. simpl in HL. by rewrite HL.
Qed.
End Email.

Lemma email_name_parts_nonempty a : email_name_parts a <> [] -> nonempty a = true.
Proof. by destruct a. Qed.

Lemma split_first_patient_is_Some (m : dict) L :
  L ∈ keys m -> is_patient_label L = true ->
  exists pre L0 v0 post, split_first_patient m = Some (pre, (L0, v0), post).
Proof.
  intros Hin HL. destruct (split_first_patient m) as [[[pre [L0 v0]] post]|] eqn:E; [eauto|].
  apply split_first_patient_None in E.
  apply list_elem_of_fmap in Hin as ([L' v'] & -> & Hin).
  rewrite Forall_forall in E. apply E in Hin. simpl in *. congruence.
Qed.

(** ** The batch: email, order and keys *)

Lemma demo_names_nonblank : names_nonblank Demo.providers.
Proof.
  intros w. unfold Demo.providers.
  cbn [faker_name_male faker_name_female faker_name fst].
  pose proof (Nat.mod_upper_bound w 2 ltac:(lia)) as Hw.
  destruct (w mod 2) as [|[|n]]; [| |lia];
    (split; [|split]); vm_compute; intros H; discriminate H.
Qed.

Lemma init_cache_usable {World} (w : World) : cache_usable (init w).
Proof. intros k v. simpl. by rewrite lookup_empty. Qed.

(** C4 (amended). In a batch with one patient label, an email label whose
    pair meets the cache for the first time is replaced from the anchor, the
    replacement of the patient label: the anchor is lower-cased, every "dr. "
    is deleted from it, and it is split at white space; two tokens or more
    give [first.last@domain] with the domain among the five of the vocabulary,
    a single token gives [token@domain] with the domain among the first three;
    the tokens keep their letters a-z only. In a batch without a patient label
    the batch returns and the email is the one Faker synthesises. *)
Theorem C4_email_from_anchor :
  forall (World : Type) (P : Providers World) (m : dict) (s : St World)
         (Le Ve : string),
    NoDup (keys m) ->
    (Le, Scalar Ve) ∈ m ->
    is_email_label Le = true ->
    replacement_cache s !! cache_key Le Ve = None ->
    (forall L v, (L, v) ∈ m -> L <> Le -> cache_key Le Ve ∉ entry_keys L v) ->
    (forall out s' Lp fp a,
        replace_pii_json P m s = (Ok out, s') ->
        is_patient_label Lp = true ->
        (forall L v, (L, v) ∈ m -> is_patient_label L = true -> L = Lp) ->
        dict_get Lp out = Some fp ->
        anchor_of fp = Some a ->
        (2 <= length (email_name_parts a) ->
         exists domain, domain ∈ domain_options /\
           dict_get Le out =
             Some (Scalar (_clean_for_email (nth 0 (email_name_parts a) "") +:+ "."
                           +:+ _clean_for_email (List.last (email_name_parts a) "")
                           +:+ "@" +:+ domain)))
        /\ (forall part, email_name_parts a = [part] ->
            exists domain, domain ∈ short_domain_options /\
              dict_get Le out = Some (Scalar (_clean_for_email part +:+ "@" +:+ domain))))
    /\ (Forall (fun e => is_patient_label e.1 = false) m ->
        exists out s' w,
          replace_pii_json P m s = (Ok out, s') /\
          dict_get Le out = Some (Scalar (fst (faker_email P w)))).
Proof.
  intros World P m s Le Ve Hnd Hin HLe Hmiss Hkeys. split.
  - intros out s' Lp fp a H HLp Huniq Hget Ha.
    unfold replace_pii_json, mbind in H. simpl in H.
    set (s0 := Build_St _ _ _) in H.
    destruct (first_pass P m [] s0) as [[fj|e] s1] eqn:H1; [|done].
    assert (Lp ∈ keys m) as HLpin.
    { apply (replace_pii_json_keys P m s out s').
      - unfold replace_pii_json, mbind. simpl. fold s0. by rewrite H1.
      - apply dict_get_In in Hget. by apply (list_elem_of_fmap_2 fst) in Hget. }
    destruct (split_first_patient_is_Some m Lp HLpin HLp) as (pre & L0 & v0 & post & Hsp).
    destruct (split_first_patient_Some _ _ _ _ _ Hsp) as (Hm & HL0 & _).
    assert ((L0, v0) ∈ m) as Hin0.
    { rewrite Hm. apply elem_of_app. right. apply list_elem_of_here. }
    assert (L0 = Lp) as -> by (by eapply Huniq).
    destruct (first_pass_anchor P m s0 fj s1 _ _ _ _ Hsp H1) as (fv & -> & Hanc & Hcache).
    assert (dict_get Lp out = Some fv) as Hfv.
    { erewrite second_pass_get; [|exact H|].
      - simpl. by rewrite String.eqb_refl.
      - intros v _. rewrite HLp. unfold dict_mem. simpl. by rewrite String.eqb_refl. }
    assert (fp = fv) as -> by congruence.
    assert (Lp <> Le) as Hne.
    { intros ->. rewrite (email_label_not_patient _ HLe) in HLp. done. }
    destruct (second_pass_email P Le Ve m _ _ _ _ H Hnd) as (s_e & e & Hse & He & Hout);
      try done.
    + intros L v HLv HLpat. rewrite (Huniq L v HLv HLpat).
      unfold dict_mem. simpl. by rewrite String.eqb_refl.
    + rewrite Hcache; [done|]. by apply (Hkeys Lp v0).
    + rewrite email_branch_value, Hse, (Hanc a Ha) in He.
      split.
      * intros Hlen.
        assert (email_name_parts a <> []) as Hparts0.
        { intros E. rewrite E in Hlen. simpl in Hlen. lia. }
        rewrite (email_name_parts_nonempty a Hparts0) in He.
        destruct (email_name_parts a) as [|p [|q ps]] eqn:Hparts; simpl in Hlen; try lia.
        exists (fst (choice P "" domain_options (world s_e))).
        split; [by apply choice_elem|]. rewrite Hout. by simplify_eq.
      * intros part Hpart.
        rewrite (email_name_parts_nonempty a) in He by (by rewrite Hpart).
        rewrite Hpart in He.
        exists (fst (choice P "" short_domain_options (world s_e))).
        split; [by apply choice_elem|]. rewrite Hout. by simplify_eq.
  - intros Hnone.
    destruct (replace_pii_json_returns P m s (or_introl Hnone)) as (out & s' & H).
    pose proof H as H'.
    unfold replace_pii_json, mbind in H. simpl in H.
    rewrite (first_pass_nothing P m _ Hnone) in H.
    destruct (second_pass_email P Le Ve m _ _ _ _ H Hnd) as (s_e & e & Hse & He & Hout);
      try done.
    + intros L v HLv HLpat. rewrite Forall_forall in Hnone.
      apply Hnone in HLv. simpl in HLv. congruence.
    + rewrite email_branch_value, Hse in He. simpl in He.
      exists out, s', (world s_e). split; [done|]. rewrite Hout. by simplify_eq.
Qed.

Lemma C4_email_from_anchor_witness :
  exists domain, domain ∈ domain_options /\
    dict_get "email"
      [("Patient Name", Scalar "Dr. Kiran Rao");
       ("email", Scalar "kiran.rao@example.org")]
    = Some (Scalar (_clean_for_email (nth 0 (email_name_parts "Dr. Kiran Rao") "") +:+ "."
                    +:+ _clean_for_email (List.last (email_name_parts "Dr. Kiran Rao") "")
                    +:+ "@" +:+ domain)).
Proof.
  set (m := [("email", Scalar "asha@mail.in"); ("Patient Name", Scalar "Dr. Asha Patel")]).
  assert (NoDup (keys m)) as Hnd.
  { apply (bool_decide_unpack _). vm_compute. exact I. }
  assert (("email", Scalar "asha@mail.in") ∈ m) as Hin by apply list_elem_of_here.
  assert (forall L v, (L, v) ∈ m -> L <> "email" ->
            cache_key "email" "asha@mail.in" ∉ entry_keys L v) as Hkeys.
  { intros L v HLv Hne.
    apply elem_of_cons in HLv as [[= -> ->]|HLv]; [done|].
    apply list_elem_of_singleton in HLv as [= -> ->].
    intros Hk. apply list_elem_of_singleton in Hk. discriminate Hk. }
  destruct (C4_email_from_anchor nat Demo.providers m (init 0) "email" "asha@mail.in"
              Hnd Hin eq_refl eq_refl Hkeys) as [Hanchor _].
  apply (Hanchor _ (snd (replace_pii_json Demo.providers m (init 0)))
           "Patient Name" (Scalar "Dr. Kiran Rao") "Dr. Kiran Rao").
  - vm_compute. reflexivity.
  - reflexivity.
  - intros L v HLv HL.
    apply elem_of_cons in HLv as [[= -> ->]|HLv]; [discriminate HL|].
    by apply list_elem_of_singleton in HLv as [= -> ->].
  - reflexivity.
  - reflexivity.
  - vm_compute. lia.
Defined.

(** C4 as stated fails on an anchor that starts with "Dr. ": the title is
    deleted before the tokens are taken, so the local part starts with the
    given name, not with "dr". *)
Lemma C4_counterexample :
  fst (replace_pii_json Demo.providers
         [("Patient Name", Scalar "Dr. Asha Patel"); ("email", Scalar "asha@mail.in")]
         (init 0))
  = Ok [("Patient Name", Scalar "Dr. Kiran Rao");
        ("email", Scalar "kiran.rao@example.org")]
  /\ split "Dr. Kiran Rao" = ["Dr."; "Kiran"; "Rao"]
  /\ _clean_for_email "Dr." +:+ "." +:+ _clean_for_email "Rao" = "dr.rao"
  /\ "dr.rao" <> "kiran.rao".
Proof. vm_compute. repeat split; congruence. Qed.

(** C5 (amended). [replace_pii_json] resets the anchor, replaces the first
    label of the mapping that is a patient label and anchors its replacement,
    then replaces every other label, later patient labels among them, in the
    order of the mapping; a scalar gets a scalar and a sequence a sequence of
    the same length; and the batch returns when the provider's names are
    never blank and the cache holds usable values. *)
Theorem C5_batch_contract :
  forall (World : Type) (P : Providers World) (m : dict) (s : St World),
    NoDup (keys m) ->
    replace_pii_json P m s = replace_all_spec P m s
    /\ (forall out s' L v,
          replace_pii_json P m s = (Ok out, s') -> (L, v) ∈ m ->
          exists fv, dict_get L out = Some fv /\ same_shape v fv)
    /\ (names_nonblank P -> cache_usable s ->
        exists out s', replace_pii_json P m s = (Ok out, s')).
Proof.
  intros World P m s Hnd. split; [|split].
  - by apply replace_pii_json_refines.
  - intros out s' L v H Hin. by eapply replace_pii_json_shape.
  - intros Hn Hs. apply replace_pii_json_returns. by right.
Qed.

Lemma C5_batch_contract_witness :
  replace_pii_json Demo.providers
    [("email", Scalar "ravi@mail.in"); ("Patient Name", Seq ["Mr. Ravi Kumar"; "Ms. Asha"]);
     ("Hospital ID", Scalar "HOSP1234567")] (init 0)
  = replace_all_spec Demo.providers
    [("email", Scalar "ravi@mail.in"); ("Patient Name", Seq ["Mr. Ravi Kumar"; "Ms. Asha"]);
     ("Hospital ID", Scalar "HOSP1234567")] (init 0).
Proof.
  apply (C5_batch_contract nat Demo.providers).
  apply (bool_decide_unpack _). vm_compute. exact I.
Defined.

(** C5 as stated fails on a mapping with two patient labels: only the first
    one is moved to the front, the second is replaced after the email. *)
Lemma C5_counterexample :
  fst (replace_pii_json Demo.providers
         [("Patient Name", Scalar "Mr. Ravi Kumar"); ("email", Scalar "ravi@mail.in");
          ("Old Patient Name", Scalar "Ms. Asha")] (init 0))
  = Ok [("Patient Name", Scalar "Ravi Kumar");
        ("email", Scalar "ravi.kumar@example.org");
        ("Old Patient Name", Scalar "Sita Devi")]
  /\ is_patient_label "Old Patient Name" = true
  /\ is_patient_label "email" = false
  /\ current_patient_name
       (snd (replace_pii_json Demo.providers
               [("Patient Name", Scalar "Mr. Ravi Kumar"); ("email", Scalar "ravi@mail.in");
                ("Old Patient Name", Scalar "Ms. Asha")] (init 0)))
     = Some "Sita Devi".
Proof. vm_compute. auto. Qed.

(** ** The batch: labels without a branch *)

Lemma lift_value {World A} (g : Gen World A) (s : St World) :
  fst (lift g s) = Ok (fst (g (world s))).
Proof. by rewrite lift_spec. Qed.

Lemma fresh_value_plain {World} (P : Providers World) L V (s : St World) :
  is_plain_label L = true ->
  fresh_value P L V s = lift (other_value P L (lower L) V) s.
Proof.
  unfold is_plain_label, fresh_value. intros H.
  apply andb_prop in H as [H H3]. apply andb_prop in H as [H1 H2].
  apply negb_true_iff in H1, H2, H3. by rewrite H1, H2, H3.
Qed.

Lemma unrecognized_label_plain L : is_unrecognized_label L = true -> is_plain_label L = true.
Proof. unfold is_unrecognized_label. by intros [H _]%andb_prop. Qed.

Lemma unrecognized_label_not_patient L :
  is_unrecognized_label L = true -> is_patient_label L = false.
Proof.
  intros HL%unrecognized_label_plain. destruct (is_patient_label L) eqn:Hp; [|done].
  apply patient_label_is_name_label in Hp. unfold is_plain_label, is_name_label in *.
  by rewrite Hp in HL.
Qed.

Lemma cache_key_inj L V V' : cache_key L V = cache_key L V' -> V = V'.
Proof.
  unfold cache_key. intros H. apply (inj (String.app L)) in H.
  by apply (inj (String.app ":")) in H.
Qed.

Section Fallback.
Context {World : Type}.
Variable P : Providers World.
Implicit Types s : St World.

(** Under a label without a branch, the value generated on a miss is
    decided by the test on the original value. *)
Lemma other_value_unrecognized L V :
  is_unrecognized_label L = true ->
  other_value P L (lower L) V =
    if any_in insurance_words (lower V) then choice P "" insurance_names
    else gret ("[FAKE_" +:+ safe_label L +:+ "]").
Proof.
  unfold is_unrecognized_label. intros [_ H]%andb_prop.
  apply negb_true_iff in H. unfold any_in in H. cbn [existsb] in H.
  repeat match type of H with
         | _ || _ = false => apply orb_false_elim in H as [? H]
         end.
  unfold other_value.
  repeat match goal with
         | E : contains _ (lower L) = false |- _ => rewrite E; clear E
         end.
  reflexivity.
Qed.

Lemma fresh_value_fallback L V s f s' :
  is_unrecognized_label L = true ->
  fresh_value P L V s = (Ok f, s') -> fallback_value L V f.
Proof.
  intros HL. rewrite (fresh_value_plain P L V s (unrecognized_label_plain L HL)).
  rewrite lift_spec, (other_value_unrecognized L V HL). unfold fallback_value.
  destruct (any_in insurance_words (lower V)).
  - intros [= <- _]. by apply choice_elem.
  - by intros [= <- _].
Qed.

(** A call on such a label returns, and what it returns is a fallback
    value when the cached one, if any, is. *)
Lemma generate_fallback L V s :
  is_unrecognized_label L = true ->
  (forall f, replacement_cache s !! cache_key L V = Some f -> fallback_value L V f) ->
  exists f s', generate_fake_value P L V s = (Ok f, s') /\ fallback_value L V f.
Proof.
  intros HL Hc. destruct (replacement_cache s !! cache_key L V) as [f|] eqn:Hk.
  - exists f, s. split; [by apply generate_hit|by apply Hc].
  - rewrite (generate_miss P L V s Hk).
    pose proof (fresh_value_fallback L V s) as Hf.
    rewrite (fresh_value_plain P L V s (unrecognized_label_plain L HL)), lift_spec in Hf |- *.
    eexists _, _. split; [reflexivity|]. by eapply Hf.
Qed.

Lemma generate_each_fallback L Vs : forall s,
  is_unrecognized_label L = true ->
  (forall V f, V ∈ Vs -> replacement_cache s !! cache_key L V = Some f ->
               fallback_value L V f) ->
  exists fs s', generate_each P L Vs s = (Ok fs, s') /\ Forall2 (fallback_value L) Vs fs.
Proof.
  induction Vs as [|V Vs IH]; intros s HL Hc.
  { exists [], s. split; [done|constructor]. }
  destruct (generate_fallback L V s HL) as (f & s1 & Hg & Hf).
  { intros f. apply Hc, list_elem_of_here. }
  destruct (IH s1 HL) as (fs & s2 & He & Hfs).
  { intros V' f' Hin Hk. destruct (decide (cache_key L V' = cache_key L V)) as [E|Hne].
    - apply cache_key_inj in E as ->.
      rewrite (generate_cached P L V s f s1 Hg) in Hk. by simplify_eq.
    - pose proof (generate_cache_other P L V s _ Hne) as Ho. rewrite Hg in Ho.
      simpl in Ho. rewrite Ho in Hk. eapply Hc; [|exact Hk]. by apply list_elem_of_further. }
  exists (f :: fs), s2. split; [|by constructor].
  cbn [generate_each]. unfold mbind. by rewrite Hg, He.
Qed.

(** An entry of such a label whose pairs meet the cache for the first
    time is replaced by fallback values. *)
Lemma replace_entry_fallback L v s fv s' :
  is_unrecognized_label L = true ->
  (forall k, k ∈ entry_keys L v -> replacement_cache s !! k = None) ->
  replace_entry P L v s = (Ok fv, s') -> fallback_entry L v fv.
Proof.
  intros HL Hc. destruct v as [V|Vs]; simpl; unfold mbind, mret.
  - destruct (generate_fallback L V s HL) as (f & s1 & -> & Hf).
    { intros f Hk. rewrite Hc in Hk; [done|apply list_elem_of_here]. }
    by intros [= <- _].
  - destruct (generate_each_fallback L Vs s HL) as (fs & s1 & -> & Hf).
    { intros V f Hin Hk. rewrite Hc in Hk; [done|].
      simpl. by apply list_elem_of_fmap_2. }
    by intros [= <- _].
Qed.

(** The second pass, followed up to an entry whose keys are met nowhere
    else: the entry is replaced on a cache that holds, under its keys, what
    the pass started with. *)
Lemma second_pass_entry Le ve items : forall acc s out s',
  second_pass P items acc s = (Ok out, s') ->
  NoDup (keys items) ->
  (Le, ve) ∈ items -> is_patient_label Le = false ->
  (forall L v k, (L, v) ∈ items -> L <> Le -> k ∈ entry_keys Le ve -> k ∉ entry_keys L v) ->
  exists s_e fe s_e',
    (forall k, k ∈ entry_keys Le ve ->
               replacement_cache s_e !! k = replacement_cache s !! k) /\
    replace_entry P Le ve s_e = (Ok fe, s_e') /\
    dict_get Le out = Some fe.
Proof.
  induction items as [|[L v] items IH]; intros acc s out s' H Hnd Hin HLe Hkeys.
  { by apply elem_of_nil in Hin. }
  change (keys ((L, v) :: items)) with (L :: keys items) in Hnd.
  apply NoDup_cons in Hnd as [HL Hnd]. simpl in H.
  assert (Hnot : forall x, (L, x) ∉ items).
  { intros x Hx. apply HL. by apply (list_elem_of_fmap_2 fst) in Hx. }
  apply elem_of_cons in Hin as [[= <- <-]|Hin].
  - rewrite HLe in H. simpl in H. unfold mbind in H.
    destruct (replace_entry P Le ve s) as [[fe|err] s1] eqn:He; [|done].
    exists s, fe, s1. split; [done|]. split; [done|].
    erewrite second_pass_get; [apply dict_get_set_eq|done|].
    intros x Hx. by destruct (Hnot x).
  - assert (L <> Le) as Hne by (intros ->; by destruct (Hnot ve)).
    assert (forall L' v' k, (L', v') ∈ items -> L' <> Le -> k ∈ entry_keys Le ve ->
                            k ∉ entry_keys L' v') as Hkeys'.
    { intros L' v' k Hin'. apply (Hkeys L' v' k). by apply list_elem_of_further. }
    destruct (is_patient_label L && dict_mem L acc); [by eapply IH|].
    unfold mbind in H.
    pose proof (fun k Hk => replace_entry_cache_frame P L v s k
                              (Hkeys L v k (list_elem_of_here _ _) Hne Hk)) as Hc.
    destruct (replace_entry P L v s) as [[fv|err] s1]; [|done]. simpl in Hc.
    destruct (IH _ _ _ _ H Hnd Hin HLe Hkeys') as (s_e & fe & s_e' & Hce & He & Hget).
    exists s_e, fe, s_e'. split; [|done].
    intros k Hk. rewrite (Hce k Hk). by apply Hc.
Qed.

(** The first pass leaves the cache under the keys of an entry that shares
    none with the patient entry. *)
Lemma first_pass_cache_frame m s fj s1 (ks : list string) :
  first_pass P m [] s = (Ok fj, s1) ->
  (forall L v k, (L, v) ∈ m -> is_patient_label L = true -> k ∈ ks -> k ∉ entry_keys L v) ->
  forall k, k ∈ ks -> replacement_cache s1 !! k = replacement_cache s !! k.
Proof.
  intros H Hkeys k Hk.
  destruct (split_first_patient m) as [[[pre [Lp vp]] post]|] eqn:Hsp.
  - destruct (split_first_patient_Some _ _ _ _ _ Hsp) as (Hm & HLp & _).
    destruct (first_pass_anchor P m s fj s1 _ _ _ _ Hsp H) as (fv & _ & _ & Hc).
    apply Hc, (Hkeys Lp vp k); [|done|done].
    rewrite Hm. apply elem_of_app. right. apply list_elem_of_here.
  - apply split_first_patient_None in Hsp.
    rewrite (first_pass_nothing P m s Hsp) in H. by simplify_eq.
Qed.

(** The batch on an entry of a label without a branch. *)
Lemma replace_pii_json_fallback m s out s' L v :
  replace_pii_json P m s = (Ok out, s') ->
  NoDup (keys m) -> (L, v) ∈ m ->
  is_unrecognized_label L = true ->
  (forall k, k ∈ entry_keys L v -> replacement_cache s !! k = None) ->
  (forall L' v' k, (L', v') ∈ m -> L' <> L -> k ∈ entry_keys L v -> k ∉ entry_keys L' v') ->
  exists fv, dict_get L out = Some fv /\ fallback_entry L v fv.
Proof.
  intros H Hnd Hin HL Hmiss Hkeys.
  pose proof (unrecognized_label_not_patient L HL) as HLp.
  unfold replace_pii_json, mbind in H. simpl in H.
  set (s0 := Build_St _ _ _) in H.
  destruct (first_pass P m [] s0) as [[fj|e] s1] eqn:H1; [|done].
  pose proof (first_pass_cache_frame m s0 fj s1 (entry_keys L v) H1) as Hc1.
  destruct (second_pass_entry L v m fj s1 out s' H Hnd Hin HLp Hkeys)
    as (s_e & fe & s_e' & Hce & He & Hget).
  exists fe. split; [done|].
  apply (replace_entry_fallback L v s_e fe s_e' HL); [|done].
  intros k Hk. rewrite (Hce k Hk), Hc1; [by apply Hmiss| |done].
  intros L' v' k' Hin' HL' Hk'. apply (Hkeys L' v' k' Hin'); [|done].
  intros ->. congruence.
Qed.
End Fallback.

Lemma demo_batch_NoDup :
  NoDup (keys [("error", Scalar "PII Detection failed: boom");
               ("Patient Name", Scalar "Mr. Ravi Kumar");
               ("blood group", Seq ["O+"; "AB-"])]).
Proof. apply (bool_decide_unpack _). vm_compute. exact I. Qed.

(** C10 (amended). The mapping [replace_pii_json] returns has the labels of
    its input, all of them and no other, and it does return when the
    provider's names are never blank and the cache holds usable values. An
    entry of the input whose label no branch of the generator tests for (an
    "error" label is one), whose pairs are not cached and whose cache keys
    no other entry uses, is replaced in the returned mapping value by value,
    a scalar by a scalar and a sequence element by element: a value whose
    lower-cased text contains one of the six insurer words by one of the nine
    insurer names, and only the other values by the placeholder
    "[FAKE_" label "]", the label (of ASCII characters) upper-cased with
    every character outside A-Z, 0-9 and _ turned into an underscore. *)
Theorem C10_key_set_preserved :
  forall (World : Type) (P : Providers World) (m : dict) (s : St World),
    (forall out s',
        replace_pii_json P m s = (Ok out, s') ->
        (forall k, k ∈ keys out <-> k ∈ keys m) /\ NoDup (keys out))
    /\ (names_nonblank P -> cache_usable s ->
        exists out s', replace_pii_json P m s = (Ok out, s'))
    /\ (forall out s' L v,
          replace_pii_json P m s = (Ok out, s') ->
          NoDup (keys m) -> (L, v) ∈ m ->
          isascii L = true -> is_unrecognized_label L = true ->
          (forall k, k ∈ entry_keys L v -> replacement_cache s !! k = None) ->
          (forall L' v' k, (L', v') ∈ m -> L' <> L ->
                           k ∈ entry_keys L v -> k ∉ entry_keys L' v') ->
          exists fv, dict_get L out = Some fv /\ fallback_entry L v fv).
Proof.
  intros World P m s. split; [|split].
  - intros out s' H. by eapply replace_pii_json_keys.
  - intros Hn Hs. apply replace_pii_json_returns. by right.
  - intros out s' L v H Hnd Hin _ HL Hmiss Hkeys.
    by eapply replace_pii_json_fallback.
Qed.

Lemma C10_key_set_preserved_witness :
  let m := [("error", Scalar "PII Detection failed: boom");
            ("Patient Name", Scalar "Mr. Ravi Kumar");
            ("blood group", Seq ["O+"; "AB-"])] in
  let out := [("Patient Name", Scalar "Ravi Kumar");
              ("error", Scalar "[FAKE_ERROR]");
              ("blood group", Seq ["[FAKE_BLOOD_GROUP]"; "[FAKE_BLOOD_GROUP]"])] in
  ((forall k, k ∈ keys out <-> k ∈ keys m) /\ NoDup (keys out))
  /\ (exists out' s', replace_pii_json Demo.providers m (init 0) = (Ok out', s'))
  /\ (exists fv, dict_get "blood group" out = Some fv /\
                 fallback_entry "blood group" (Seq ["O+"; "AB-"]) fv).
Proof.
  intros m out.
  pose proof (C10_key_set_preserved nat Demo.providers m (init 0)) as (Hkeys & Hret & Hfb).
  assert (replace_pii_json Demo.providers m (init 0)
          = (Ok out, snd (replace_pii_json Demo.providers m (init 0)))) as Hrun.
  { vm_compute. reflexivity. }
  split; [exact (Hkeys _ _ Hrun)|].
  split; [apply Hret; [apply demo_names_nonblank|apply init_cache_usable]|].
  apply (Hfb _ _ "blood group" (Seq ["O+"; "AB-"]) Hrun).
  - apply demo_batch_NoDup.
  - apply list_elem_of_In. cbv. tauto.
  - reflexivity.
  - reflexivity.
  - intros k _. apply lookup_empty.
  - intros L' v' k Hin Hne Hk Hk'.
    apply list_elem_of_In in Hin. cbv [m In] in Hin.
    destruct Hin as [[= <- <-]|[[= <- <-]|[[= <- <-]|[]]]]; [..|done];
      vm_compute in Hk, Hk';
      apply list_elem_of_In in Hk, Hk'; cbv [In] in Hk, Hk';
      destruct Hk' as [<-|[]]; destruct Hk as [Hk|[Hk|[]]]; discriminate Hk.
Defined.

(** C10 as stated fails on a label without a branch whose value holds an
    insurer word: the test of line 141 comes before the fallback, so
    "medical facility", a label of the detector, with the value
    "City General Hospital" receives an insurer name, and so does an "error"
    label with the message of a missing file named medical_report.pdf;
    neither receives the placeholder. *)
Lemma C10_counterexample :
  is_unrecognized_label "medical facility" = true
  /\ fst (replace_pii_json Demo.providers
            [("medical facility", Scalar "City General Hospital")] (init 0))
     = Ok [("medical facility", Scalar "Apollo Munich Health Insurance")]
  /\ "Apollo Munich Health Insurance" <> "[FAKE_" +:+ safe_label "medical facility" +:+ "]"
  /\ is_unrecognized_label "error" = true
  /\ fst (replace_pii_json Demo.providers
            [("error", Scalar "Error: File 'medical_report.pdf' not found")] (init 0))
     = Ok [("error", Scalar "Apollo Munich Health Insurance")]
  /\ "Apollo Munich Health Insurance" <> "[FAKE_" +:+ safe_label "error" +:+ "]".
Proof. vm_compute. repeat split; congruence. Qed.

(** A batch with an "error" label and a sequence under a label without a
    branch: insurer names for the values with an insurer word, the same name
    for the same value, and the placeholder for the other value. *)
Example replace_error_and_insurers :
  fst (replace_pii_json Demo.providers
         [("error", Scalar "Error: File 'medical_report.pdf' not found");
          ("Patient Name", Scalar "Mr. Ravi Kumar");
          ("insurer", Seq ["Star Health"; "none"; "Star Health"])] (init 0))
  = Ok [("Patient Name", Scalar "Ravi Kumar");
        ("error", Scalar "HDFC Life Insurance");
        ("insurer", Seq ["Max Life Insurance"; "[FAKE_INSURER]"; "Max Life Insurance"])].
Proof. vm_compute. reflexivity. Qed.

(** The mapping of the specification's example, on a fresh instance: a male
    name and a hospital identifier of the fixed shape. *)
Example replace_patient_and_hospital :
  fst (replace_pii_json Demo.providers
         [("Patient Name", Scalar "Mr. Ravi Kumar"); ("Hospital ID", Scalar "HOSP1234567")]
         (init 0))
  = Ok [("Patient Name", Scalar "Ravi Kumar"); ("Hospital ID", Scalar "HOSP-1000001")].
Proof. vm_compute. reflexivity. Qed.

(** ** The text extractor and the detection adapter *)

Import Extractor Detector.

Section ExtractorFacts.
Context {Image : Type}.
Variable E : Env Image.

Lemma direct_loop_spec pages : forall full_text text_found,
  direct_loop pages full_text text_found =
    (full_text ++ List.filter nonempty (map strip pages),
     text_found || existsb nonempty (map strip pages)).
Proof.
  induction pages as [|page pages IH]; intros full_text text_found; simpl.
  - by rewrite app_nil_r, orb_false_r.
  - destruct (nonempty (strip page)); rewrite IH; simpl.
    + by rewrite <- app_assoc, orb_true_r.
    + done.
Qed.

Lemma ocr_loop_trace image configs : forall best_text,
  snd (ocr_loop E image configs best_text) = map (EvOCR image) configs.
Proof.
  induction configs as [|config configs IH]; intros best_text; simpl; [done|].
  specialize (IH (match image_to_string E image config with
                  | Done text =>
                      if (String.length (strip best_text) <? String.length (strip text))%nat
                      then text else best_text
                  | Raised _ => best_text
                  end)).
  destruct (ocr_loop E image configs _) as [final tr]. simpl in *. by rewrite IH.
Qed.

Lemma ocr_pages_trace pages : forall ocr_texts,
  snd (ocr_pages E pages ocr_texts) =
    flat_map (fun page => [EvOCR page "--oem 3 --psm 6"; EvOCR page "--oem 3 --psm 3"]) pages.
Proof.
  induction pages as [|page pages IH]; intros ocr_texts; [done|].
  cbn [ocr_pages flat_map].
  pose proof (ocr_loop_trace page ["--oem 3 --psm 6"; "--oem 3 --psm 3"] "") as Hl.
  destruct (ocr_loop E page _ "") as [best tr]. simpl in Hl. subst tr.
  specialize (IH (if nonempty (clean_lines best) then ocr_texts ++ [clean_lines best]
                  else ocr_texts)).
  destruct (ocr_pages E pages _) as [texts tr']. simpl in IH. by rewrite IH.
Qed.

Lemma ocr_calls_flat_map (pages : list Image) :
  ocr_calls (flat_map (fun page => [EvOCR page "--oem 3 --psm 6";
                                    EvOCR page "--oem 3 --psm 3"]) pages)
  = flat_map (fun page => [(page, "--oem 3 --psm 6"); (page, "--oem 3 --psm 3")]) pages.
Proof. induction pages as [|page pages IH]; simpl; [done|]. by rewrite IH. Qed.

Lemma members_ocr_events (tr : list (event Image)) :
  Forall (fun ev => exists image config, ev = EvOCR image config) tr -> members tr = [].
Proof. induction 1 as [|ev tr (image & config & ->) _ IH]; simpl; done. Qed.

Lemma members_app (tr tr' : list (event Image)) :
  members (tr ++ tr') = members tr ++ members tr'.
Proof.
  induction tr as [|[image config|p] tr IH]; simpl; [done|done|]. by rewrite IH.
Qed.

Lemma members_image p : members (snd (_extract_from_image E p)) = [].
Proof.
  unfold _extract_from_image. destruct (Image_open E p) as [image|msg]; [|done].
  pose proof (ocr_loop_trace image
                ["--oem 3 --psm 6"; "--oem 3 --psm 3"; "--oem 3 --psm 1"] "") as Hl.
  destruct (ocr_loop E image _ "") as [best tr]. simpl in *. by subst tr.
Qed.

Lemma members_pdf p : members (snd (_extract_from_pdf E p)) = [].
Proof.
  unfold _extract_from_pdf. destruct (fitz_open E p) as [doc|msg]; [|done].
  destruct (direct_loop doc [] false) as [full_text [|]]; [done|].
  destruct (convert_from_path E p 1 5) as [pages|msg]; [|done].
  pose proof (ocr_pages_trace pages []) as Hp.
  destruct (ocr_pages E pages []) as [texts tr]. simpl in Hp. subst tr.
  assert (members (flat_map (fun page : Image =>
             [EvOCR page "--oem 3 --psm 6"; EvOCR page "--oem 3 --psm 3"]) pages) = [])
    as Hm by (induction pages; done).
  by destruct texts.
Qed.

(** A file that is not an archive is extracted without recursion. *)
Lemma extract_text_not_archive n p :
  splitext_ext (lower p) <> ".zip" ->
  exists text tr, extract_text E (S n) p = Some (text, tr) /\ members tr = [].
Proof.
  intros Hext. cbn [extract_text].
  destruct (path_exists E p); cbn [negb]; [|eauto].
  set (ext := splitext_ext (lower p)) in *.
  destruct (mem ext images);
    [eexists _, _; split; [f_equal; apply surjective_pairing|apply members_image]|].
  destruct (mem ext pdfs);
    [eexists _, _; split; [f_equal; apply surjective_pairing|apply members_pdf]|].
  destruct (mem ext word).
  { unfold _extract_from_word. destruct (Document E p); eauto. }
  destruct (mem ext excel).
  { unfold _extract_from_excel.
    destruct (if endswith (lower p) ".csv" then _ else _); eauto. }
  unfold archives, mem. cbn [existsb]. rewrite orb_false_r.
  destruct (String.eqb_spec ext ".zip"); [done|eauto].
Qed.

Lemma member_loop_members n temp_dir ms : forall acc,
  exists texts tr,
    member_loop E (extract_text E (S n)) temp_dir ms acc = Some (texts, tr) /\
    members tr
    = List.filter (fun p => negb (String.eqb (splitext_ext (lower p)) ".zip")) ms.
Proof.
  induction ms as [|p ms IH]; intros acc; [by eexists _, _|].
  cbn [member_loop List.filter].
  destruct (String.eqb_spec (splitext_ext (lower p)) ".zip") as [Heq|Hne]; cbn [negb].
  - apply IH.
  - destruct (extract_text_not_archive n p Hne) as (text & tr & -> & Hm).
    destruct (IH (if negb (startswith text "Error:") && nonempty (strip text)
                  then acc ++ ["=== FILE: " +:+ relpath E p temp_dir +:+ " ==="; text; ""]
                  else acc)) as (texts & tr' & -> & Hm').
    eexists _, _. split; [done|]. simpl. by rewrite members_app, Hm, Hm'.
Qed.

Lemma extracted_files_elem (walk : list (string * list string)) p :
  p ∈ extracted_files walk ->
  exists root files file,
    (root, files) ∈ walk /\ file ∈ files /\ p = path_join root file /\
    mem (splitext_ext (lower file)) all_supported = true /\
    splitext_ext (lower file) <> ".zip".
Proof.
  unfold extracted_files. rewrite list_elem_of_In, in_flat_map.
  intros ([root files] & Hrf & Hp). apply in_flat_map in Hp as (file & Hfile & Hp).
  destruct (mem _ all_supported) eqn:Hs; simpl in Hp; [|done].
  destruct (String.eqb_spec (splitext_ext (lower file)) ".zip") as [|Hne]; simpl in Hp;
    [done|].
  destruct Hp as [<-|[]]. exists root, files, file.
  rewrite !list_elem_of_In. auto.
Qed.
End ExtractorFacts.

(** C6. A PDF with a page whose text layer is not blank is extracted without
    OCR, as its non-blank page texts, trimmed and joined by a blank line; a
    PDF without such a page has OCR run on its first five pages at most, in
    two configurations each. *)
Theorem C6_pdf_ocr_only_without_text :
  forall (Image : Type) (E : Env Image) (pdf_path : string) (doc : list string),
    fitz_open E pdf_path = Done doc ->
    (existsb nonempty (map strip doc) = true ->
     _extract_from_pdf E pdf_path
     = (join (String "010" (String "010" "")) (List.filter nonempty (map strip doc)), []))
    /\ (existsb nonempty (map strip doc) = false ->
        ocr_calls (snd (_extract_from_pdf E pdf_path))
        = match rasterize E pdf_path with
          | Done pages =>
              flat_map (fun page => [(page, "--oem 3 --psm 6"); (page, "--oem 3 --psm 3")])
                (firstn 5 pages)
          | Raised _ => []
          end
        /\ length (ocr_calls (snd (_extract_from_pdf E pdf_path))) <= 2 * 5).
Proof.
  intros Image E pdf_path doc Hopen. unfold _extract_from_pdf. rewrite Hopen.
  rewrite direct_loop_spec. simpl. split; intros Hfound; rewrite Hfound; [done|].
  unfold convert_from_path.
  destruct (rasterize E pdf_path) as [pages|msg]; [|simpl; split; [done|lia]].
  change (firstn (5 - 1 + 1) (skipn (1 - 1) pages)) with (firstn 5 pages).
  cbn match. pose proof (ocr_pages_trace E (firstn 5 pages) []) as Hp.
  destruct (ocr_pages E (firstn 5 pages) []) as [texts tr]. simpl in Hp. subst tr.
  assert (forall ps : list Image, length ps <= 5 ->
            length (flat_map (fun page : Image =>
                      [(page, "--oem 3 --psm 6"); (page, "--oem 3 --psm 3")]) ps) <= 10)
    as Hlen.
  { intros ps Hps. rewrite (flat_map_constant_length (c := 2)); [lia|done]. }
  destruct texts; cbn [snd]; rewrite ocr_calls_flat_map;
    (split; [done|apply Hlen, firstn_le_length]).
Qed.

(** C7. The members of an archive handed to [extract_text] are at most ten,
    none has the extension of an archive, and each is a file of the unpacked
    tree whose extension is supported. *)
Theorem C7_zip_members_bounded :
  forall (Image : Type) (E : Env Image) (zip_path : string) (n : nat),
    exists text tr,
      _extract_from_zip E (extract_text E (S n)) zip_path = Some (text, tr) /\
      length (members tr) <= 10 /\
      Forall (fun p =>
                splitext_ext (lower p) <> ".zip" /\
                exists temp_dir walk root files file,
                  unzip_walk E zip_path = Done (temp_dir, walk) /\
                  (root, files) ∈ walk /\ file ∈ files /\ p = path_join root file /\
                  mem (splitext_ext (lower file)) all_supported = true /\
                  splitext_ext (lower file) <> ".zip")
             (members tr).
Proof.
  intros Image E zip_path n. unfold _extract_from_zip.
  destruct (unzip_walk E zip_path) as [[temp_dir walk]|msg] eqn:Hunzip.
  2: { eexists _, _. split; [done|]. simpl. split; [lia|constructor]. }
  destruct (member_loop_members E n temp_dir (firstn 10 (extracted_files walk)) [])
    as (texts & tr & -> & Hm).
  exists (match texts with
          | [] => "No text could be extracted from files in ZIP archive"
          | _ => join (String "010" "") texts
          end), tr.
  split; [by destruct texts|]. rewrite Hm. split.
  - etrans; [apply List.filter_length_le|]. apply firstn_le_length.
  - apply Forall_forall. intros p Hp.
    apply list_elem_of_In, filter_In in Hp as [Hp Hext]. split.
    + intros Heq. rewrite Heq in Hext. done.
    + apply list_elem_of_In in Hp.
      assert (p ∈ extracted_files walk) as Hp'.
      { rewrite <- (firstn_skipn 10 (extracted_files walk)). apply elem_of_app. by left. }
      destruct (extracted_files_elem walk p Hp') as (root & files & file & ?).
      exists temp_dir, walk, root, files, file. auto.
Qed.

Lemma C6_pdf_ocr_only_without_text_witness :
  _extract_from_pdf Demo.env "report.pdf"
  = (join (String "010" (String "010" ""))
       (List.filter nonempty
          (map strip ["Discharge summary  "; "   "; "Follow-up in two weeks"])), [])
  /\ ocr_calls (snd (_extract_from_pdf Demo.env "scan.pdf"))
     = flat_map (fun page => [(page, "--oem 3 --psm 6"); (page, "--oem 3 --psm 3")])
         (firstn 5 [1; 2; 3; 4; 5; 6; 7]).
Proof.
  split.
  - apply (C6_pdf_ocr_only_without_text nat Demo.env "report.pdf"
             ["Discharge summary  "; "   "; "Follow-up in two weeks"] eq_refl).
    reflexivity.
  - apply (C6_pdf_ocr_only_without_text nat Demo.env "scan.pdf"
             [""; " "; ""; ""; ""; ""; ""] eq_refl).
    reflexivity.
Defined.

Example splitext_run :
  splitext_ext "/tmp/x/report.final.pdf" = ".pdf" /\ splitext_ext "/tmp/x.d/notes" = EmptyString
  /\ splitext_ext "/tmp/.bashrc" = EmptyString /\ basename "/tmp/x/a.pdf" = "a.pdf"
  /\ path_join "/tmp/x" "a.pdf" = "/tmp/x/a.pdf".
Proof. repeat split; reflexivity. Qed.

(** An archive of fourteen files, twelve of them supported and one a nested
    archive: ten members are extracted, the nested archive is not among them. *)
Example zip_of_fourteen_files :
  option_map (fun r => members (snd r)) (extract_text Demo.env 2 "all.zip")
  = Some ["/tmp/tmpa1/f01.pdf"; "/tmp/tmpa1/f02.pdf"; "/tmp/tmpa1/f03.pdf";
          "/tmp/tmpa1/f04.pdf"; "/tmp/tmpa1/f05.pdf"; "/tmp/tmpa1/f06.pdf";
          "/tmp/tmpa1/f07.pdf"; "/tmp/tmpa1/f08.pdf"; "/tmp/tmpa1/f09.pdf";
          "/tmp/tmpa1/f10.pdf"].
Proof. vm_compute. reflexivity. Qed.

Lemma extract_text_S {Image} (E : Env Image) n p :
  extract_text E (S n) p =
    if negb (path_exists E p)
    then Some ("Error: File '" +:+ p +:+ "' not found", [])
    else
      if mem (splitext_ext (lower p)) images then Some (_extract_from_image E p)
      else if mem (splitext_ext (lower p)) pdfs then Some (_extract_from_pdf E p)
      else if mem (splitext_ext (lower p)) word then Some (_extract_from_word E p)
      else if mem (splitext_ext (lower p)) excel then Some (_extract_from_excel E p)
      else if mem (splitext_ext (lower p)) archives
      then _extract_from_zip E (extract_text E n) p
      else Some ("Error: Unsupported file format '" +:+ splitext_ext (lower p) +:+ "'", []).
Proof. reflexivity. Qed.

(** Two units of fuel are enough for every file: archives do not nest. *)
Lemma extract_text_returns {Image} (E : Env Image) n p :
  exists text tr, extract_text E (S (S n)) p = Some (text, tr).
Proof.
  rewrite extract_text_S.
  destruct (path_exists E p); cbn [negb]; [|eauto].
  set (ext := splitext_ext (lower p)).
  destruct (mem ext images); [eexists _, _; f_equal; apply surjective_pairing|].
  destruct (mem ext pdfs); [eexists _, _; f_equal; apply surjective_pairing|].
  destruct (mem ext word); [eexists _, _; f_equal; apply surjective_pairing|].
  destruct (mem ext excel); [eexists _, _; f_equal; apply surjective_pairing|].
  destruct (mem ext archives); [|eauto].
  unfold _extract_from_zip.
  destruct (unzip_walk E p) as [[temp_dir walk]|msg]; [|eauto].
  destruct (member_loop_members E n temp_dir (firstn 10 (extracted_files walk)) [])
    as (texts & tr & -> & _).
  destruct texts; eauto.
Qed.

(** C2 (where the code departs from it). A strategy that faults returns a
    message that does not begin with "Error:", the one prefix the callers
    test: an image that cannot be opened yields "OCR Error: ...", on which
    [extract_pii_from_file] runs the detection as on extracted text; the
    messages of the other strategies fail the test as well. *)
Theorem C2_strategy_fault_not_flagged :
  forall (Image Threshold : Type)
         (model : option (string -> list string -> Threshold -> lib_result (list entity)))
         (E : Env Image) (file_path msg : string) (n : nat) (threshold : Threshold),
    path_exists E file_path = true ->
    mem (splitext_ext (lower file_path)) images = true ->
    Image_open E file_path = Raised msg ->
    extract_text E (S n) file_path = Some ("OCR Error: " +:+ msg, [])
    /\ startswith ("OCR Error: " +:+ msg) "Error:" = false
    /\ extract_pii_from_file model E (S n) file_path threshold
       = Some (extract_pii_from_text model ("OCR Error: " +:+ msg) threshold)
    /\ startswith ("Error processing PDF: " +:+ msg) "Error:" = false
    /\ startswith ("PDF OCR failed: " +:+ msg) "Error:" = false
    /\ startswith ("Error processing Word document: " +:+ msg) "Error:" = false
    /\ startswith ("Error processing Excel file: " +:+ msg) "Error:" = false
    /\ startswith ("Error processing ZIP file: " +:+ msg) "Error:" = false.
Proof.
  intros Image Threshold model E file_path msg n threshold Hexists Hext Hopen.
  assert (extract_text E (S n) file_path = Some ("OCR Error: " +:+ msg, [])) as Htext.
  { rewrite extract_text_S, Hexists, Hext. cbn [negb].
    unfold _extract_from_image. by rewrite Hopen. }
  split; [exact Htext|]. split; [reflexivity|]. split.
  - unfold extract_pii_from_file. rewrite Htext. reflexivity.
  - repeat split; reflexivity.
Qed.

Lemma C2_strategy_fault_not_flagged_witness :
  extract_text Demo.env 1 "broken.png"
  = Some ("OCR Error: cannot identify image file", [])
  /\ extract_pii_from_file Demo.model Demo.env 1 "broken.png" tt
     = Some [("Patient Name", Seq ["Mr. Ravi Kumar"; "Ravi"]);
             ("email", Scalar "ravi@mail.in")].
Proof.
  destruct (C2_strategy_fault_not_flagged nat unit Demo.model Demo.env "broken.png"
              "cannot identify image file" 0 tt eq_refl eq_refl eq_refl)
    as (Htext & _ & Hpii & _).
  split; [exact Htext|]. rewrite Hpii. reflexivity.
Defined.

(** ** The normalisation of the entity list *)

Lemma dict_get_mem L (d : dict) : dict_mem L d = true -> exists v, dict_get L d = Some v.
Proof.
  unfold dict_mem. induction d as [|[k v] d IH]; simpl; [done|].
  destruct (String.eqb_spec L k); simpl; eauto.
Qed.

Lemma dict_get_not_mem L (d : dict) : dict_mem L d = false -> dict_get L d = None.
Proof.
  unfold dict_mem. induction d as [|[k v] d IH]; simpl; [done|].
  destruct (String.eqb_spec L k); simpl; eauto. done.
Qed.

Lemma first_appearances_ext seen seen' labels :
  (forall x, existsb (String.eqb x) seen = existsb (String.eqb x) seen') ->
  first_appearances seen labels = first_appearances seen' labels.
Proof.
  revert seen seen'. induction labels as [|L labels IH]; intros seen seen' H; simpl; [done|].
  rewrite <- H. destruct (existsb (String.eqb L) seen); [by apply IH|].
  f_equal. apply IH. intros x. simpl. by rewrite H.
Qed.

Lemma contents_set_eq L v (d : dict) :
  contents L (dict_set L v d) = match v with Scalar x => [x] | Seq l => l end.
Proof. unfold contents. by rewrite dict_get_set_eq. Qed.

Lemma contents_set_ne L L' v (d : dict) :
  L' <> L -> contents L' (dict_set L v d) = contents L' d.
Proof. intros H. unfold contents. by rewrite dict_get_set_ne. Qed.

Lemma collapse_spec entities : forall acc,
  seqs_promoted acc ->
  keys (collapse entities acc)
  = keys acc ++ first_appearances (keys acc) (map label entities)
  /\ (forall L, contents L (collapse entities acc) = contents L acc ++ texts_of L entities)
  /\ seqs_promoted (collapse entities acc).
Proof.
  induction entities as [|e rest IH]; intros acc Hacc.
  { simpl. split; [by rewrite app_nil_r|]. split; [|done].
    intros L. unfold texts_of. simpl. by rewrite app_nil_r. }
  cbn [collapse map first_appearances].
  fold (dict_mem (label e) acc).
  assert (Htexts : forall L, texts_of L (e :: rest)
            = (if String.eqb (label e) L then [text e] else []) ++ texts_of L rest).
  { intros L. unfold texts_of. simpl. by destruct (String.eqb (label e) L). }
  (* what one step has to establish *)
  assert (Hstep : forall acc',
            keys acc' = (if dict_mem (label e) acc then keys acc else keys acc ++ [label e]) ->
            (forall L, contents L acc'
                       = contents L acc ++ (if String.eqb (label e) L then [text e] else [])) ->
            seqs_promoted acc' ->
            keys (collapse rest acc')
            = keys acc ++ (if dict_mem (label e) acc
                           then first_appearances (keys acc) (map label rest)
                           else label e :: first_appearances (label e :: keys acc)
                                             (map label rest))
            /\ (forall L, contents L (collapse rest acc')
                          = contents L acc ++ texts_of L (e :: rest))
            /\ seqs_promoted (collapse rest acc')).
  { intros acc' Hkeys Hcont Hacc'.
    destruct (IH acc' Hacc') as (IHk & IHc & IHs).
    split; [|split; [|done]].
    - rewrite IHk, Hkeys. destruct (dict_mem (label e) acc); [done|].
      rewrite <- app_assoc. simpl. do 2 f_equal.
      apply first_appearances_ext. intros x. rewrite existsb_app. simpl.
      rewrite orb_false_r. apply orb_comm.
    - intros L. by rewrite IHc, Hcont, Htexts, <- app_assoc. }
  destruct (dict_mem (label e) acc) eqn:Hmem.
  - destruct (dict_get_mem _ _ Hmem) as [v Hv]. rewrite Hv.
    destruct v as [x|l0]; apply Hstep.
    + by rewrite keys_dict_set, Hmem.
    + intros L. destruct (String.eqb_spec (label e) L) as [<-|Hne].
      * rewrite contents_set_eq. unfold contents. by rewrite Hv.
      * rewrite contents_set_ne by done. by rewrite app_nil_r.
    + intros L l. destruct (String.eqb_spec L (label e)) as [->|Hne].
      * rewrite dict_get_set_eq. intros [= <-]. simpl. lia.
      * rewrite dict_get_set_ne by done. apply Hacc.
    + by rewrite keys_dict_set, Hmem.
    + intros L. destruct (String.eqb_spec (label e) L) as [<-|Hne].
      * rewrite contents_set_eq. unfold contents. by rewrite Hv.
      * rewrite contents_set_ne by done. by rewrite app_nil_r.
    + intros L l. destruct (String.eqb_spec L (label e)) as [->|Hne].
      * rewrite dict_get_set_eq. intros [= <-]. rewrite length_app. simpl.
        pose proof (Hacc _ _ Hv). lia.
      * rewrite dict_get_set_ne by done. apply Hacc.
  - pose proof (dict_get_not_mem _ _ Hmem) as Hnone. apply Hstep.
    + by rewrite keys_dict_set, Hmem.
    + intros L. destruct (String.eqb_spec (label e) L) as [<-|Hne].
      * rewrite contents_set_eq. unfold contents. by rewrite Hnone.
      * rewrite contents_set_ne by done. by rewrite app_nil_r.
    + intros L l. destruct (String.eqb_spec L (label e)) as [->|Hne].
      * by rewrite dict_get_set_eq.
      * rewrite dict_get_set_ne by done. apply Hacc.
Qed.

(** C8. The mapping built from the entity list has one entry per label, in
    the order in which the labels appear first; the entry of a label holds
    every value of that label, in the order of the list; it is a scalar when
    the label occurs once and a sequence when it occurs more often; no value
    is lost. *)
Theorem C8_collapse_by_label :
  forall (entities : list entity),
    keys (collapse entities []) = first_appearances [] (map label entities)
    /\ (forall L, contents L (collapse entities []) = texts_of L entities)
    /\ (forall L,
          match dict_get L (collapse entities []) with
          | Some (Scalar x) => texts_of L entities = [x]
          | Some (Seq l) => texts_of L entities = l /\ 2 <= length l
          | None => texts_of L entities = []
          end)
    /\ (forall e, e ∈ entities -> text e ∈ contents (label e) (collapse entities [])).
Proof.
  intros entities.
  destruct (collapse_spec entities []) as (Hk & Hc & Hs); [by intros L l|].
  split; [exact Hk|]. split; [exact Hc|]. split.
  - intros L. specialize (Hc L). unfold contents in Hc. simpl in Hc.
    destruct (dict_get L (collapse entities [])) as [[x|l]|] eqn:Hget; [done| |done].
    split; [done|]. by eapply Hs.
  - intros e He. rewrite Hc. unfold texts_of.
    apply list_elem_of_fmap_2, list_elem_of_In, filter_In. split.
    + by apply list_elem_of_In.
    + apply String.eqb_refl.
Qed.

(** Three entities, two of them with the same label. *)
Example collapse_three_entities :
  collapse [{| label := "Patient Name"; text := "Mr. Ravi Kumar" |};
            {| label := "email"; text := "ravi@mail.in" |};
            {| label := "Patient Name"; text := "Ravi" |}] []
  = [("Patient Name", Seq ["Mr. Ravi Kumar"; "Ravi"]); ("email", Scalar "ravi@mail.in")].
Proof. reflexivity. Qed.

(** * Further properties of the code *)

(** ** Strings of digits and the generated formats *)

Lemma append_cons (c : ascii) (s t : string) : String c s +:+ t = String c (s +:+ t).
Proof. reflexivity. Qed.

Lemma append_nil_r (s : string) : s +:+ "" = s.
Proof. induction s as [|c s IH]; [done|]. by rewrite append_cons, IH. Qed.

Lemma append_assoc (s1 s2 s3 : string) : (s1 +:+ s2) +:+ s3 = s1 +:+ (s2 +:+ s3).
Proof. induction s1 as [|c s1 IH]; [done|]. by rewrite !append_cons, IH. Qed.

Lemma length_append (s1 s2 : string) :
  String.length (s1 +:+ s2) = String.length s1 + String.length s2.
Proof.
  induction s1 as [|c s1 IH]; [done|]. rewrite append_cons. cbn [String.length].
  by rewrite IH.
Qed.

Lemma all_chars_append p (s1 s2 : string) :
  all_chars p (s1 +:+ s2) = all_chars p s1 && all_chars p s2.
Proof.
  induction s1 as [|c s1 IH]; [done|]. rewrite append_cons. cbn [all_chars].
  by rewrite IH, andb_assoc.
Qed.

Lemma pretty_N_char_digit (x : N) : is_ascii_digit (pretty_N_char x) = true.
Proof. destruct x as [|p]; [done|]. by do 4 (try destruct p as [p|p|]). Qed.

(** The digits [pretty_N_go] puts in front of its accumulator: the leading
    one first. *)
Lemma pretty_N_go_digits (k : nat) : forall (x : N) (s : string),
  (10 ^ N.of_nat k <= x < 10 ^ N.of_nat (S k))%N ->
  exists d, pretty_N_go x s = String (pretty_N_char (x `div` 10 ^ N.of_nat k)) d +:+ s
            /\ String.length d = k /\ all_chars is_ascii_digit d = true.
Proof.
  induction k as [|k IH]; intros x s Hx.
  - change (10 ^ N.of_nat 0)%N with 1%N in *. change (10 ^ N.of_nat 1)%N with 10%N in Hx.
    rewrite pretty_N_go_step by lia.
    rewrite (N.div_small x 10) by lia. rewrite pretty_N_go_0.
    rewrite N.div_1_r, (N.mod_small x 10) by lia. by exists "".
  - assert (0 < 10 ^ N.of_nat (S k))%N as Hpos by (apply N.neq_0_lt_0, N.pow_nonzero; lia).
    assert (0 < 10 ^ N.of_nat k)%N as Hpos' by (apply N.neq_0_lt_0, N.pow_nonzero; lia).
    rewrite pretty_N_go_step by lia.
    assert (10 ^ N.of_nat (S (S k)) = 10 * 10 ^ N.of_nat (S k))%N as E2.
    { rewrite (Nat2N.inj_succ (S k)), N.pow_succ_r'. done. }
    assert (10 ^ N.of_nat (S k) = 10 * 10 ^ N.of_nat k)%N as E1.
    { rewrite (Nat2N.inj_succ k), N.pow_succ_r'. done. }
    destruct (IH (x `div` 10)%N (String (pretty_N_char (x `mod` 10)) s)) as (d & Hd & Hl & Hc).
    { split.
      - apply N.div_le_lower_bound; lia.
      - apply N.Div0.div_lt_upper_bound; lia. }
    exists (d +:+ String (pretty_N_char (x `mod` 10)) ""). split; [|split].
    + rewrite Hd, N.Div0.div_div, <- E1, !append_cons, append_assoc. done.
    + rewrite length_append, Hl. cbn [String.length]. lia.
    + rewrite all_chars_append, Hc. cbn [all_chars]. by rewrite pretty_N_char_digit.
Qed.

(** [str(n)] of an integer with [k + 1] decimal digits. *)
Lemma str_of_Z_leading (k : nat) (n : Z) :
  (10 ^ Z.of_nat k <= n < 10 ^ Z.of_nat (S k))%Z ->
  exists d, str_of_Z n = String (pretty_N_char (Z.to_N (n / 10 ^ Z.of_nat k))) d
            /\ String.length d = k /\ all_chars is_ascii_digit d = true.
Proof.
  intros Hn.
  assert (0 < 10 ^ Z.of_nat k)%Z as Hpos by (apply Z.pow_pos_nonneg; lia).
  destruct n as [|p|p]; [lia| |lia].
  unfold str_of_Z, pretty, pretty_Z, pretty, pretty_positive, pretty, pretty_N.
  destruct (decide (N.pos p = 0%N)) as [|_]; [done|].
  destruct (pretty_N_go_digits k (N.pos p) "") as (d & Hd & Hl & Hc).
  { split; [apply N2Z.inj_le|apply N2Z.inj_lt];
      rewrite N2Z.inj_pow, nat_N_Z; change (Z.of_N 10) with 10%Z;
      change (Z.of_N (N.pos p)) with (Z.pos p); lia. }
  exists d. rewrite Hd, append_nil_r. split; [|done]. f_equal. f_equal.
  apply N2Z.inj. rewrite N2Z.inj_div, N2Z.inj_pow, nat_N_Z, Z2N.id.
  - done.
  - apply Z.div_pos; lia.
Qed.

Lemma str_of_Z_digits (k : nat) (n : Z) :
  (10 ^ Z.of_nat k <= n < 10 ^ Z.of_nat (S k))%Z ->
  String.length (str_of_Z n) = S k /\ all_chars is_ascii_digit (str_of_Z n) = true.
Proof.
  intros Hn. destruct (str_of_Z_leading k n Hn) as (d & -> & Hl & Hc).
  cbn [String.length all_chars]. by rewrite Hl, Hc, pretty_N_char_digit.
Qed.

Lemma str_of_Z_digit (n : Z) :
  (0 <= n <= 9)%Z ->
  String.length (str_of_Z n) = 1 /\ all_chars is_ascii_digit (str_of_Z n) = true.
Proof.
  intros Hn. destruct (decide (n = 0%Z)) as [->|Hne]; [done|].
  apply (str_of_Z_digits 0).
  change (10 ^ Z.of_nat 0)%Z with 1%Z. change (10 ^ Z.of_nat 1)%Z with 10%Z. lia.
Qed.

Section Formats.
Context {World : Type}.
Variable P : Providers World.

Lemma randbelow_range (src : World -> N * World) (n : Z) w :
(0 < n)%Z -> (0 <= fst (randbelow src n w) < n)%Z.
Proof.
intros Hn. unfold randbelow. destruct (src w) as [r w']. cbn [fst].
apply Z.mod_pos_bound. done.
Qed.

Lemma randint_range (a b : Z) w :
(a <= b)%Z -> (a <= fst (randint P a b w) <= b)%Z.
Proof.
intros Hab. unfold randint, gbind, gret.
pose proof (randbelow_range (random_draw P) (b - a + 1) w) as H.
destruct (randbelow (random_draw P) (b - a + 1) w) as [k w']. cbn [fst] in *. lia.
Qed.

Lemma random_digits_spec (n : nat) : forall w,
String.length (fst (random_digits P n w)) = n /\
all_chars is_ascii_digit (fst (random_digits P n w)) = true.
Proof.
induction n as [|n IH]; intros w; [done|].
cbn [random_digits]. unfold gbind, gret.
pose proof (randint_range 0 9 w) as Hr.
destruct (randint P 0 9 w) as [d w1]. cbn [fst] in Hr.
specialize (IH w1). destruct (random_digits P n w1) as [ds w2]. cbn [fst] in *.
destruct (str_of_Z_digit d) as [Hl Hc]; [lia|]. destruct IH as [IHl IHc].
rewrite length_append, all_chars_append, Hl, Hc, IHl, IHc. done.
Qed.

End Formats.

(** X1. Whatever the random generator draws, [_generate_aadhaar] returns
    exactly twelve characters, each a decimal digit. *)
Theorem aadhaar_twelve_digits :
  forall {World} (P : Providers World) (w : World),
    String.length (fst (_generate_aadhaar P w)) = 12 /\
    all_chars is_ascii_digit (fst (_generate_aadhaar P w)) = true.
Proof. intros World P w. apply random_digits_spec. Qed.

(** ** The generated formats *)

(** X2. On a cache miss, a label that reaches the contact branch (it contains
    "phone number" or "mobile number" and is neither a name, a doctor nor an
    email label) is replaced by "+91-" followed by ten decimal digits, the
    first of which is 6, 7, 8 or 9. *)
Theorem phone_number_format :
  forall {World} (P : Providers World) (L V : string) (s : St World),
    is_plain_label L = true ->
    contains "phone number" (lower L) || contains "mobile number" (lower L) = true ->
    replacement_cache s !! cache_key L V = None ->
    exists c d,
      fst (generate_fake_value P L V s) = Ok ("+91-" +:+ String c d) /\
      c ∈ ["6"; "7"; "8"; "9"]%char /\
      String.length d = 9 /\ all_chars is_ascii_digit d = true.
Proof.
  intros World P L V s HL Hp Hm.
  rewrite (generate_miss_value P L V s Hm), (fresh_value_plain P L V s HL), lift_value.
  unfold other_value. rewrite Hp. unfold gbind, gret.
  pose proof (randint_range P 6000000000 9999999999 (world s)) as Hr.
  destruct (randint P 6000000000 9999999999 (world s)) as [n w']. cbn [fst] in *.
  specialize (Hr ltac:(lia)).
  destruct (str_of_Z_leading 9 n) as (d & Hd & Hl & Hc).
  { change (10 ^ Z.of_nat 9)%Z with 1000000000%Z.
    change (10 ^ Z.of_nat 10)%Z with 10000000000%Z. lia. }
  eexists _, d. rewrite Hd. split; [reflexivity|]. split; [|done].
  change (10 ^ Z.of_nat 9)%Z with 1000000000%Z.
  assert (6 <= n / 1000000000 <= 9)%Z as Hq.
  { split; [apply Z.div_le_lower_bound; lia|].
    assert (n / 1000000000 < 10)%Z; [apply Z.div_lt_upper_bound; lia|lia]. }
  assert (n / 1000000000 = 6 \/ n / 1000000000 = 7 \/ n / 1000000000 = 8
          \/ n / 1000000000 = 9)%Z as Hcases by lia.
  destruct Hcases as [E|[E|[E|E]]]; rewrite E; apply list_elem_of_In; cbv; tauto.
Qed.

Lemma phone_number_format_witness :
  exists c d,
    fst (generate_fake_value Demo.providers "Mobile Number" "98200 12345" (init 0))
    = Ok ("+91-" +:+ String c d) /\
    c ∈ ["6"; "7"; "8"; "9"]%char /\
    String.length d = 9 /\ all_chars is_ascii_digit d = true.
Proof.
  apply (phone_number_format Demo.providers "Mobile Number" "98200 12345" (init 0));
    reflexivity.
Defined.

(** X3. On a cache miss, a label that reaches the record-number branch (it
    contains "medical record number" or "mrn" and no text of an earlier
    branch) is replaced by "MRN" followed by six or by seven decimal digits:
    the width of the number is not fixed. *)
Theorem mrn_six_or_seven_digits :
  forall {World} (P : Providers World) (L V : string) (s : St World),
    is_plain_label L = true ->
    any_in ["phone number"; "mobile number"; "address"; "location"; "hospital id";
            "patient id"] (lower L) = false ->
    contains "medical record number" (lower L) || contains "mrn" (lower L) = true ->
    replacement_cache s !! cache_key L V = None ->
    exists d,
      fst (generate_fake_value P L V s) = Ok ("MRN" +:+ d) /\
      (String.length d = 6 \/ String.length d = 7) /\
      all_chars is_ascii_digit d = true.
Proof.
  intros World P L V s HL Hn Hp Hm.
  rewrite (generate_miss_value P L V s Hm), (fresh_value_plain P L V s HL), lift_value.
  unfold any_in in Hn. cbn [existsb] in Hn. rewrite orb_false_r in Hn.
  repeat (apply orb_false_elim in Hn as [? Hn]).
  unfold other_value.
  repeat match goal with H : contains _ _ = false |- _ => rewrite H; clear H end.
  cbn [orb]. rewrite Hp. unfold gbind, gret.
  pose proof (randint_range P 100000 9999999 (world s)) as Hr.
  destruct (randint P 100000 9999999 (world s)) as [n w']. cbn [fst] in *.
  specialize (Hr ltac:(lia)).
  exists (str_of_Z n). split; [done|].
  destruct (Z_lt_le_dec n 1000000) as [Hlt|Hge].
  - destruct (str_of_Z_digits 5 n) as [Hl Hc]; [|by auto].
    change (10 ^ Z.of_nat 5)%Z with 100000%Z. change (10 ^ Z.of_nat 6)%Z with 1000000%Z. lia.
  - destruct (str_of_Z_digits 6 n) as [Hl Hc]; [|by auto].
    change (10 ^ Z.of_nat 6)%Z with 1000000%Z. change (10 ^ Z.of_nat 7)%Z with 10000000%Z. lia.
Qed.

Lemma mrn_six_or_seven_digits_witness :
  exists d,
    fst (generate_fake_value Demo.providers "Medical Record Number" "MRN-0042" (init 0))
    = Ok ("MRN" +:+ d) /\
    (String.length d = 6 \/ String.length d = 7) /\
    all_chars is_ascii_digit d = true.
Proof.
  apply (mrn_six_or_seven_digits Demo.providers "Medical Record Number" "MRN-0042" (init 0));
    reflexivity.
Defined.

(** Both widths occur. *)
Example mrn_widths_run :
  fst (generate_fake_value Demo.providers "MRN" "a" (init 0)) = Ok "MRN100000" /\
  fst (generate_fake_value Demo.providers "MRN" "a" (init (900 * 1000))) = Ok "MRN1000000".
Proof. split; vm_compute; reflexivity. Qed.

(** ** The two character filters *)

Lemma all_chars_map_chars (q : ascii -> bool) (f : ascii -> ascii) (s : string) :
  (forall c, q (f c) = true) -> all_chars q (map_chars f s) = true.
Proof.
  intros Hq. induction s as [|c s IH]; [done|]. cbn [map_chars all_chars].
  by rewrite Hq, IH.
Qed.

Lemma length_map_chars (f : ascii -> ascii) (s : string) :
  String.length (map_chars f s) = String.length s.
Proof. induction s as [|c s IH]; [done|]. cbn [map_chars String.length]. by rewrite IH. Qed.

Lemma all_chars_filter_chars (q : ascii -> bool) (s : string) :
  all_chars q (filter_chars q s) = true.
Proof.
  induction s as [|c s IH]; [done|]. cbn [filter_chars].
  destruct (q c) eqn:Hc; [|done]. cbn [all_chars]. by rewrite Hc, IH.
Qed.

Lemma filter_chars_all (q : ascii -> bool) (s : string) :
  all_chars q s = true -> filter_chars q s = s.
Proof.
  induction s as [|c s IH]; [done|]. cbn [filter_chars all_chars].
  intros [Hc Hs]%andb_prop. by rewrite Hc, IH.
Qed.

Lemma lower_char_lower (c : ascii) : is_ascii_lower c = true -> lower_char c = c.
Proof.
  unfold is_ascii_lower, lower_char, is_ascii_upper.
  intros [H1 H2]%andb_prop. apply Nat.leb_le in H1.
  destruct (nat_of_ascii c <=? 90)%nat eqn:H3; [|by rewrite andb_false_r].
  apply Nat.leb_le in H3. lia.
Qed.

Lemma lower_all_lower (s : string) : all_chars is_ascii_lower s = true -> lower s = s.
Proof.
  unfold lower. induction s as [|c s IH]; [done|]. cbn [map_chars all_chars].
  intros [Hc Hs]%andb_prop. by rewrite (lower_char_lower c Hc), IH.
Qed.

(** Replacing the one-character text [" "] by ["_"] keeps the length. *)
Lemma length_replace_space (s : string) :
  String.length (replace " " "_" s) = String.length s.
Proof.
  unfold replace. induction s as [|c s IH]; [done|].
  cbn [replace_go]. destruct (String.prefix " " (String c s)).
  - change (String.length " " - 1) with 0. rewrite append_cons. cbn [String.length].
    change ("" +:+ replace_go " " "_" 0 s) with (replace_go " " "_" 0 s). by rewrite IH.
  - cbn [String.length]. by rewrite IH.
Qed.

(** X4. The text [safe_label] puts inside the placeholder holds only capital
    letters A-Z, digits and underscores, whatever the label; for a label of
    ASCII characters it has exactly the length of the label. (Outside the
    ASCII range upper-casing can lengthen a text, so the length is stated
    for ASCII labels only.) *)
Theorem safe_label_charset :
  forall label : string,
    all_chars (fun c => is_ascii_upper c || is_ascii_digit c || Ascii.eqb c "_")
      (safe_label label) = true /\
    (isascii label = true ->
     String.length (safe_label label) = String.length label).
Proof.
  intros label. unfold safe_label. split.
  - apply all_chars_map_chars. intros c.
    destruct (is_ascii_upper c || is_ascii_digit c || Ascii.eqb c "_") eqn:Hc; [exact Hc|done].
  - intros _. rewrite length_map_chars, length_replace_space. apply length_map_chars.
Qed.

Lemma safe_label_charset_witness :
  all_chars (fun c => is_ascii_upper c || is_ascii_digit c || Ascii.eqb c "_")
    (safe_label "Blood group (ABO)") = true /\
  String.length (safe_label "Blood group (ABO)") = String.length "Blood group (ABO)".
Proof.
  destruct (safe_label_charset "Blood group (ABO)") as [Hc Hl].
  split; [exact Hc|]. apply Hl. reflexivity.
Defined.

(** The placeholder text of a label with a blank, brackets and small
    letters. *)
Example safe_label_run : safe_label "Blood group (ABO)" = "BLOOD_GROUP__ABO_".
Proof. vm_compute. reflexivity. Qed.

(** X5. [_clean_for_email] returns small letters a-z only, and cleaning a
    cleaned text changes nothing. *)
Theorem clean_for_email_letters :
  forall name_part : string,
    all_chars is_ascii_lower (_clean_for_email name_part) = true /\
    _clean_for_email (_clean_for_email name_part) = _clean_for_email name_part.
Proof.
  intros x. unfold _clean_for_email.
  pose proof (all_chars_filter_chars is_ascii_lower (lower x)) as H.
  split; [exact H|]. rewrite (lower_all_lower _ H). by apply filter_chars_all.
Qed.

Lemma fresh_value_placeholder {World} (P : Providers World) (L V : string) (s : St World) :
  L ∈ ["password"; "nurse"; "medical facility"; "medical insurance"; "health insurance"] ->
  any_in insurance_words (lower V) = false ->
  fresh_value P L V s = (Ok ("[FAKE_" +:+ safe_label L +:+ "]"), s).
Proof.
  intros HL HV.
  assert (forall L0,
            is_plain_label L0 = true ->
            other_value P L0 (lower L0) V = gret ("[FAKE_" +:+ safe_label L0 +:+ "]") ->
            fresh_value P L0 V s = (Ok ("[FAKE_" +:+ safe_label L0 +:+ "]"), s)) as Hcase.
  { intros L0 Hp Ho. rewrite (fresh_value_plain P L0 V s Hp), Ho. by destruct s. }
  apply elem_of_cons in HL as [HL|HL].
  { rewrite HL. apply Hcase; [reflexivity|].
    unfold other_value. rewrite HV. vm_compute. reflexivity. }
  apply elem_of_cons in HL as [HL|HL].
  { rewrite HL. apply Hcase; [reflexivity|].
    unfold other_value. rewrite HV. vm_compute. reflexivity. }
  apply elem_of_cons in HL as [HL|HL].
  { rewrite HL. apply Hcase; [reflexivity|].
    unfold other_value. rewrite HV. vm_compute. reflexivity. }
  apply elem_of_cons in HL as [HL|HL].
  { rewrite HL. apply Hcase; [reflexivity|].
    unfold other_value. rewrite HV. vm_compute. reflexivity. }
  apply list_elem_of_singleton in HL. rewrite HL. apply Hcase; [reflexivity|].
  unfold other_value. rewrite HV. vm_compute. reflexivity.
Qed.

(** X6. Five labels of the detector's vocabulary have no branch of their own:
    unless the original value names an insurer, a cache miss on one of them
    yields the placeholder and draws nothing from the random generators. *)
Theorem unhandled_detector_labels :
  forall {World} (P : Providers World) (L V : string) (s : St World),
    L ∈ ["password"; "nurse"; "medical facility"; "medical insurance"; "health insurance"] ->
    any_in insurance_words (lower V) = false ->
    replacement_cache s !! cache_key L V = None ->
    L ∈ Detector.pii_labels /\
    fst (generate_fake_value P L V s) = Ok ("[FAKE_" +:+ safe_label L +:+ "]") /\
    world (snd (generate_fake_value P L V s)) = world s.
Proof.
  intros World P L V s HL HV Hm. split.
  { assert (Forall (fun l => l ∈ Detector.pii_labels)
              ["password"; "nurse"; "medical facility"; "medical insurance";
               "health insurance"]) as Hall.
    { repeat (apply List.Forall_cons; [apply list_elem_of_In; cbv; tauto|]).
      apply List.Forall_nil. }
    rewrite List.Forall_forall in Hall. by apply Hall, list_elem_of_In. }
  rewrite (generate_miss P L V s Hm), (fresh_value_placeholder P L V s HL HV). done.
Qed.

Lemma unhandled_detector_labels_witness :
  "password" ∈ Detector.pii_labels /\
  fst (generate_fake_value Demo.providers "password" "hunter2" (init 0))
  = Ok ("[FAKE_" +:+ safe_label "password" +:+ "]") /\
  world (snd (generate_fake_value Demo.providers "password" "hunter2" (init 0)))
  = world (init 0).
Proof.
  apply (unhandled_detector_labels Demo.providers "password" "hunter2" (init 0));
    [apply list_elem_of_here|reflexivity|reflexivity].
Defined.

(** ** Batches against the cache *)

Section Replay.
Context {World : Type}.
Variable P : Providers World.
Implicit Types s : St World.

Lemma generate_each_cache_le L vs s :
  replacement_cache s ⊆ replacement_cache (snd (generate_each P L vs s)).
Proof.
  apply (keeps_generate_each P (fun s s' => replacement_cache s ⊆ replacement_cache s')).
  - done.
  - intros s1 s2 s3 ? ?. by etrans.
  - intros V _ s'. apply generate_cache_mono.
Qed.

Lemma replace_entry_cache_le L v s :
  replacement_cache s ⊆ replacement_cache (snd (replace_entry P L v s)).
Proof.
  apply (keeps_replace_entry P (fun s s' => replacement_cache s ⊆ replacement_cache s')).
  - done.
  - intros s1 s2 s3 ? ?. by etrans.
  - intros V _ s'. apply generate_cache_mono.
Qed.

Lemma second_pass_cache_le items acc s :
  replacement_cache s ⊆ replacement_cache (snd (second_pass P items acc s)).
Proof.
  apply (keeps_second_pass P (fun s s' => replacement_cache s ⊆ replacement_cache s')).
  - done.
  - intros s1 s2 s3 ? ?. by etrans.
  - intros L v _ s'. apply replace_entry_cache_le.
Qed.

Lemma generate_each_cached L vs : forall s fs s',
  generate_each P L vs s = (Ok fs, s') ->
  cached_entry (replacement_cache s') L (Seq vs) = Some (Seq fs).
Proof.
  induction vs as [|v vs IH]; intros s fs s' H.
  - simpl in H. unfold mret in H. by simplify_eq.
  - cbn [generate_each] in H. unfold mbind in H.
    destruct (generate_fake_value P L v s) as [[f|e] s1] eqn:Hg; [|done].
    destruct (generate_each P L vs s1) as [[fs'|e] s2] eqn:He; [|done].
    unfold mret in H. simplify_eq.
    pose proof (generate_cached P L v s f s1 Hg) as Hc.
    pose proof (generate_each_cache_le L vs s1) as Hle. rewrite He in Hle. simpl in Hle.
    pose proof (IH _ _ _ He) as Hrest.
    cbn [cached_entry fold_right] in *.
    rewrite (lookup_weaken _ _ _ _ Hc Hle).
    destruct (fold_right _ _ vs) as [fs0|]; simpl in Hrest |- *; [|done].
    by simplify_eq.
Qed.

Lemma replace_entry_cached L v s fv s' :
  replace_entry P L v s = (Ok fv, s') ->
  cached_entry (replacement_cache s') L v = Some fv.
Proof.
  destruct v as [x|xs]; simpl; unfold mbind, mret; intros H.
  - destruct (generate_fake_value P L x s) as [[f|e] s1] eqn:Hg; [|done].
    simplify_eq. by rewrite (generate_cached P L x s f s' Hg).
  - destruct (generate_each P L xs s) as [[fs|e] s1] eqn:Hg; [|done].
    simplify_eq. by apply generate_each_cached in Hg.
Qed.

Lemma cached_entry_mono (c c' : gmap string string) L v fv :
  c ⊆ c' -> cached_entry c L v = Some fv -> cached_entry c' L v = Some fv.
Proof.
  intros Hle. destruct v as [x|xs]; simpl.
  - destruct (c !! cache_key L x) as [f|] eqn:Hc; [|done].
    by rewrite (lookup_weaken _ _ _ _ Hc Hle).
  - intros H.
    assert (forall fs,
              fold_right (fun x acc =>
                            match c !! cache_key L x, acc with
                            | Some f, Some fs => Some (f :: fs)
                            | _, _ => None
                            end) (Some []) xs = Some fs ->
              fold_right (fun x acc =>
                            match c' !! cache_key L x, acc with
                            | Some f, Some fs => Some (f :: fs)
                            | _, _ => None
                            end) (Some []) xs = Some fs) as Hfold.
    { clear H. induction xs as [|x xs IH]; intros fs; [done|]. cbn [fold_right].
      destruct (c !! cache_key L x) as [f|] eqn:Hc; [|done].
      rewrite (lookup_weaken _ _ _ _ Hc Hle).
      destruct (fold_right _ _ xs) as [fs0|] eqn:Hf; [|done].
      by rewrite (IH fs0 eq_refl). }
    destruct (fold_right _ _ xs) as [fs0|] eqn:Hf; [|done].
    by rewrite (Hfold fs0 eq_refl).
Qed.

Lemma generate_each_hit L vs : forall s fs,
  cached_entry (replacement_cache s) L (Seq vs) = Some (Seq fs) ->
  generate_each P L vs s = (Ok fs, s).
Proof.
  induction vs as [|v vs IH]; intros s fs H.
  - simpl in H. by simplify_eq.
  - cbn [cached_entry fold_right] in H.
    destruct (replacement_cache s !! cache_key L v) as [f|] eqn:Hc; [|done].
    destruct (fold_right _ _ vs) as [fs0|] eqn:Hf; [|done].
    simpl in H. simplify_eq.
    cbn [generate_each]. unfold mbind. rewrite (generate_hit P L v s f Hc).
    rewrite (IH s fs0); [done|]. simpl. by rewrite Hf.
Qed.

Lemma replace_entry_hit L v s fv :
  cached_entry (replacement_cache s) L v = Some fv ->
  replace_entry P L v s = (Ok fv, s).
Proof.
  destruct v as [x|xs]; intros H.
  - simpl in H. destruct (replacement_cache s !! cache_key L x) as [f|] eqn:Hc; [|done].
    simpl in H. simplify_eq. simpl. unfold mbind. by rewrite (generate_hit P L x s f Hc).
  - destruct fv as [f|fs].
    { simpl in H. destruct (fold_right _ _ xs); done. }
    simpl. unfold mbind. by rewrite (generate_each_hit L xs s fs H).
Qed.

(** An entry replaced once is replaced by the same value, and without any
    effect, on every instance whose cache holds what the first run left. *)
Lemma replace_entry_replay L v s fv s1 s2 :
  replace_entry P L v s = (Ok fv, s1) ->
  replacement_cache s1 ⊆ replacement_cache s2 ->
  replace_entry P L v s2 = (Ok fv, s2).
Proof.
  intros H Hle. apply replace_entry_hit.
  eapply cached_entry_mono; [exact Hle|]. by eapply replace_entry_cached.
Qed.

Lemma second_pass_replay items : forall acc s out s1 s2,
  second_pass P items acc s = (Ok out, s1) ->
  replacement_cache s1 ⊆ replacement_cache s2 ->
  second_pass P items acc s2 = (Ok out, s2).
Proof.
  induction items as [|[L v] items IH]; intros acc s out s1 s2 H Hle.
  - simpl in *. unfold mret in *. by simplify_eq.
  - cbn [second_pass] in *.
    destruct (is_patient_label L && dict_mem L acc); [by eapply IH|].
    unfold mbind in *.
    destruct (replace_entry P L v s) as [[fv|e] sa] eqn:He; [|done].
    pose proof (second_pass_cache_le items (dict_set L fv acc) sa) as Hm.
    rewrite H in Hm. simpl in Hm.
    rewrite (replace_entry_replay L v s fv sa s2 He); [by eapply IH|].
    by etrans.
Qed.

Lemma first_pass_replay items : forall acc s fj s1 s2,
  first_pass P items acc s = (Ok fj, s1) ->
  replacement_cache s1 ⊆ replacement_cache s2 ->
  exists a, first_pass P items acc s2 =
              (Ok fj, {| replacement_cache := replacement_cache s2;
                         current_patient_name := a;
                         world := world s2 |}).
Proof.
  induction items as [|[L v] items IH]; intros acc s fj s1 s2 H Hle.
  - simpl in *. unfold mret in *. simplify_eq.
    exists (current_patient_name s2). by destruct s2.
  - cbn [first_pass] in *.
    destruct (is_patient_label L); [|by eapply IH].
    unfold mbind in *.
    destruct (replace_entry P L v s) as [[fv|e] sa] eqn:He; [|done].
    assert (replacement_cache sa ⊆ replacement_cache s2) as Hsa.
    { etrans; [|exact Hle].
      destruct (dict_get L (dict_set L fv acc)) as [[x|[|x xs]]|];
        unfold set_current_patient_name, mret in H; by simplify_eq. }
    rewrite (replace_entry_replay L v s fv sa s2 He Hsa).
    destruct (dict_get L (dict_set L fv acc)) as [[x|[|x xs]]|];
      unfold set_current_patient_name, mret in *; simplify_eq;
      try (by eexists); exists (current_patient_name s2); by destruct s2.
Qed.
End Replay.

(** X7. A batch that returned is replayed from the cache: on every instance
    whose cache holds what the first run left (the same instance at once, or
    after any further calls), the same mapping gives the same result, draws
    nothing from the random generators and adds nothing to the cache. *)
Theorem batch_replay :
  forall {World} (P : Providers World) (m : dict) (s s1 s2 : St World) (out : dict),
    replace_pii_json P m s = (Ok out, s1) ->
    replacement_cache s1 ⊆ replacement_cache s2 ->
    fst (replace_pii_json P m s2) = Ok out /\
    replacement_cache (snd (replace_pii_json P m s2)) = replacement_cache s2 /\
    world (snd (replace_pii_json P m s2)) = world s2.
Proof.
  intros World P m s s1 s2 out H Hle.
  unfold replace_pii_json, mbind in *. cbn [set_current_patient_name] in *.
  destruct (first_pass P m [] _) as [[fj|e] sa] eqn:H1 in H; [|done].
  pose proof (second_pass_cache_le P m fj sa) as Hm. rewrite H in Hm. simpl in Hm.
  destruct (first_pass_replay P m [] _ fj sa
              {| replacement_cache := replacement_cache s2;
                 current_patient_name := None; world := world s2 |} H1) as [a Ha].
  { simpl. by etrans. }
  rewrite Ha. simpl.
  rewrite (second_pass_replay P m fj sa out s1 _ H); [done|]. done.
Qed.

Lemma batch_replay_witness :
  let m := [("email", Scalar "asha@mail.in"); ("Patient Name", Seq ["Mr. A"; "Dr. B"]);
            ("phone number", Scalar "98200 12345")] in
  let s1 := snd (replace_pii_json Demo.providers m (init 0)) in
  exists out,
    fst (replace_pii_json Demo.providers m s1) = Ok out /\
    replacement_cache (snd (replace_pii_json Demo.providers m s1)) = replacement_cache s1 /\
    world (snd (replace_pii_json Demo.providers m s1)) = world s1.
Proof.
  intros m s1.
  assert (exists out, replace_pii_json Demo.providers m (init 0) = (Ok out, s1)) as [out H].
  { subst s1.
    destruct (replace_pii_json Demo.providers m (init 0)) as [[out|e] s'] eqn:H;
      [by exists out|].
    vm_compute in H. discriminate H. }
  exists out. by apply (batch_replay Demo.providers m (init 0) s1 s1 out H).
Defined.

(** X8. A batch touches the cache only under the keys of its own pairs: the
    entry of every other key is after the batch what it was before, and an
    entry that was there is never overwritten. *)
Theorem batch_cache_frame :
  forall {World} (P : Providers World) (m : dict) (s : St World) (k : string),
    (forall L v, (L, v) ∈ m -> k ∉ entry_keys L v) ->
    replacement_cache (snd (replace_pii_json P m s)) !! k = replacement_cache s !! k /\
    (forall k' f, replacement_cache s !! k' = Some f ->
                  replacement_cache (snd (replace_pii_json P m s)) !! k' = Some f).
Proof.
  intros World P m s k Hk. split.
  - apply (keeps_replace_pii_json P
             (fun s s' => replacement_cache s' !! k = replacement_cache s !! k)).
    + done.
    + intros s1 s2 s3 H1 H2. by rewrite H2.
    + intros L v Hin s'. apply replace_entry_cache_frame. by apply Hk.
    + intros a s'. done.
  - intros k' f Hf. eapply lookup_weaken; [exact Hf|].
    apply (replace_pii_json_cache_le P m s).
Qed.

Lemma batch_cache_frame_witness :
  let m := [("email", Scalar "asha@mail.in"); ("Patient Name", Scalar "Mr. A")] in
  let s := snd (generate_fake_value Demo.providers "Patient Name" "Mr. B" (init 0)) in
  replacement_cache (snd (replace_pii_json Demo.providers m s)) !! "Patient Name:Mr. B"
  = replacement_cache s !! "Patient Name:Mr. B" /\
  (forall k' f, replacement_cache s !! k' = Some f ->
                replacement_cache (snd (replace_pii_json Demo.providers m s)) !! k' = Some f).
Proof.
  intros m s. apply (batch_cache_frame Demo.providers m s "Patient Name:Mr. B").
  intros L v HLv.
  apply elem_of_cons in HLv as [[= -> ->]|HLv].
  { intros Hk. apply list_elem_of_singleton in Hk. discriminate Hk. }
  apply list_elem_of_singleton in HLv as [= -> ->].
  intros Hk. apply list_elem_of_singleton in Hk. discriminate Hk.
Defined.

(** ** The comparison of a mapping with its replacement *)

Lemma comparison_get_set_eq L c (d : comparison) :
  comparison_get L (comparison_set L c d) = Some c.
Proof.
  induction d as [|[k c0] d IH]; simpl; [by rewrite String.eqb_refl|].
  destruct (String.eqb_spec L k) as [->|Hne]; simpl.
  - by rewrite String.eqb_refl.
  - destruct (String.eqb_spec L k); done.
Qed.

Lemma comparison_get_set_ne L k c (d : comparison) :
  L <> k -> comparison_get L (comparison_set k c d) = comparison_get L d.
Proof.
  intros Hne. induction d as [|[k0 c0] d IH]; simpl.
  - destruct (String.eqb_spec L k); done.
  - destruct (String.eqb_spec k k0) as [->|Hk]; simpl.
    + destruct (String.eqb_spec L k0); done.
    + destruct (String.eqb_spec L k0); done.
Qed.

Lemma get_comparison_dict_get (fake : dict) L : forall (original : dict) acc,
  NoDup (keys original) ->
  comparison_get L
    (fold_left (fun comparison '(label, orig) =>
                  comparison_set label (orig, dict_get label fake) comparison)
               original acc)
  = match dict_get L original with
    | Some v => Some (v, dict_get L fake)
    | None => comparison_get L acc
    end.
Proof.
  induction original as [|[k v] original IH]; intros acc Hnd; [done|].
  cbn [fold_left dict_get]. apply NoDup_cons in Hnd as [Hk Hnd].
  rewrite IH by done.
  destruct (String.eqb_spec L k) as [->|Hne].
  - destruct (dict_get k original) as [v'|] eqn:Hg.
    + apply dict_get_In in Hg. exfalso. apply Hk.
      apply list_elem_of_fmap. by exists (k, v').
    + apply comparison_get_set_eq.
  - destruct (dict_get L original); [done|]. by apply comparison_get_set_ne.
Qed.

(** X9. [get_comparison_dict] applied to a mapping with distinct labels and
    to what [replace_pii_json] returned for it pairs every label of the
    mapping with its original value and with a replacement of the same
    shape: no label is left without its replacement, and no other label
    appears. *)
Theorem comparison_of_batch :
  forall {World} (P : Providers World) (m : dict) (s s' : St World) (out : dict)
         (L : string),
    NoDup (keys m) ->
    replace_pii_json P m s = (Ok out, s') ->
    match dict_get L m with
    | Some v =>
        exists fv, comparison_get L (get_comparison_dict m out) = Some (v, Some fv)
                   /\ dict_get L out = Some fv /\ same_shape v fv
    | None => comparison_get L (get_comparison_dict m out) = None
    end.
Proof.
  intros World P m s s' out L Hnd H.
  unfold get_comparison_dict. rewrite (get_comparison_dict_get out L m [] Hnd).
  destruct (dict_get L m) as [v|] eqn:Hg; [|done].
  apply dict_get_In in Hg.
  destruct (replace_pii_json_shape P m s out s' L v Hnd H Hg) as (fv & Hfv & Hsh).
  exists fv. by rewrite Hfv.
Qed.

Lemma comparison_of_batch_witness :
  exists fv,
    comparison_get "Patient Name"
      (get_comparison_dict
         [("email", Scalar "asha@mail.in"); ("Patient Name", Seq ["Mr. A"; "Dr. B"])]
         [("Patient Name", Seq ["Ravi Kumar"; "Dr. Anita Shah"]);
          ("email", Scalar "ravi.kumar@test.com")])
    = Some (Seq ["Mr. A"; "Dr. B"], Some fv)
    /\ dict_get "Patient Name"
         [("Patient Name", Seq ["Ravi Kumar"; "Dr. Anita Shah"]);
          ("email", Scalar "ravi.kumar@test.com")] = Some fv
    /\ same_shape (Seq ["Mr. A"; "Dr. B"]) fv.
Proof.
  assert (NoDup (keys [("email", Scalar "asha@mail.in");
                       ("Patient Name", Seq ["Mr. A"; "Dr. B"])])) as Hnd.
  { apply (bool_decide_unpack _). vm_compute. exact I. }
  apply (comparison_of_batch Demo.providers
           [("email", Scalar "asha@mail.in"); ("Patient Name", Seq ["Mr. A"; "Dr. B"])]
           (init 0)
           (snd (replace_pii_json Demo.providers
                   [("email", Scalar "asha@mail.in");
                    ("Patient Name", Seq ["Mr. A"; "Dr. B"])] (init 0)))
           _ "Patient Name" Hnd).
  vm_compute. reflexivity.
Defined.

(** ** What the strategies return *)

Lemma nonempty_append (a b : string) : nonempty a = true -> nonempty (a +:+ b) = true.
Proof. by destruct a. Qed.

Lemma join_nonempty_head (sep p : string) (rest : list string) :
  nonempty p = true -> nonempty (join sep (p :: rest)) = true.
Proof.
  intros Hp. destruct rest as [|q rest]; [done|].
  change (join sep (p :: q :: rest)) with (p +:+ sep +:+ join sep (q :: rest)).
  by apply nonempty_append.
Qed.

Lemma prefix_append (a b : string) : String.prefix a (a +:+ b) = true.
Proof.
  induction a as [|c a IH]; [by destruct b|]. rewrite append_cons. cbn [String.prefix].
  destruct (ascii_dec c c); [exact IH|done].
Qed.

Lemma mem_app (x : string) (l1 l2 : list string) : mem x (l1 ++ l2) = mem x l1 || mem x l2.
Proof. apply existsb_app. Qed.

Lemma mem_insert_sorted (x y : string) (l : list string) :
  mem x (insert_sorted y l) = String.eqb x y || mem x l.
Proof.
  induction l as [|z l IH]; [done|]. cbn [insert_sorted].
  destruct (String.leb y z); [done|].
  unfold mem in *. cbn [existsb]. rewrite IH.
  destruct (String.eqb x y), (String.eqb x z); done.
Qed.

(** Sorting does not change what a list holds. *)
Lemma mem_sorted (x : string) (l : list string) : mem x (sorted l) = mem x l.
Proof.
  unfold sorted. induction l as [|y l IH]; [done|]. cbn [fold_right].
  rewrite mem_insert_sorted, IH. done.
Qed.

Lemma is_supported_spec (p : string) :
  is_supported p =
    mem (splitext_ext (lower p)) images || mem (splitext_ext (lower p)) pdfs
    || mem (splitext_ext (lower p)) word || mem (splitext_ext (lower p)) excel
    || mem (splitext_ext (lower p)) archives.
Proof.
  unfold is_supported, get_supported_extensions. rewrite mem_sorted.
  unfold all_supported, supported_formats. cbn [map snd concat].
  rewrite !mem_app. unfold mem at 6. cbn [existsb]. rewrite orb_false_r, !orb_assoc. done.
Qed.

Section StrategyFacts.
Context {Image : Type}.
Variable E : Env Image.

Lemma image_nonempty p : nonempty (fst (_extract_from_image E p)) = true.
Proof.
  unfold _extract_from_image. destruct (Image_open E p) as [image|msg]; [|done].
  destruct (ocr_loop E image _ "") as [best tr]. cbn [fst].
  by destruct (nonempty (clean_lines best)) eqn:Hc.
Qed.

Lemma filter_nonempty_join (sep : string) (l : list string) :
  List.filter nonempty l <> [] -> nonempty (join sep (List.filter nonempty l)) = true.
Proof.
  intros Hne. destruct (List.filter nonempty l) as [|h t] eqn:Hf; [done|].
  apply join_nonempty_head.
  assert (In h (List.filter nonempty l)) as Hin by (rewrite Hf; by left).
  by apply filter_In in Hin as [_ Hin].
Qed.

Lemma ocr_pages_nonempty pages : forall acc,
  Forall (fun t => nonempty t = true) acc ->
  Forall (fun t => nonempty t = true) (fst (ocr_pages E pages acc)).
Proof.
  induction pages as [|page pages IH]; intros acc Hacc; [done|].
  cbn [ocr_pages].
  destruct (ocr_loop E page _ "") as [best tr].
  specialize (IH (if nonempty (clean_lines best) then acc ++ [clean_lines best] else acc)).
  destruct (ocr_pages E pages _) as [texts tr']. cbn [fst] in *. apply IH.
  destruct (nonempty (clean_lines best)) eqn:Hc; [|done].
  apply Forall_app. split; [done|]. by constructor.
Qed.

Lemma pdf_nonempty p : nonempty (fst (_extract_from_pdf E p)) = true.
Proof.
  unfold _extract_from_pdf. destruct (fitz_open E p) as [doc|msg]; [|done].
  rewrite direct_loop_spec. cbn [app orb].
  destruct (existsb nonempty (map strip doc)) eqn:Hex.
  - cbn [fst]. apply filter_nonempty_join. intros Hf.
    apply existsb_exists in Hex as (t & Hin & Ht).
    assert (In t (List.filter nonempty (map strip doc))) as Hin'
      by (apply filter_In; done).
    by rewrite Hf in Hin'.
  - destruct (convert_from_path E p 1 5) as [pages|msg]; [|done].
    pose proof (ocr_pages_nonempty pages [] (List.Forall_nil _)) as Hf.
    destruct (ocr_pages E pages []) as [[|t ts] tr]; [done|]. cbn [fst] in *.
    apply join_nonempty_head. by inversion Hf.
Qed.

Lemma word_nonempty p : nonempty (fst (_extract_from_word E p)) = true.
Proof.
  unfold _extract_from_word. destruct (Document E p) as [d|msg]; [|done]. cbn [fst].
  by destruct (nonempty (join _ _)) eqn:Hc.
Qed.

Lemma excel_nonempty p : nonempty (fst (_extract_from_excel E p)) = true.
Proof.
  unfold _extract_from_excel.
  destruct (if endswith (lower p) ".csv" then _ else _) as [sheets|msg]; [|done].
  cbn [fst]. by destruct (nonempty (join _ _)) eqn:Hc.
Qed.

(** The collected texts of an archive start with the banner of a member. *)
Lemma member_loop_head (self : string -> option (string * list (event Image)))
    temp_dir ms : forall acc texts tr,
  (forall h t, acc = h :: t -> nonempty h = true) ->
  member_loop E self temp_dir ms acc = Some (texts, tr) ->
  forall h t, texts = h :: t -> nonempty h = true.
Proof.
  induction ms as [|p ms IH]; intros acc texts tr Hacc H.
  - cbn [member_loop] in H. by simplify_eq.
  - cbn [member_loop] in H.
    destruct (negb (String.eqb (splitext_ext (lower p)) ".zip")); [|by eapply IH].
    destruct (self p) as [[text tr0]|]; [|done].
    destruct (member_loop E self temp_dir ms _) as [[texts' tr']|] eqn:Hm; [|done].
    simplify_eq. eapply IH; [|exact Hm].
    destruct (negb (startswith text "Error:") && nonempty (strip text)); [|done].
    intros h t Hht. destruct acc as [|a acc].
    + simpl in Hht. by simplify_eq.
    + simpl in Hht. simplify_eq. by eapply Hacc.
Qed.

Lemma zip_nonempty (self : string -> option (string * list (event Image))) p text tr :
  _extract_from_zip E self p = Some (text, tr) -> nonempty text = true.
Proof.
  unfold _extract_from_zip.
  destruct (unzip_walk E p) as [[temp_dir walk]|msg]; [|intros; by simplify_eq].
  destruct (member_loop E self temp_dir _ []) as [[texts tr']|] eqn:Hm; [|done].
  pose proof (member_loop_head self temp_dir _ [] texts tr' ltac:(done) Hm) as Hh.
  destruct texts as [|h t]; intros; simplify_eq; [done|].
  apply join_nonempty_head. by eapply Hh.
Qed.

(** The OCR loop on an image without text keeps the text it started with. *)
Lemma ocr_loop_blank image configs : forall best,
  (forall config text, config ∈ configs ->
     image_to_string E image config = Done text -> strip text = "") ->
  fst (ocr_loop E image configs best) = best.
Proof.
  induction configs as [|config configs IH]; intros best Hb; [done|].
  cbn [ocr_loop].
  assert (match image_to_string E image config with
          | Done text =>
              if (String.length (strip best) <? String.length (strip text))%nat
              then text else best
          | Raised _ => best
          end = best) as ->.
  { destruct (image_to_string E image config) as [text|msg] eqn:Ho; [|done].
    rewrite (Hb config text (list_elem_of_here _ _) Ho). cbn [String.length].
    by destruct (String.length (strip best)). }
  specialize (IH best). destruct (ocr_loop E image configs best) as [final tr].
  cbn [fst] in *. apply IH. intros c t Hc. apply Hb. by apply list_elem_of_further.
Qed.
End StrategyFacts.

(** X10. [extract_text] never returns the empty string: whatever the file
    system and the libraries do, the result is a text, a sentinel or an error
    message of at least one character. *)
Theorem extract_text_never_empty :
  forall {Image} (E : Env Image) (n : nat) (p : string),
    exists text tr,
      extract_text E (S (S n)) p = Some (text, tr) /\ nonempty text = true.
Proof.
  intros Image E n p.
  destruct (extract_text_returns E n p) as (text & tr & H).
  exists text, tr. split; [exact H|].
  rewrite extract_text_S in H.
  destruct (negb (path_exists E p)); [by simplify_eq|].
  destruct (mem _ images).
  { simplify_eq. pose proof (image_nonempty E p) as Hn.
    by destruct (_extract_from_image E p); simplify_eq. }
  destruct (mem _ pdfs).
  { simplify_eq. pose proof (pdf_nonempty E p) as Hn.
    by destruct (_extract_from_pdf E p); simplify_eq. }
  destruct (mem _ word).
  { simplify_eq. pose proof (word_nonempty E p) as Hn.
    by destruct (_extract_from_word E p); simplify_eq. }
  destruct (mem _ excel).
  { simplify_eq. pose proof (excel_nonempty E p) as Hn.
    by destruct (_extract_from_excel E p); simplify_eq. }
  destruct (mem _ archives); [by eapply zip_nonempty|by simplify_eq].
Qed.

Lemma extract_text_unsupported {Image} (E : Env Image) (n : nat) (p : string) :
  path_exists E p = true ->
  is_supported p = false ->
  extract_text E (S n) p
  = Some ("Error: Unsupported file format '" +:+ splitext_ext (lower p) +:+ "'", []).
Proof.
  intros Hex Hs. rewrite is_supported_spec in Hs.
  apply orb_false_elim in Hs as [Hs H5]. apply orb_false_elim in Hs as [Hs H4].
  apply orb_false_elim in Hs as [Hs H3]. apply orb_false_elim in Hs as [H1 H2].
  rewrite extract_text_S, Hex. cbn [negb]. by rewrite H1, H2, H3, H4, H5.
Qed.

Lemma extract_text_missing {Image} (E : Env Image) (n : nat) (p : string) :
  path_exists E p = false ->
  extract_text E (S n) p = Some ("Error: File '" +:+ p +:+ "' not found", []).
Proof. intros Hex. by rewrite extract_text_S, Hex. Qed.

(** A file that is missing or of no supported format: the message of
    [extract_text], which carries the prefix the callers test. *)
Lemma extract_text_refused {Image} (E : Env Image) (n : nat) (p : string) :
  path_exists E p = false \/ is_supported p = false ->
  exists msg, extract_text E (S n) p = Some (msg, [])
              /\ startswith msg "Error:" = true /\ nonempty msg = true.
Proof.
  intros H. destruct (path_exists E p) eqn:Hex.
  - destruct H as [?|Hs]; [done|]. eexists. split; [by apply extract_text_unsupported|done].
  - eexists. split; [by apply extract_text_missing|done].
Qed.

(** X11. [is_supported] and the dispatch of [extract_text] agree on what is
    refused: an existing file that [is_supported] rejects gets the
    unsupported-format error, which starts with the prefix the callers test,
    and no library is called for it. *)
Theorem unsupported_file_refused :
  forall {Image} (E : Env Image) (n : nat) (p : string),
    path_exists E p = true ->
    is_supported p = false ->
    extract_text E (S n) p
    = Some ("Error: Unsupported file format '" +:+ splitext_ext (lower p) +:+ "'", [])
    /\ startswith ("Error: Unsupported file format '" +:+ splitext_ext (lower p) +:+ "'")
         "Error:" = true.
Proof.
  intros Image E n p Hex Hs. split; [by apply extract_text_unsupported|done].
Qed.

Lemma unsupported_file_refused_witness :
  extract_text Demo.env 1 "notes.txt"
  = Some ("Error: Unsupported file format '" +:+ splitext_ext (lower "notes.txt") +:+ "'", [])
  /\ startswith ("Error: Unsupported file format '" +:+ splitext_ext (lower "notes.txt")
                 +:+ "'") "Error:" = true.
Proof.
  apply (unsupported_file_refused Demo.env 0 "notes.txt"); reflexivity.
Defined.

(** The list [get_supported_extensions] returns. *)
Example get_supported_extensions_run :
  get_supported_extensions =
    [".bmp"; ".csv"; ".doc"; ".docx"; ".gif"; ".jpeg"; ".jpg"; ".pdf"; ".png"; ".tiff";
     ".xls"; ".xlsx"; ".zip"].
Proof. vm_compute. reflexivity. Qed.

(** X12. An image that opens but on which every OCR configuration faults or
    finds only white space is extracted as the sentinel "No text found in
    image", after all three configurations were tried; the sentinel does
    not start with the prefix the callers test. *)
Theorem image_without_text :
  forall {Image} (E : Env Image) (p : string) (image : Image),
    Image_open E p = Done image ->
    (forall config text,
        config ∈ ["--oem 3 --psm 6"; "--oem 3 --psm 3"; "--oem 3 --psm 1"] ->
        image_to_string E image config = Done text -> strip text = "") ->
    _extract_from_image E p
    = ("No text found in image",
       [EvOCR image "--oem 3 --psm 6"; EvOCR image "--oem 3 --psm 3";
        EvOCR image "--oem 3 --psm 1"])
    /\ startswith "No text found in image" "Error:" = false.
Proof.
  intros Image E p image Ho Hb. split; [|done].
  unfold _extract_from_image. rewrite Ho.
  pose proof (ocr_loop_blank E image _ "" Hb) as Hf.
  pose proof (ocr_loop_trace E image
                ["--oem 3 --psm 6"; "--oem 3 --psm 3"; "--oem 3 --psm 1"] "") as Ht.
  destruct (ocr_loop E image _ "") as [best tr]. cbn [fst snd] in *. by subst.
Qed.

Lemma image_without_text_witness :
  let E := {| path_exists := fun _ => true;
              relpath := fun p _ => p;
              Image_open := fun _ => Done 7;
              image_to_string :=
                fun _ config => if String.eqb config "--oem 3 --psm 3"
                                then Raised "timeout" else Done "   ";
              fitz_open := fun _ => Raised "no";
              rasterize := fun _ => Raised "no";
              Document := fun _ => Raised "no";
              read_csv := fun _ => Raised "no";
              read_excel := fun _ => Raised "no";
              unzip_walk := fun _ => Raised "no" |} in
  _extract_from_image E "blank.png"
  = ("No text found in image",
     [EvOCR 7 "--oem 3 --psm 6"; EvOCR 7 "--oem 3 --psm 3"; EvOCR 7 "--oem 3 --psm 1"])
  /\ startswith "No text found in image" "Error:" = false.
Proof.
  intros E. apply (image_without_text E "blank.png" 7); [reflexivity|].
  intros config text _. cbn [image_to_string E].
  destruct (String.eqb config "--oem 3 --psm 3"); [discriminate|].
  intros [= <-]. reflexivity.
Defined.

(** X13. The OCR loop keeps a longest result: the text it ends with is the
    text it started with or the output of one of the configurations, and
    once trimmed it is at least as long as the starting text and as the
    output of every configuration that did not fault. *)
Theorem ocr_loop_keeps_longest :
  forall {Image} (E : Env Image) (image : Image) (configs : list string) (best : string),
    (fst (ocr_loop E image configs best) = best \/
     exists config, config ∈ configs /\
       image_to_string E image config = Done (fst (ocr_loop E image configs best))) /\
    String.length (strip best)
    <= String.length (strip (fst (ocr_loop E image configs best))) /\
    forall config text,
      config ∈ configs -> image_to_string E image config = Done text ->
      String.length (strip text)
      <= String.length (strip (fst (ocr_loop E image configs best))).
Proof.
  intros Image E image configs. induction configs as [|config configs IH]; intros best.
  - cbn [ocr_loop fst]. split; [by left|]. split; [done|].
    intros config text Hin. by apply elem_of_nil in Hin.
  - cbn [ocr_loop].
    set (next := match image_to_string E image config with
                 | Done text =>
                     if (String.length (strip best) <? String.length (strip text))%nat
                     then text else best
                 | Raised _ => best
                 end).
    destruct (IH next) as (Hor & Hle & Hall).
    destruct (ocr_loop E image configs next) as [final tr]. cbn [fst] in *.
    assert (String.length (strip best) <= String.length (strip next)) as Hbn.
    { subst next. destruct (image_to_string E image config) as [text|msg]; [|done].
      destruct (Nat.ltb_spec (String.length (strip best)) (String.length (strip text))); lia. }
    split; [|split].
    + destruct Hor as [->|(c & Hc & Hd)].
      * subst next. destruct (image_to_string E image config) as [text|msg] eqn:Ho; [|by left].
        destruct (_ <? _)%nat; [|by left].
        right. exists config. split; [apply list_elem_of_here|done].
      * right. exists c. split; [by apply list_elem_of_further|done].
    + lia.
    + intros c text Hc Hd. apply elem_of_cons in Hc as [->|Hc]; [|by eapply Hall].
      assert (String.length (strip text) <= String.length (strip next)); [|lia].
      subst next. rewrite Hd.
      destruct (Nat.ltb_spec (String.length (strip best)) (String.length (strip text))); lia.
Qed.

Lemma sheet_lines_shape (name : string) (df : dataframe) :
  exists cols r rs,
    sheet_lines name df
    = ("=== SHEET: " +:+ name +:+ " ===") :: ("[HEADERS] " +:+ cols) :: r :: rs.
Proof.
  unfold sheet_lines. cbn [app].
  destruct (flat_map _ (rows df)) as [|r rs]; cbn [app]; eauto.
Qed.

Lemma join_banner (sep a b r : string) (rs : list string) :
  join sep (a :: b :: r :: rs) = a +:+ sep +:+ b +:+ sep +:+ join sep (r :: rs).
Proof. reflexivity. Qed.

(** X14. A table file that was read and has a sheet is extracted as text that
    starts with the banner of its first sheet and the header line; a CSV file
    that was read is the single sheet "Sheet1", so the sentinel of an empty
    table is never returned for it. *)
Theorem excel_text_starts_with_banner :
  forall {Image} (E : Env Image) (p name : string) (df : dataframe)
         (more : list (string * dataframe)),
    (endswith (lower p) ".csv" = true /\ read_csv E p = Done df
     /\ name = "Sheet1" /\ more = []) \/
    (endswith (lower p) ".csv" = false /\ read_excel E p = Done ((name, df) :: more)) ->
    startswith (fst (_extract_from_excel E p))
      ("=== SHEET: " +:+ name +:+ " ===" +:+ String "010" "" +:+ "[HEADERS] ") = true
    /\ snd (_extract_from_excel E p) = [].
Proof.
  intros Image E p name df more H.
  assert ((if endswith (lower p) ".csv"
           then match read_csv E p with
                | Done df => Done [("Sheet1", df)]
                | Raised msg => Raised msg
                end
           else read_excel E p) = Done ((name, df) :: more)) as Hsheets.
  { destruct H as [(-> & -> & -> & ->)|(-> & ->)]; done. }
  unfold _extract_from_excel. rewrite Hsheets. cbn [flat_map snd]. split; [|done].
  destruct (sheet_lines_shape name df) as (cols & r & rs & ->).
  rewrite <- !app_comm_cons, join_banner.
  set (J := join (String "010" "") (r :: _)).
  assert ((("=== SHEET: " +:+ name +:+ " ===") +:+ String "010" ""
           +:+ ("[HEADERS] " +:+ cols) +:+ String "010" "" +:+ J)
          = ("=== SHEET: " +:+ name +:+ " ===" +:+ String "010" "" +:+ "[HEADERS] ")
            +:+ (cols +:+ String "010" "" +:+ J)) as ->.
  { rewrite !append_assoc. reflexivity. }
  cbn [fst]. unfold startswith.
  assert (nonempty (("=== SHEET: " +:+ name +:+ " ===" +:+ String "010" "" +:+ "[HEADERS] ")
                    +:+ (cols +:+ String "010" "" +:+ J)) = true) as -> by done.
  apply prefix_append.
Qed.

Lemma excel_text_starts_with_banner_witness :
  let E := {| path_exists := fun _ => true;
              relpath := fun p _ => p;
              Image_open := fun _ => Raised "no";
              image_to_string := fun (_ : nat) _ => Raised "no";
              fitz_open := fun _ => Raised "no";
              rasterize := fun _ => Raised "no";
              Document := fun _ => Raised "no";
              read_csv := fun _ => Done {| columns := []; rows := [] |};
              read_excel := fun _ => Raised "no";
              unzip_walk := fun _ => Raised "no" |} in
  startswith (fst (_extract_from_excel E "empty.CSV"))
    ("=== SHEET: " +:+ "Sheet1" +:+ " ===" +:+ String "010" "" +:+ "[HEADERS] ") = true
  /\ snd (_extract_from_excel E "empty.CSV") = [].
Proof.
  intros E.
  apply (excel_text_starts_with_banner E "empty.CSV" "Sheet1"
           {| columns := []; rows := [] |} []).
  left. repeat split; reflexivity.
Defined.

Lemma extracted_files_nil (walk : list (string * list string)) :
  (forall root files file,
      (root, files) ∈ walk -> file ∈ files ->
      is_supported file = false \/ splitext_ext (lower file) = ".zip") ->
  extracted_files walk = [].
Proof.
  intros H. unfold extracted_files.
  induction walk as [|[root files] walk IH]; [done|]. cbn [flat_map].
  rewrite IH
    by (intros r fs f Hin Hfi; apply (H r fs f); [by apply list_elem_of_further|done]).
  rewrite app_nil_r.
  assert (forall file, file ∈ files ->
            is_supported file = false \/ splitext_ext (lower file) = ".zip") as Hf
    by (intros f Hfi; apply (H root files f); [apply list_elem_of_here|done]).
  clear H IH. induction files as [|file files IH]; [done|]. cbn [flat_map].
  rewrite IH by (intros f Hin; apply Hf; by apply list_elem_of_further).
  rewrite app_nil_r.
  destruct (Hf file (list_elem_of_here _ _)) as [Hs|Hz].
  - unfold is_supported, get_supported_extensions in Hs. rewrite mem_sorted in Hs.
    by rewrite Hs.
  - rewrite Hz. by rewrite andb_false_r.
Qed.

(** X15. An archive that unpacks but holds no file of a supported format other
    than nested archives is extracted as the sentinel "No text could be
    extracted from files in ZIP archive": no member is handed to
    [extract_text] and no OCR runs. *)
Theorem archive_without_supported_members :
  forall {Image} (E : Env Image) (n : nat) (p temp_dir : string)
         (walk : list (string * list string)),
    path_exists E p = true ->
    splitext_ext (lower p) = ".zip" ->
    unzip_walk E p = Done (temp_dir, walk) ->
    (forall root files file,
        (root, files) ∈ walk -> file ∈ files ->
        is_supported file = false \/ splitext_ext (lower file) = ".zip") ->
    extract_text E (S n) p
    = Some ("No text could be extracted from files in ZIP archive", []).
Proof.
  intros Image E n p temp_dir walk Hex Hext Hw Hf.
  rewrite extract_text_S, Hex, Hext. cbn [negb].
  change (mem ".zip" images) with false. change (mem ".zip" pdfs) with false.
  change (mem ".zip" word) with false. change (mem ".zip" excel) with false.
  change (mem ".zip" archives) with true. cbv iota.
  unfold _extract_from_zip. rewrite Hw, (extracted_files_nil walk Hf). done.
Qed.

Lemma archive_without_supported_members_witness :
  let E := {| path_exists := fun _ => true;
              relpath := fun p _ => p;
              Image_open := fun _ => Raised "no";
              image_to_string := fun (_ : nat) _ => Raised "no";
              fitz_open := fun _ => Raised "no";
              rasterize := fun _ => Raised "no";
              Document := fun _ => Raised "no";
              read_csv := fun _ => Raised "no";
              read_excel := fun _ => Raised "no";
              unzip_walk := fun _ => Done ("/tmp/t", [("/tmp/t", ["notes.txt"; "in.zip"])]) |} in
  extract_text E 1 "upload/Batch.ZIP"
  = Some ("No text could be extracted from files in ZIP archive", []).
Proof.
  intros E.
  apply (archive_without_supported_members E 0 "upload/Batch.ZIP" "/tmp/t"
           [("/tmp/t", ["notes.txt"; "in.zip"])]); [reflexivity..|].
  intros root files file Hrf Hfile.
  apply list_elem_of_singleton in Hrf as [= -> ->].
  apply elem_of_cons in Hfile as [->|Hfile]; [by left|].
  apply list_elem_of_singleton in Hfile as ->. by right.
Defined.

Import Pipeline.

(** ** Detection on files, and the pipeline *)

Lemma existsb_eqb_elem (L : string) (seen : list string) :
  existsb (String.eqb L) seen = true <-> L ∈ seen.
Proof.
  rewrite existsb_exists, list_elem_of_In. split.
  - by intros (x & Hin & ->%String.eqb_eq).
  - intros Hin. exists L. by rewrite String.eqb_refl.
Qed.

Lemma first_appearances_NoDup (labels : list string) : forall seen,
  NoDup (first_appearances seen labels) /\
  (forall x, x ∈ first_appearances seen labels -> x ∉ seen).
Proof.
  induction labels as [|L labels IH]; intros seen.
  - split; [apply NoDup_nil_2|]. intros x Hx. by apply elem_of_nil in Hx.
  - cbn [first_appearances].
    destruct (existsb (String.eqb L) seen) eqn:Hs; [apply IH|].
    destruct (IH (L :: seen)) as [Hnd Hout]. split.
    + apply NoDup_cons. split; [|done].
      intros Hin. apply (Hout L Hin), list_elem_of_here.
    + intros x [->|Hx]%elem_of_cons.
      * intros Hin. apply existsb_eqb_elem in Hin. congruence.
      * intros Hin. apply (Hout x Hx). by apply list_elem_of_further.
Qed.

Lemma collapse_NoDup (entities : list entity) : NoDup (keys (collapse entities [])).
Proof.
  destruct (collapse_spec entities []) as (Hk & _ & _); [by intros L l|].
  rewrite Hk. apply first_appearances_NoDup.
Qed.

Lemma NoDup_keys_decide (d : dict) : bool_decide (NoDup (keys d)) = true -> NoDup (keys d).
Proof. apply bool_decide_eq_true_1. Qed.

Section DetectionFacts.
Context {Image Threshold : Type}.
Variable model : option (string -> list string -> Threshold -> lib_result (list entity)).
Variable E : Env Image.

Lemma pii_text_NoDup text th : NoDup (keys (extract_pii_from_text model text th)).
Proof.
  unfold extract_pii_from_text. destruct model as [f|].
  - destruct (f text pii_labels th); [apply collapse_NoDup|apply NoDup_singleton].
  - by apply NoDup_keys_decide.
Qed.

Lemma phi_text_NoDup text th : NoDup (keys (extract_phi_from_text model text th)).
Proof.
  unfold extract_phi_from_text. destruct model as [f|].
  - destruct (f text phi_labels th); [apply collapse_NoDup|apply NoDup_singleton].
  - by apply NoDup_keys_decide.
Qed.

Lemma pii_file_NoDup n p th d :
  extract_pii_from_file model E n p th = Some d -> NoDup (keys d).
Proof.
  unfold extract_pii_from_file.
  destruct (extract_text E n p) as [[text tr]|]; [|done].
  destruct (startswith text "Error:"); intros [= <-];
    [apply NoDup_singleton|apply pii_text_NoDup].
Qed.

Lemma phi_file_NoDup n p th d :
  extract_phi_from_file model E n p th = Some d -> NoDup (keys d).
Proof.
  unfold extract_phi_from_file.
  destruct (extract_text E n p) as [[text tr]|]; [|done].
  destruct (startswith text "Error:"); [intros [= <-]; apply NoDup_singleton|].
  destruct model as [f|].
  - destruct (f text phi_labels th); intros [= <-];
      [apply collapse_NoDup|apply NoDup_singleton].
  - intros [= <-]. by apply NoDup_keys_decide.
Qed.

Lemma pii_file_returns n p th :
  exists d, extract_pii_from_file model E (S (S n)) p th = Some d.
Proof.
  unfold extract_pii_from_file.
  destruct (extract_text_returns E n p) as (text & tr & ->).
  destruct (startswith text "Error:"); eauto.
Qed.

Lemma phi_file_returns n p th :
  exists d, extract_phi_from_file model E (S (S n)) p th = Some d.
Proof.
  unfold extract_phi_from_file.
  destruct (extract_text_returns E n p) as (text & tr & ->).
  destruct (startswith text "Error:"); [eauto|].
  destruct model as [f|]; [|eauto]. destruct (f text phi_labels th); eauto.
Qed.

Lemma file_refused n p th :
  path_exists E p = false \/ is_supported p = false ->
  exists msg,
    startswith msg "Error:" = true /\ nonempty msg = true /\
    extract_pii_from_file model E (S n) p th = Some [("error", Scalar msg)] /\
    extract_phi_from_file model E (S n) p th = Some [("error", Scalar msg)].
Proof.
  intros H. destruct (extract_text_refused E n p H) as (msg & Ht & Hp & Hn).
  exists msg. unfold extract_pii_from_file, extract_phi_from_file.
  rewrite Ht, Hp. done.
Qed.
End DetectionFacts.

(** X16. Every mapping the detector returns, for a text or for a file, for
    PII or for PHI, with a model or in demo mode, has pairwise distinct
    labels: what detection hands to [replace_pii_json] is a mapping on which
    the batch keeps the label set and the shape of every entry. *)
Theorem detection_labels_distinct :
  forall {Image Threshold : Type}
         (model : option (string -> list string -> Threshold -> lib_result (list entity)))
         (E : Env Image) (n : nat) (p text : string) (th : Threshold),
    NoDup (keys (extract_pii_from_text model text th)) /\
    NoDup (keys (extract_phi_from_text model text th)) /\
    (exists d, extract_pii_from_file model E (S (S n)) p th = Some d /\ NoDup (keys d)) /\
    (exists d, extract_phi_from_file model E (S (S n)) p th = Some d /\ NoDup (keys d)).
Proof.
  intros Image Threshold model E n p text th.
  split; [apply pii_text_NoDup|]. split; [apply phi_text_NoDup|]. split.
  - destruct (pii_file_returns model E n p th) as [d Hd].
    exists d. split; [done|]. by eapply pii_file_NoDup.
  - destruct (phi_file_returns model E n p th) as [d Hd].
    exists d. split; [done|]. by eapply phi_file_NoDup.
Qed.

(** X17. For a file that is missing or of no supported format, the two file
    detections return the same one-entry mapping [{"error": msg}], with [msg]
    starting with "Error:"; the model is not consulted, so the result is the
    same with and without a model. *)
Theorem file_error_gate :
  forall {Image Threshold : Type}
         (model : option (string -> list string -> Threshold -> lib_result (list entity)))
         (E : Env Image) (n : nat) (p : string) (th : Threshold),
    path_exists E p = false \/ is_supported p = false ->
    exists msg,
      startswith msg "Error:" = true /\
      extract_pii_from_file model E (S n) p th = Some [("error", Scalar msg)] /\
      extract_phi_from_file model E (S n) p th = Some [("error", Scalar msg)] /\
      extract_pii_from_file None E (S n) p th = Some [("error", Scalar msg)] /\
      extract_phi_from_file None E (S n) p th = Some [("error", Scalar msg)].
Proof.
  intros Image Threshold model E n p th H.
  destruct (file_refused model E n p th H) as (msg & Hp & _ & H1 & H2).
  destruct (file_refused None E n p th H) as (msg' & _ & _ & H3 & H4).
  assert (msg' = msg) as ->.
  { unfold extract_pii_from_file in H1, H3.
    destruct (extract_text E (S n) p) as [[text tr]|]; [|done].
    destruct (startswith text "Error:"); [by simplify_eq|].
    exfalso. unfold extract_pii_from_text in H3. simplify_eq. }
  exists msg. auto.
Qed.

Lemma file_error_gate_witness :
  exists msg,
    startswith msg "Error:" = true /\
    extract_pii_from_file Demo.model Demo.env 1 "missing.pdf" tt
    = Some [("error", Scalar msg)] /\
    extract_phi_from_file Demo.model Demo.env 1 "missing.pdf" tt
    = Some [("error", Scalar msg)] /\
    extract_pii_from_file None Demo.env 1 "missing.pdf" tt = Some [("error", Scalar msg)] /\
    extract_phi_from_file None Demo.env 1 "missing.pdf" tt = Some [("error", Scalar msg)].
Proof.
  apply (file_error_gate Demo.model Demo.env 0 "missing.pdf" tt). left. reflexivity.
Defined.

(** X18. On a file whose text was extracted, PHI detection from the file is
    PHI detection from its text whenever a model is loaded, and PII detection
    from the file is PII detection from its text in every mode; in demo mode
    the sample PHI of the file path and of the text path are different
    mappings. *)
Theorem file_detection_is_text_detection :
  forall {Image Threshold : Type}
         (model : option (string -> list string -> Threshold -> lib_result (list entity)))
         (E : Env Image) (n : nat) (p text : string) (tr : list (event Image))
         (th : Threshold),
    extract_text E n p = Some (text, tr) ->
    startswith text "Error:" = false ->
    extract_pii_from_file model E n p th = Some (extract_pii_from_text model text th) /\
    (forall f, extract_phi_from_file (Some f) E n p th
               = Some (extract_phi_from_text (Some f) text th)) /\
    extract_phi_from_file None E n p th <> Some (extract_phi_from_text None text th) /\
    keys (extract_phi_from_text (Threshold := Threshold) None text th)
    = ["medical condition"; "medication"; "Age"] /\
    option_map keys (extract_phi_from_file None E n p th)
    = Some ["medical condition"; "medication"; "blood pressure"].
Proof.
  intros Image Threshold model E n p text tr th Ht Hp.
  unfold extract_pii_from_file, extract_phi_from_file. rewrite Ht, Hp.
  split; [done|]. split.
  { intros f. unfold extract_phi_from_text. by destruct (f text phi_labels th). }
  split; [|done].
  unfold extract_phi_from_text. intros [=].
Qed.

Lemma file_detection_is_text_detection_witness :
  extract_pii_from_file Demo.model Demo.env 1 "report.pdf" tt
  = Some (extract_pii_from_text Demo.model
            ("Discharge summary" +:+ String "010" (String "010" "")
             +:+ "Follow-up in two weeks") tt) /\
  extract_phi_from_file None Demo.env 1 "report.pdf" tt
  <> Some (extract_phi_from_text None
             ("Discharge summary" +:+ String "010" (String "010" "")
              +:+ "Follow-up in two weeks") tt).
Proof.
  destruct (file_detection_is_text_detection Demo.model Demo.env 1 "report.pdf"
              ("Discharge summary" +:+ String "010" (String "010" "")
               +:+ "Follow-up in two weeks") [] tt)
    as (H1 & _ & H3 & _).
  - vm_compute. reflexivity.
  - reflexivity.
  - split; [exact H1|exact H3].
Defined.

Section PipelineFacts.
Context {Image Threshold World : Type}.
Variable model : option (string -> list string -> Threshold -> lib_result (list entity)).
Variable E : Env Image.
Variable P : Providers World.
Variable th : Threshold.

Lemma keys_length_of_equiv (d d' : dict) :
  NoDup (keys d) -> NoDup (keys d') -> (forall k, k ∈ keys d' <-> k ∈ keys d) ->
  length d' = length d.
Proof.
  intros Hd Hd' Heq.
  assert (keys d' ≡ₚ keys d) as Hp by (by apply NoDup_Permutation).
  apply Permutation_length in Hp. unfold keys in Hp. by rewrite !length_map in Hp.
Qed.

Lemma has_error_refused msg :
  nonempty msg = true -> has_error [("error", Scalar msg)] = true.
Proof. intros H. unfold has_error. by cbn. Qed.

Lemma make_file_data_defaults filename w :
  exists d,
    fst (make_file_data P filename [] [] w)
    = [("filename", Scalar filename);
       ("Hospital_ID", Scalar ("HOSP-" +:+ d));
       ("Patient_Name", Scalar "John Doe");
       ("Policy_Number",
        Scalar ("POL-" +:+ str_of_Z (fst (randint P 10000000 99999999
                                           (snd (randint P 1000000 9999999 w))))));
       ("date_of_birth", Scalar "15 March 1990");
       ("email", Scalar "patient@example.com");
       ("health_insurance", Scalar "Health Insurance Corp");
       ("phone_number", Scalar "+91-9876543210");
       ("Age", Scalar "35");
       ("allergy", Scalar "No known allergies");
       ("blood_group", Scalar "O+");
       ("drug", Scalar "No medications");
       ("gender", Scalar "Male");
       ("medical_condition", Scalar "No conditions");
       ("surgery", Scalar "No surgeries");
       ("symptom", Scalar "No symptoms")]
    /\ String.length d = 7 /\ all_chars is_ascii_digit d = true.
Proof.
  unfold make_file_data, gbind, gret.
  pose proof (randint_range P 1000000 9999999 w ltac:(lia)) as Hr.
  destruct (randint P 1000000 9999999 w) as [hosp w1]. cbn [fst snd] in *.
  destruct (randint P 10000000 99999999 w1) as [pol w2]. cbn [fst].
  exists (str_of_Z hosp). split; [done|].
  apply (str_of_Z_digits 6).
  change (10 ^ Z.of_nat 6)%Z with 1000000%Z. change (10 ^ Z.of_nat 7)%Z with 10000000%Z.
  lia.
Qed.
End PipelineFacts.

(** X19. [process] always returns, never raising, when the name providers
    keep their contract. It returns the error of the detection when the
    detected mapping has an "error" label, drawing nothing; otherwise it
    returns the replacement made on a new instance, which has exactly the
    detected labels and for every label a value of the detected shape. *)
Theorem process_outcome :
  forall {Image Threshold World : Type}
         (model : option (string -> list string -> Threshold -> lib_result (list entity)))
         (E : Env Image) (P : Providers World) (th : Threshold)
         (n : nat) (input_file : string) (w : World),
    names_nonblank P ->
    exists detected r s,
      extract_pii_from_file model E (S (S n)) input_file th = Some detected /\
      process model E P th (S (S n)) input_file w = Some (Ok r, s) /\
      match r with
      | ProcessError error =>
          dict_get "error" detected = Some error /\ s = init w
      | ProcessSuccess fake_pii file =>
          file = input_file /\
          dict_mem "error" detected = false /\
          (forall k, k ∈ keys fake_pii <-> k ∈ keys detected) /\
          length fake_pii = length detected /\
          (forall L v, dict_get L detected = Some v ->
                       exists fv, dict_get L fake_pii = Some fv /\ same_shape v fv)
      end.
Proof.
  intros Image Threshold World model E P th n p w Hn.
  destruct (pii_file_returns model E n p th) as [d Hd].
  pose proof (pii_file_NoDup model E _ p th d Hd) as Hnd.
  exists d. unfold process. rewrite Hd.
  destruct (dict_mem "error" d) eqn:Herr.
  - destruct (dict_get_mem "error" d Herr) as [e He]. rewrite He.
    exists (ProcessError e), (init w). done.
  - destruct (replace_pii_json_returns P d (init w)) as (out & s' & Hout).
    { right. split; [done|apply init_cache_usable]. }
    rewrite Hout. exists (ProcessSuccess out p), s'. split; [done|]. split; [done|].
    destruct (replace_pii_json_keys P d (init w) out s' Hout) as [Hk Hndo].
    split; [done|]. split; [done|]. split; [done|]. split.
    + by apply keys_length_of_equiv.
    + intros L v Hg. apply dict_get_In in Hg.
      exact (replace_pii_json_shape P d (init w) out s' L v Hnd Hout Hg).
Qed.

Lemma process_outcome_witness :
  exists detected r s,
    extract_pii_from_file Demo.model Demo.env 2 "report.pdf" tt = Some detected /\
    process Demo.model Demo.env Demo.providers tt 2 "report.pdf" 0 = Some (Ok r, s) /\
    match r with
    | ProcessError error => dict_get "error" detected = Some error /\ s = init 0
    | ProcessSuccess fake_pii file =>
        file = "report.pdf" /\
        dict_mem "error" detected = false /\
        (forall k, k ∈ keys fake_pii <-> k ∈ keys detected) /\
        length fake_pii = length detected /\
        (forall L v, dict_get L detected = Some v ->
                     exists fv, dict_get L fake_pii = Some fv /\ same_shape v fv)
    end.
Proof.
  apply (process_outcome Demo.model Demo.env Demo.providers tt 0 "report.pdf" 0).
  apply demo_names_nonblank.
Defined.

(** The pipeline on the text PDF of the demo. *)
Example process_report_run :
  option_map fst (process Demo.model Demo.env Demo.providers tt 2 "report.pdf" 0)
  = Some (Ok (ProcessSuccess
                [("Patient Name", Seq ["Ravi Kumar"; "Anita Shah"]);
                 ("email", Scalar "ravi.kumar@test.com")]
                "report.pdf")).
Proof. vm_compute. reflexivity. Qed.

(** X20. For a file that is missing or of no supported format, [process]
    returns [{"error": msg}] with the message of [extract_text]; no
    replacement instance is used and nothing is drawn. *)
Theorem process_refused_file :
  forall {Image Threshold World : Type}
         (model : option (string -> list string -> Threshold -> lib_result (list entity)))
         (E : Env Image) (P : Providers World) (th : Threshold)
         (n : nat) (input_file : string) (w : World),
    path_exists E input_file = false \/ is_supported input_file = false ->
    exists msg,
      extract_text E (S n) input_file = Some (msg, []) /\
      startswith msg "Error:" = true /\
      process model E P th (S n) input_file w
      = Some (Ok (ProcessError (Scalar msg)), init w).
Proof.
  intros Image Threshold World model E P th n p w H.
  destruct (extract_text_refused E n p H) as (msg & Ht & Hp & Hne).
  exists msg. split; [done|]. split; [done|].
  unfold process, extract_pii_from_file. rewrite Ht, Hp. done.
Qed.

Lemma process_refused_file_witness :
  exists msg,
    extract_text Demo.env 1 "notes.txt" = Some (msg, []) /\
    startswith msg "Error:" = true /\
    process Demo.model Demo.env Demo.providers tt 1 "notes.txt" 0
    = Some (Ok (ProcessError (Scalar msg)), init 0).
Proof.
  apply (process_refused_file Demo.model Demo.env Demo.providers tt 0 "notes.txt" 0).
  right. reflexivity.
Defined.

(** X21. The per-file step of [process_files] on a file that is missing or of
    no supported format does not fail: it reports no PII and no PHI and
    builds the row from the fixed sample values ("John Doe", "No
    medications", ...) with a Hospital_ID of "HOSP-" and seven digits; the
    cache and the anchor of the shared instance stay as they were. *)
Theorem file_step_refused_file :
  forall {Image Threshold World : Type}
         (model : option (string -> list string -> Threshold -> lib_result (list entity)))
         (E : Env Image) (P : Providers World) (th : Threshold)
         (n : nat) (filename temp_path : string) (s : St World),
    path_exists E temp_path = false \/ is_supported temp_path = false ->
    exists st s' d,
      file_step_of model E P th (S n) filename temp_path s = Some (Ok st, s') /\
      fake_pii st = [] /\ real_phi st = [] /\ pii_count st = 0 /\ phi_count st = 0 /\
      keys (file_data st)
      = ["filename"; "Hospital_ID"; "Patient_Name"; "Policy_Number"; "date_of_birth";
         "email"; "health_insurance"; "phone_number"; "Age"; "allergy"; "blood_group";
         "drug"; "gender"; "medical_condition"; "surgery"; "symptom"] /\
      dict_get "filename" (file_data st) = Some (Scalar filename) /\
      dict_get "Patient_Name" (file_data st) = Some (Scalar "John Doe") /\
      dict_get "drug" (file_data st) = Some (Scalar "No medications") /\
      dict_get "Hospital_ID" (file_data st) = Some (Scalar ("HOSP-" +:+ d)) /\
      String.length d = 7 /\ all_chars is_ascii_digit d = true /\
      replacement_cache s' = replacement_cache s /\
      current_patient_name s' = current_patient_name s.
Proof.
  intros Image Threshold World model E P th n filename p s H.
  destruct (file_refused model E n p th H) as (msg & Hp & Hne & H1 & H2).
  unfold file_step_of. rewrite H1, H2, (has_error_refused msg Hne). cbn [negb].
  destruct (make_file_data_defaults P filename (world s)) as (d & Hrow & Hl & Hc).
  destruct (make_file_data P filename [] [] (world s)) as [row w'] eqn:Hm.
  cbn [fst] in Hrow. subst row.
  eexists _, _, d. split; [reflexivity|]. cbn [fake_pii real_phi pii_count phi_count file_data].
  repeat (split; [done|]). done.
Qed.

Lemma file_step_refused_file_witness :
  exists st s' d,
    file_step_of Demo.model Demo.env Demo.providers tt 1 "notes.txt" "/tmp/up/notes.txt"
      (init 0) = Some (Ok st, s') /\
    fake_pii st = [] /\ real_phi st = [] /\ pii_count st = 0 /\ phi_count st = 0 /\
    keys (file_data st)
    = ["filename"; "Hospital_ID"; "Patient_Name"; "Policy_Number"; "date_of_birth";
       "email"; "health_insurance"; "phone_number"; "Age"; "allergy"; "blood_group";
       "drug"; "gender"; "medical_condition"; "surgery"; "symptom"] /\
    dict_get "filename" (file_data st) = Some (Scalar "notes.txt") /\
    dict_get "Patient_Name" (file_data st) = Some (Scalar "John Doe") /\
    dict_get "drug" (file_data st) = Some (Scalar "No medications") /\
    dict_get "Hospital_ID" (file_data st) = Some (Scalar ("HOSP-" +:+ d)) /\
    String.length d = 7 /\ all_chars is_ascii_digit d = true /\
    replacement_cache s' = replacement_cache (init 0) /\
    current_patient_name s' = current_patient_name (init 0).
Proof.
  apply (file_step_refused_file Demo.model Demo.env Demo.providers tt 0 "notes.txt"
           "/tmp/up/notes.txt" (init 0)).
  right. reflexivity.
Defined.

(** X22. The per-file step on a file whose two detections carry no error:
    when the name providers keep their contract and the cache holds usable
    values, the step does not fail; the PHI is handed on exactly as it was
    detected, the PII is replaced label by label, the two counts are the
    numbers of detected labels, and the cache of the shared instance only
    grows. *)
Theorem file_step_keeps_phi :
  forall {Image Threshold World : Type}
         (model : option (string -> list string -> Threshold -> lib_result (list entity)))
         (E : Env Image) (P : Providers World) (th : Threshold)
         (n : nat) (filename temp_path : string) (s : St World) (pii phi : dict),
    extract_pii_from_file model E n temp_path th = Some pii ->
    extract_phi_from_file model E n temp_path th = Some phi ->
    has_error pii = false ->
    has_error phi = false ->
    names_nonblank P ->
    cache_usable s ->
    exists st s',
      file_step_of model E P th n filename temp_path s = Some (Ok st, s') /\
      real_phi st = phi /\ phi_count st = length phi /\
      pii_count st = length pii /\
      (forall k, k ∈ keys (fake_pii st) <-> k ∈ keys pii) /\
      (forall L v, dict_get L pii = Some v ->
                   exists fv, dict_get L (fake_pii st) = Some fv /\ same_shape v fv) /\
      replacement_cache s ⊆ replacement_cache s'.
Proof.
  intros Image Threshold World model E P th n filename p s pii phi H1 H2 He1 He2 Hn Hs.
  pose proof (pii_file_NoDup model E n p th pii H1) as Hnd.
  unfold file_step_of. rewrite H1, H2, He1, He2. cbn [negb].
  destruct (replace_pii_json_returns P pii s) as (out & s1 & Hout); [by right|].
  rewrite Hout.
  destruct (make_file_data P filename out phi (world s1)) as [row w'].
  destruct (replace_pii_json_keys P pii s out s1 Hout) as [Hk Hndo].
  eexists _, _. split; [reflexivity|].
  cbn [fake_pii real_phi pii_count phi_count replacement_cache].
  split; [done|]. split; [done|]. split; [by apply keys_length_of_equiv|].
  split; [done|]. split.
  - intros L v Hg. apply dict_get_In in Hg.
    exact (replace_pii_json_shape P pii s out s1 L v Hnd Hout Hg).
  - pose proof (replace_pii_json_cache_le P pii s) as Hle. by rewrite Hout in Hle.
Qed.

Lemma file_step_keeps_phi_witness :
  exists st s',
    file_step_of Demo.model Demo.env Demo.providers tt 1 "report.pdf" "/tmp/up/report.pdf"
      (init 0) = Some (Ok st, s') /\
    real_phi st = [("Patient Name", Seq ["Mr. Ravi Kumar"; "Ravi"]);
                   ("email", Scalar "ravi@mail.in")] /\
    phi_count st = 2 /\ pii_count st = 2 /\
    (forall k, k ∈ keys (fake_pii st) <-> k ∈ ["Patient Name"; "email"]) /\
    (forall L v, dict_get L [("Patient Name", Seq ["Mr. Ravi Kumar"; "Ravi"]);
                             ("email", Scalar "ravi@mail.in")] = Some v ->
                 exists fv, dict_get L (fake_pii st) = Some fv /\ same_shape v fv) /\
    replacement_cache (init 0) ⊆ replacement_cache s'.
Proof.
  apply (file_step_keeps_phi Demo.model Demo.env Demo.providers tt 1 "report.pdf"
           "/tmp/up/report.pdf" (init 0)
           [("Patient Name", Seq ["Mr. Ravi Kumar"; "Ravi"]); ("email", Scalar "ravi@mail.in")]
           [("Patient Name", Seq ["Mr. Ravi Kumar"; "Ravi"]); ("email", Scalar "ravi@mail.in")]).
  - vm_compute. reflexivity.
  - vm_compute. reflexivity.
  - reflexivity.
  - reflexivity.
  - apply demo_names_nonblank.
  - apply init_cache_usable.
Defined.

(** ** The anchor, the doctor branch and the address branch *)

(** X23. The generator stores the anchor only on a cache miss: a first call on
    a patient label returns a new name and makes it the anchor, while a call
    on a cached patient label returns the cached name and leaves the
    instance, its anchor included, as it was. *)
Theorem anchor_follows_misses_only :
  forall {World} (P : Providers World) (L V : string) (s : St World),
    is_patient_label L = true ->
    match replacement_cache s !! cache_key L V with
    | None =>
        exists f, fst (generate_fake_value P L V s) = Ok f /\
                  current_patient_name (snd (generate_fake_value P L V s)) = Some f
    | Some v => generate_fake_value P L V s = (Ok v, s)
    end.
Proof.
  intros World P L V s HL.
  destruct (replacement_cache s !! cache_key L V) as [v|] eqn:Hc.
  - by apply generate_hit.
  - rewrite (generate_miss P L V s Hc).
    pose proof (patient_label_is_name_label L HL) as Hn. unfold is_name_label in Hn.
    unfold fresh_value. rewrite Hn, name_branch_spec.
    unfold is_patient_label in HL. rewrite HL. cbn. eauto.
Qed.

Lemma anchor_follows_misses_only_witness :
  let s1 := snd (generate_fake_value Demo.providers "Patient Name" "Mr. A" (init 0)) in
  let s2 := snd (generate_fake_value Demo.providers "Name" "Ms. B" s1) in
  match replacement_cache s2 !! cache_key "Patient Name" "Mr. A" with
  | None =>
      exists f, fst (generate_fake_value Demo.providers "Patient Name" "Mr. A" s2) = Ok f /\
                current_patient_name
                  (snd (generate_fake_value Demo.providers "Patient Name" "Mr. A" s2))
                = Some f
  | Some v => generate_fake_value Demo.providers "Patient Name" "Mr. A" s2 = (Ok v, s2)
  end.
Proof.
  intros s1 s2.
  apply (anchor_follows_misses_only Demo.providers "Patient Name" "Mr. A" s2).
  reflexivity.
Defined.

(** After a second name was generated, the cached first name comes back
    without becoming the anchor again. *)
Example stale_anchor_run :
  let s1 := snd (generate_fake_value Demo.providers "Patient Name" "Mr. A" (init 0)) in
  let s2 := snd (generate_fake_value Demo.providers "Name" "Ms. B" s1) in
  fst (generate_fake_value Demo.providers "Patient Name" "Mr. A" s2) = Ok "Ravi Kumar" /\
  current_patient_name (snd (generate_fake_value Demo.providers "Patient Name" "Mr. A" s2))
  = Some "Asha Patel".
Proof. vm_compute. auto. Qed.

(** X24. On a cache miss, a label that reaches the doctor branch (it contains
    "doctor" or "physician" and not "name") is replaced by "Dr. ", a name of
    the provider, ", " and one of the five specialties; the anchor is left
    alone. *)
Theorem doctor_value_format :
  forall {World} (P : Providers World) (L V : string) (s : St World),
    is_name_label L = false ->
    contains "doctor" (lower L) || contains "primary doctor" (lower L)
    || contains "physician" (lower L) = true ->
    replacement_cache s !! cache_key L V = None ->
    exists specialty,
      specialty ∈ specialties /\
      fst (generate_fake_value P L V s)
      = Ok ("Dr. " +:+ fst (faker_name P (world s)) +:+ ", " +:+ specialty) /\
      current_patient_name (snd (generate_fake_value P L V s)) = current_patient_name s.
Proof.
  intros World P L V s Hn Hd Hc.
  rewrite (generate_miss P L V s Hc).
  unfold is_name_label in Hn. unfold fresh_value. rewrite Hn, Hd, lift_spec.
  unfold doctor_value, gbind, gret.
  destruct (faker_name P (world s)) as [name w1]. cbn [fst snd].
  pose proof (choice_elem P "" specialties w1 ltac:(done)) as Hin.
  destruct (choice P "" specialties w1) as [specialty w2]. cbn [fst snd] in *.
  exists specialty. done.
Qed.

Lemma doctor_value_format_witness :
  exists specialty,
    specialty ∈ specialties /\
    fst (generate_fake_value Demo.providers "Primary Doctor" "Dr. Mehta" (init 0))
    = Ok ("Dr. " +:+ fst (faker_name Demo.providers (world (init 0))) +:+ ", " +:+ specialty)
    /\ current_patient_name
         (snd (generate_fake_value Demo.providers "Primary Doctor" "Dr. Mehta" (init 0)))
       = current_patient_name (init 0).
Proof.
  apply (doctor_value_format Demo.providers "Primary Doctor" "Dr. Mehta" (init 0));
    reflexivity.
Defined.

Lemma replace_newline_free (a : string) :
  all_chars (fun c => negb (Ascii.eqb c "010")) (replace (String "010" "") ", " a) = true.
Proof.
  unfold replace. induction a as [|c a IH]; [done|].
  cbn [replace_go String.prefix].
  destruct (ascii_dec "010" c) as [<-|Hne].
  - assert (String.prefix "" a = true) as -> by (by destruct a).
    change (String.length (String "010" "") - 1) with 0.
    rewrite all_chars_append. by rewrite IH.
  - cbn [all_chars]. rewrite IH, andb_true_r.
    apply negb_true_iff, Ascii.eqb_neq. congruence.
Qed.

(** X25. On a cache miss, a label that reaches the address branch (it contains
    "address" or "location" and no text of an earlier branch; "ip address"
    is such a label) is replaced by the postal address of the provider with
    every line break turned into ", ": the value holds no line break. *)
Theorem address_single_line :
  forall {World} (P : Providers World) (L V : string) (s : St World),
    is_plain_label L = true ->
    contains "phone number" (lower L) || contains "mobile number" (lower L) = false ->
    contains "address" (lower L) || contains "location" (lower L) = true ->
    replacement_cache s !! cache_key L V = None ->
    fst (generate_fake_value P L V s)
    = Ok (replace (String "010" "") ", " (fst (faker_address P (world s)))) /\
    all_chars (fun c => negb (Ascii.eqb c "010"))
      (replace (String "010" "") ", " (fst (faker_address P (world s)))) = true.
Proof.
  intros World P L V s HL Hp Ha Hc. split; [|apply replace_newline_free].
  rewrite (generate_miss_value P L V s Hc), (fresh_value_plain P L V s HL), lift_value.
  unfold other_value. rewrite Hp, Ha. unfold gbind, gret.
  by destruct (faker_address P (world s)).
Qed.

Lemma address_single_line_witness :
  fst (generate_fake_value Demo.providers "ip address" "10.0.0.7" (init 0))
  = Ok (replace (String "010" "") ", " (fst (faker_address Demo.providers (world (init 0)))))
  /\ all_chars (fun c => negb (Ascii.eqb c "010"))
       (replace (String "010" "") ", "
          (fst (faker_address Demo.providers (world (init 0))))) = true.
Proof.
  apply (address_single_line Demo.providers "ip address" "10.0.0.7" (init 0)); reflexivity.
Defined.

(** The address an IP address is replaced by. *)
Example ip_address_run :
  fst (generate_fake_value Demo.providers "ip address" "10.0.0.7" (init 0))
  = Ok "12 MG Road, Pune 411001".
Proof. vm_compute. reflexivity. Qed.
